(** * PlateCore session engine: a shallow embedding of [core.py]

    The development follows the source file top-down: the string
    primitives the program relies on, the JSON-shaped data, the world the
    process runs in (standard input, clock, files), the persistent store,
    the session functions, the project commands, the import/export
    reconciliation and the command loop of [main].

    Conventions
    - Strings are byte strings; the case and whitespace functions act on
      ASCII and leave other bytes alone.
    - A dictionary whose iteration order never reaches the result is a
      [gmap]; the ordered dictionary [current_tasks_map] of the import is
      an association list.
    - Effects are threaded through the monad [M]: a computation reads and
      changes the [world], may raise a Python exception, and emits a trace
      of [event]s (printed lines and file writes).
    - A store file is missing, unreadable, or holds a collection of its
      own kind; the keys of the logs are strings on disk, as JSON has
      them.
    - A store save that fails has either not opened the file, which is
      then left as it was, or has opened it, which leaves it cut short
      and unreadable. The session file and an export file are written
      or left as they were. Removing the session file always succeeds.
    - Instants are numbered by the reads of the clock.
    - ANSI colours, prompt texts, pauses, the index [log_dates] of the
      log list and the bodies of pure listings are presentation and are
      abridged or left out. *)

From Stdlib Require Import ZArith Ascii String List Lia Bool.
From stdpp Require Import base option gmap list strings pretty.

Open Scope string_scope.
Open Scope list_scope.

(** ** Python string primitives *)

Module PyStr.

Definition is_space (c : ascii) : bool :=
  let n := N_of_ascii c in
  ((9 <=? n)%N && (n <=? 13)%N) || ((28 <=? n)%N && (n <=? 32)%N).

Definition is_upper (c : ascii) : bool :=
  let n := N_of_ascii c in (65 <=? n)%N && (n <=? 90)%N.

Definition is_lower (c : ascii) : bool :=
  let n := N_of_ascii c in (97 <=? n)%N && (n <=? 122)%N.

Definition is_cased (c : ascii) : bool := is_upper c || is_lower c.

Definition is_digit (c : ascii) : bool :=
  let n := N_of_ascii c in (48 <=? n)%N && (n <=? 57)%N.

Definition lower_ascii (c : ascii) : ascii :=
  if is_upper c then ascii_of_N (N_of_ascii c + 32) else c.

Definition upper_ascii (c : ascii) : ascii :=
  if is_lower c then ascii_of_N (N_of_ascii c - 32) else c.

Fixpoint smap (f : ascii -> ascii) (s : string) : string :=
  match s with
  | EmptyString => EmptyString
  | String c r => String (f c) (smap f r)
  end.

(** [str.lower()] and [str.upper()] *)
Definition lower : string -> string := smap lower_ascii.
Definition upper : string -> string := smap upper_ascii.

(** [str.title()]: a cased character is upper-cased when the character
    before it is not cased, lower-cased otherwise. *)
Fixpoint title_from (prev_cased : bool) (s : string) : string :=
  match s with
  | EmptyString => EmptyString
  | String c r =>
      String (if prev_cased then lower_ascii c else upper_ascii c)
             (title_from (is_cased c) r)
  end.

Definition title : string -> string := title_from false.

Fixpoint lstrip (s : string) : string :=
  match s with
  | EmptyString => EmptyString
  | String c r => if is_space c then lstrip r else s
  end.

Fixpoint rstrip (s : string) : string :=
  match s with
  | EmptyString => EmptyString
  | String c r =>
      match rstrip r with
      | EmptyString => if is_space c then EmptyString else String c EmptyString
      | r' => String c r'
      end
  end.

(** [str.strip()] *)
Definition strip (s : string) : string := rstrip (lstrip s).

(** The text before and after the first space, when there is one. *)
Fixpoint break_space (s : string) : option (string * string) :=
  match s with
  | EmptyString => None
  | String c r =>
      if Ascii.eqb c " "%char then Some (EmptyString, r)
      else match break_space r with
           | Some (a, b) => Some (String c a, b)
           | None => None
           end
  end.

(** [s.split(" ", maxsplit)] *)
Fixpoint split_space (maxsplit : nat) (s : string) : list string :=
  match maxsplit with
  | O => [s]
  | S n =>
      match break_space s with
      | Some (a, b) => a :: split_space n b
      | None => [s]
      end
  end.

(** [sub in s] *)
Fixpoint contains (sub s : string) : bool :=
  String.prefix sub s ||
  match s with
  | EmptyString => false
  | String _ r => contains sub r
  end.

(** [s.replace('T-', '')] *)
Fixpoint remove_T_dash (s : string) : string :=
  match s with
  | EmptyString => EmptyString
  | String "T"%char (String "-"%char r) => remove_T_dash r
  | String c r => String c (remove_T_dash r)
  end.

Fixpoint all_digits (s : string) : bool :=
  match s with
  | EmptyString => true
  | String c r => is_digit c && all_digits r
  end.

(** [str.isdigit()] *)
Definition isdigit (s : string) : bool :=
  match s with
  | EmptyString => false
  | _ => all_digits s
  end.

Definition digit_val (c : ascii) : Z := Z.of_N (N_of_ascii c) - 48.

(** Decimal digits, with single underscores allowed between digits. *)
Fixpoint parse_digits (acc : Z) (after_digit : bool) (s : string) : option Z :=
  match s with
  | EmptyString => if after_digit then Some acc else None
  | String c r =>
      if is_digit c then parse_digits (10 * acc + digit_val c) true r
      else if Ascii.eqb c "_"%char then
        if after_digit then parse_digits acc false r else None
      else None
  end.

(** [int(s)]: [None] stands for [ValueError]. *)
Definition py_int (s : string) : option Z :=
  match strip s with
  | String "+"%char r => parse_digits 0 false r
  | String "-"%char r => Z.opp <$> parse_digits 0 false r
  | r => parse_digits 0 false r
  end.

(** [str(n)] for an integer *)
Definition py_str (n : Z) : string := pretty n.

End PyStr.

Import PyStr.

(** The em dash that separates the date prefix of a log line (UTF-8). *)
Definition EM_DASH : string :=
  String (ascii_of_N 226) (String (ascii_of_N 128) (String (ascii_of_N 148) EmptyString)).

(** ** JSON-shaped data *)

(** Scalar field values: [None], integers and strings. *)
Inductive jval : Type :=
| JNull
| JInt (z : Z)
| JStr (s : string).

#[global] Instance jval_eq_dec : EqDecision jval.
Proof. solve_decision. Defined.

(** Python truthiness of a scalar. *)
Definition truthy (v : jval) : bool :=
  match v with
  | JNull => false
  | JInt z => negb (z =? 0)%Z
  | JStr s => negb (String.eqb s "")
  end.

(** [str(v)] *)
Definition show_jval (v : jval) : string :=
  match v with
  | JNull => "None"
  | JInt z => py_str z
  | JStr s => s
  end.

(** A JSON object with scalar fields: a profile, a task, a history entry. *)
Abbreviation jobj := (gmap string jval).

(** [d.get(key)]: an absent key reads as [None]. *)
Definition get (d : jobj) (key : string) : jval := default JNull (d !! key).

(** [d.get(key, dflt)] *)
Definition get_or (d : jobj) (key : string) (dflt : jval) : jval :=
  default dflt (d !! key).

(** [d.update(other)]: the keys of [other] win. *)
Definition update (d other : jobj) : jobj := other ∪ d.

(** A project: its header fields and, under the key "Tasks", its task
    list ([None] when the key is absent). *)
Record project : Type := Project {
  p_fields : jobj;
  p_tasks : option (list jobj)
}.

#[global] Instance project_eq_dec : EqDecision project.
Proof. solve_decision. Defined.

(** [proj.get("Tasks", [])] *)
Definition get_tasks (p : project) : list jobj := default [] (p_tasks p).

Definition set_tasks (p : project) (ts : list jobj) : project :=
  {| p_fields := p_fields p; p_tasks := Some ts |}.

Definition set_field (p : project) (key : string) (v : jval) : project :=
  {| p_fields := <[key := v]> (p_fields p); p_tasks := p_tasks p |}.

(** The three in-memory collections of [main]. *)
Record mem : Type := Mem {
  stories : gmap Z (list string);
  profiles : gmap string jobj;
  projects : gmap string project
}.

(** The export/import snapshot. A top-level key may be missing; the log
    keys are strings, in file order. *)
Record snapshot : Type := Snapshot {
  s_profiles : option (gmap string jobj);
  s_logs : option (list (string * list string));
  s_projects : option (gmap string project);
  s_session_history : option (list jobj)
}.

(** ** The world of the process *)

(** The five files the program owns. *)
Inductive store : Type :=
| SESSION_FILE
| PROFILES_FILE
| LOGS_FILE
| SESSION_HISTORY_FILE
| PROJECTS_FILE.

#[global] Instance store_eq_dec : EqDecision store.
Proof. solve_decision. Defined.

(** A JSON file is missing, unreadable as JSON, or holds a collection. *)
Inductive fstate (A : Type) : Type :=
| Absent
| Corrupt
| Content (a : A).
Arguments Absent {A}.
Arguments Corrupt {A}.
Arguments Content {A} a.

(** Files named by the user for export and import. Their names are
    taken to differ from the five store files. *)
Inductive ext_file : Type :=
| ExtSnapshot (s : snapshot)
| ExtLogText (entries : gmap Z (list string))
| ExtGarbage.

Record files : Type := Files {
  session_txt : option string;
  profiles_json : fstate (gmap string jobj);
  (** the object of [logs.json] as [json.load] returns it: string keys,
      in file order *)
  logs_json : fstate (list (string * list string));
  session_history_json : fstate (list jobj);
  projects_json : fstate (gmap string project);
  other_files : gmap string ext_file;
  (** whether writing the file succeeds *)
  writable : store -> bool;
  (** whether a write that fails has opened the file (mode "w") before
      it fails *)
  truncates : store -> bool;
  other_writable : string -> bool
}.

Record world : Type := World {
  stdin : list string;
  clock : nat;
  fs : files;
  (** the two module globals *)
  current_platecore_id : option string;
  current_session_start_time : nat
}.

(** What a store save carries; for the logs, the collection whose keys
    [save_logs] turns into strings. *)
Inductive fdata : Type :=
| DProfiles (d : gmap string jobj)
| DLogs (d : gmap Z (list string))
| DHistory (d : list jobj)
| DProjects (d : gmap string project).

#[global] Instance fdata_eq_dec : EqDecision fdata.
Proof. solve_decision. Defined.

Inductive exn : Type :=
| EOFError
| IOError
| ValueError
| KeyError
| AttributeError.

(** The observable trace: printed lines and file operations. *)
Inductive event : Type :=
| Out (text : string)
| Err (text : string)
| Saved (filepath : store) (data : fdata) (ok : bool)
| SessionWritten (user_id : string) (ok : bool)
| SessionRemoved
| Exported (filename : string) (ok : bool)
| ScreenCleared
| HelpShown (category : string)
| Listed (what : string).

#[global] Instance event_eq_dec : EqDecision event.
Proof. solve_decision. Defined.

Inductive res (A : Type) : Type :=
| Ok (a : A)
| Raise (e : exn).
Arguments Ok {A} a.
Arguments Raise {A} e.

(** ** The effect monad *)

Definition M (A : Type) : Type := world -> res A * world * list event.

#[global] Instance M_ret : MRet M := fun A a w => (Ok a, w, []).

#[global] Instance M_bind : MBind M := fun A B k m w =>
  match m w with
  | (Ok a, w1, t1) =>
      match k a w1 with
      | (r, w2, t2) => (r, w2, t1 ++ t2)
      end
  | (Raise e, w1, t1) => (Raise e, w1, t1)
  end.

#[global] Instance M_fmap : FMap M := fun A B f m w =>
  match m w with
  | (Ok a, w1, t1) => (Ok (f a), w1, t1)
  | (Raise e, w1, t1) => (Raise e, w1, t1)
  end.

Definition raise {A : Type} (e : exn) : M A := fun w => (Raise e, w, []).

(** [try: body except Exception as e: handler(e)] *)
Definition try_except {A : Type} (body : M A) (handler : exn -> M A) : M A :=
  fun w =>
    match body w with
    | (Ok a, w1, t1) => (Ok a, w1, t1)
    | (Raise e, w1, t1) =>
        match handler e w1 with
        | (r, w2, t2) => (r, w2, t1 ++ t2)
        end
    end.

Definition emit (e : event) : M unit := fun w => (Ok tt, w, [e]).

Definition get_world : M world := fun w => (Ok w, w, []).

Definition put_world (w' : world) : M unit := fun _ => (Ok tt, w', []).

Definition set_fs (f : files) (w : world) : world :=
  {| stdin := stdin w; clock := clock w; fs := f;
     current_platecore_id := current_platecore_id w;
     current_session_start_time := current_session_start_time w |}.

Definition set_current_platecore_id (u : option string) (w : world) : world :=
  {| stdin := stdin w; clock := clock w; fs := fs w;
     current_platecore_id := u;
     current_session_start_time := current_session_start_time w |}.

Definition set_current_session_start_time (t : nat) (w : world) : world :=
  {| stdin := stdin w; clock := clock w; fs := fs w;
     current_platecore_id := current_platecore_id w;
     current_session_start_time := t |}.

Definition set_stdin (l : list string) (w : world) : world :=
  {| stdin := l; clock := clock w; fs := fs w;
     current_platecore_id := current_platecore_id w;
     current_session_start_time := current_session_start_time w |}.

Definition set_clock (t : nat) (w : world) : world :=
  {| stdin := stdin w; clock := t; fs := fs w;
     current_platecore_id := current_platecore_id w;
     current_session_start_time := current_session_start_time w |}.

Definition modify (f : world -> world) : M unit := fun w => (Ok tt, f w, []).

(** ** Utility functions *)

Definition pause_print (text : string) : M unit := emit (Out text).
Definition print (text : string) : M unit := emit (Out text).
Definition print_error (text : string) : M unit := emit (Err text).

(** [input(...)]: the next line of standard input, [EOFError] at its end.
    [prompt_input] and [prompt_getpass] differ in the prompt only. *)
Definition prompt_input : M string := fun w =>
  match stdin w with
  | [] => (Raise EOFError, w, [])
  | line :: rest => (Ok line, set_stdin rest w, [])
  end.

Definition prompt_getpass : M string := prompt_input.

(** [datetime.now(malaysia_tz)]: instants are numbered by clock reads. *)
Definition now : M nat := fun w => (Ok (clock w), set_clock (S (clock w)) w, []).

(** [strftime('%Y-%m-%d %H:%M:%S %Z%z')] and [strftime("%B %d, %Y")],
    abridged to a rendering of the instant. *)
Definition strftime (t : nat) : string := "@" +:+ pretty t.
Definition strftime_date (t : nat) : string := "day " +:+ pretty t.

Definition put_session (c : option string) (f : files) : files :=
  {| session_txt := c; profiles_json := profiles_json f;
     logs_json := logs_json f;
     session_history_json := session_history_json f;
     projects_json := projects_json f; other_files := other_files f;
     writable := writable f; truncates := truncates f;
     other_writable := other_writable f |}.

Definition put_other (name : string) (c : ext_file) (f : files) : files :=
  {| session_txt := session_txt f; profiles_json := profiles_json f;
     logs_json := logs_json f;
     session_history_json := session_history_json f;
     projects_json := projects_json f;
     other_files := <[name := c]> (other_files f);
     writable := writable f; truncates := truncates f;
     other_writable := other_writable f |}.

(** [{str(k): v for k, v in logs_data.items()}] *)
Definition str_keys (logs_data : gmap Z (list string)) : list (string * list string) :=
  (λ kv, (py_str kv.1, kv.2)) <$> map_to_list logs_data.

(** The file content after [json.dump(data, f)]. *)
Definition put_data (data : fdata) (f : files) : files :=
  {| session_txt := session_txt f;
     profiles_json :=
       match data with DProfiles d => Content d | _ => profiles_json f end;
     logs_json :=
       match data with DLogs d => Content (str_keys d) | _ => logs_json f end;
     session_history_json :=
       match data with DHistory d => Content d | _ => session_history_json f end;
     projects_json :=
       match data with DProjects d => Content d | _ => projects_json f end;
     other_files := other_files f;
     writable := writable f; truncates := truncates f;
     other_writable := other_writable f |}.

(** The file content after a [json.dump(data, f)] that failed once the
    file was open: the text is cut short and is no JSON any more. *)
Definition cut_data (data : fdata) (f : files) : files :=
  {| session_txt := session_txt f;
     profiles_json :=
       match data with DProfiles _ => Corrupt | _ => profiles_json f end;
     logs_json :=
       match data with DLogs _ => Corrupt | _ => logs_json f end;
     session_history_json :=
       match data with DHistory _ => Corrupt | _ => session_history_json f end;
     projects_json :=
       match data with DProjects _ => Corrupt | _ => projects_json f end;
     other_files := other_files f;
     writable := writable f; truncates := truncates f;
     other_writable := other_writable f |}.

(** The files after a save that failed. *)
Definition failed_write (filepath : store) (data : fdata) (f : files) : files :=
  if truncates f filepath then cut_data data f else f.

Definition file_name (f : store) : string :=
  match f with
  | SESSION_FILE => "session.txt"
  | PROFILES_FILE => "profiles.json"
  | LOGS_FILE => "logs.json"
  | SESSION_HISTORY_FILE => "session_history.json"
  | PROJECTS_FILE => "projects.json"
  end.

(** [mark_logged_in]: the global is set before the file is opened. *)
Definition mark_logged_in (user_id : string) : M unit :=
  modify (set_current_platecore_id (Some user_id));;
  w ← get_world;
  if writable (fs w) SESSION_FILE then
    put_world (set_fs (put_session (Some user_id) (fs w)) w);;
    emit (SessionWritten user_id true)
  else
    emit (SessionWritten user_id false);;
    raise IOError.

Definition get_logged_in_user : M (option string) :=
  w ← get_world;
  mret (strip <$> session_txt (fs w)).

Definition clear_session : M unit :=
  w ← get_world;
  (if session_txt (fs w) is Some _ then
     put_world (set_fs (put_session None (fs w)) w);;
     emit SessionRemoved
   else mret tt);;
  modify (set_current_platecore_id None).

(** [load_json_file]: the default when the file is missing; the default
    and an error line when it does not parse. *)
Definition load_json_file {A : Type} (filepath : store)
    (content : fstate A) (default_data : A) : M A :=
  match content with
  | Absent => mret default_data
  | Corrupt =>
      print_error ("Error reading " +:+ file_name filepath +:+
                   ". File might be corrupted. Starting with default data.");;
      mret default_data
  | Content a => mret a
  end.

(** [save_json_file]: a failed write prints and re-raises; the file is
    opened with mode "w", so a failure after the opening leaves it cut. *)
Definition save_json_file (filepath : store) (data : fdata) : M unit :=
  w ← get_world;
  if writable (fs w) filepath then
    put_world (set_fs (put_data data (fs w)) w);;
    emit (Saved filepath data true)
  else
    put_world (set_fs (failed_write filepath data (fs w)) w);;
    emit (Saved filepath data false);;
    print_error ("Error: Could not write to " +:+ file_name filepath +:+
                 ". Check permissions or disk space.");;
    raise IOError.

(** [{int(k): v for k, v in items}], of [load_logs] and of the import;
    [None] stands for the [ValueError] of a key that is not an integer. *)
Fixpoint int_keys (items : list (string * list string))
    (acc : gmap Z (list string)) : option (gmap Z (list string)) :=
  match items with
  | [] => Some acc
  | (k, v) :: rest =>
      match py_int k with
      | Some n => int_keys rest (<[n := v]> acc)
      | None => None
      end
  end.

Definition load_profiles : M (gmap string jobj) :=
  w ← get_world; load_json_file PROFILES_FILE (profiles_json (fs w)) ∅.

Definition save_profiles (profiles_data : gmap string jobj) : M unit :=
  save_json_file PROFILES_FILE (DProfiles profiles_data).

(** [load_logs]: the keys are turned into integers; a key that is not
    one raises [ValueError]. *)
Definition load_logs : M (gmap Z (list string)) :=
  w ← get_world;
  loaded_data ← load_json_file LOGS_FILE (logs_json (fs w)) [];
  match int_keys loaded_data ∅ with
  | Some logs_data => mret logs_data
  | None => raise ValueError
  end.

(** [save_logs]: the keys go to the file as strings, see [put_data]. *)
Definition save_logs (logs_data : gmap Z (list string)) : M unit :=
  save_json_file LOGS_FILE (DLogs logs_data).

Definition load_projects : M (gmap string project) :=
  w ← get_world; load_json_file PROJECTS_FILE (projects_json (fs w)) ∅.

Definition save_projects (projects_data : gmap string project) : M unit :=
  save_json_file PROJECTS_FILE (DProjects projects_data).

(** ** Session history *)

Definition load_session_history : M (list jobj) :=
  w ← get_world;
  load_json_file SESSION_HISTORY_FILE (session_history_json (fs w)) [].

Definition save_session_history (history_data : list jobj) : M unit :=
  save_json_file SESSION_HISTORY_FILE (DHistory history_data).

Definition history_entry (timestamp : nat) (user_id event_type : string)
    (start_time : nat) (end_time : option nat) : jobj :=
  <["timestamp" := JStr (strftime timestamp)]>
  (<["user_id" := JStr user_id]>
  (<["event_type" := JStr event_type]>
  (<["session_start" := JStr (strftime start_time)]>
  (<["session_end" := JStr (from_option strftime "N/A" end_time)]> ∅)))).

Definition record_session_event (user_id event_type : string)
    (start_time : nat) (end_time : option nat) : M unit :=
  history ← load_session_history;
  timestamp ← now;
  save_session_history
    (history ++ [history_entry timestamp user_id event_type start_time end_time]).

Definition show_session_history : M unit :=
  history ← load_session_history;
  if history is [] then pause_print "No session history found."
  else emit (Listed "Recent Session History (most recent first):").

(** ** Project management *)

Definition nonempty (s : string) : bool := negb (String.eqb s "").

Definition projects_list_command (projects_data : gmap string project) : M unit :=
  if bool_decide (projects_data = ∅) then pause_print "No projects found."
  else emit (Listed "PlateCore Projects:").

Definition project_view_command (projects_data : gmap string project)
    (project_id : string) : M unit :=
  if negb (nonempty project_id) then print_error "Usage: projectview <PROJECT_ID>"
  else
    let proj_id := upper project_id in
    match projects_data !! proj_id with
    | Some proj => emit (Listed ("Project Details: " +:+ proj_id))
    | None => print_error ("Project '" +:+ proj_id +:+ "' not found.")
    end.

Definition project_add_command (projects_data : gmap string project)
    : M (gmap string project) :=
  pause_print "--- Add New Project ---";;
  new_proj_id ← (λ s, upper (strip s)) <$> prompt_input;
  if negb (nonempty new_proj_id) then
    print_error "Project ID cannot be empty.";; mret projects_data
  else if bool_decide (is_Some (projects_data !! new_proj_id)) then
    print_error ("Project ID '" +:+ new_proj_id +:+
                 "' already exists. Use 'projectedit' to modify.");;
    mret projects_data
  else
    name ← strip <$> prompt_input;
    desc ← strip <$> prompt_input;
    status ← (λ s, if nonempty (strip s) then strip s else "Active") <$> prompt_input;
    due_date ← (λ s, if nonempty (strip s) then strip s else "N/A") <$> prompt_input;
    let projects_data :=
      <[new_proj_id :=
          {| p_fields :=
               <["Name" := JStr name]>
               (<["Description" := JStr desc]>
               (<["Status" := JStr status]>
               (<["DueDate" := JStr due_date]> ∅)));
             p_tasks := Some [] |}]> projects_data in
    save_projects projects_data;;
    pause_print ("Project '" +:+ new_proj_id +:+ "' added successfully!");;
    mret projects_data.

(** [if new_value: proj[key] = new_value] *)
Definition edit_field (key new_value : string) (proj : project) : project :=
  if nonempty new_value then set_field proj key (JStr new_value) else proj.

Definition project_edit_command (projects_data : gmap string project)
    (project_id : string) : M (gmap string project) :=
  if negb (nonempty project_id) then
    print_error "Usage: projectedit <PROJECT_ID>";; mret projects_data
  else
    let proj_id := upper project_id in
    match projects_data !! proj_id with
    | Some proj =>
        pause_print ("--- Editing Project '" +:+ proj_id +:+ "' ---");;
        new_name ← strip <$> prompt_input;
        let proj := edit_field "Name" new_name proj in
        new_desc ← strip <$> prompt_input;
        let proj := edit_field "Description" new_desc proj in
        new_status ← strip <$> prompt_input;
        let proj := edit_field "Status" new_status proj in
        new_due_date ← strip <$> prompt_input;
        let proj := edit_field "DueDate" new_due_date proj in
        let projects_data := <[proj_id := proj]> projects_data in
        save_projects projects_data;;
        pause_print ("Project '" +:+ proj_id +:+ "' updated successfully!");;
        mret projects_data
    | None =>
        print_error ("Project '" +:+ proj_id +:+ "' not found.");;
        mret projects_data
    end.

Definition project_delete_command (projects_data : gmap string project)
    (project_id : string) : M (gmap string project) :=
  if negb (nonempty project_id) then
    print_error "Usage: projectdelete <PROJECT_ID>";; mret projects_data
  else
    let proj_id := upper project_id in
    match projects_data !! proj_id with
    | Some _ =>
        confirm ← lower <$> prompt_input;
        if String.eqb confirm "y" then
          let projects_data := delete proj_id projects_data in
          save_projects projects_data;;
          pause_print ("Project '" +:+ proj_id +:+ "' deleted.");;
          mret projects_data
        else
          pause_print "Deletion cancelled.";; mret projects_data
    | None =>
        print_error ("Project '" +:+ proj_id +:+ "' not found.");;
        mret projects_data
    end.

(** The loop of [task_add_command] that finds the highest numeric
    task id; a [TaskID] that is not a string has no [replace]. *)
Fixpoint max_task_id (max_id : Z) (tasks : list jobj) : res Z :=
  match tasks with
  | [] => Ok max_id
  | task :: rest =>
      match get_or task "TaskID" (JStr "T-0") with
      | JStr tid =>
          let tid_str := remove_T_dash tid in
          max_task_id
            (if isdigit tid_str then Z.max max_id (default 0%Z (py_int tid_str))
             else max_id) rest
      | _ => Raise AttributeError
      end
  end.

Definition lift_res {A : Type} (r : res A) : M A := fun w => (r, w, []).

Definition task_add_command (projects_data : gmap string project)
    (project_id : string) : M (gmap string project) :=
  if negb (nonempty project_id) then
    print_error "Usage: taskadd <PROJECT_ID>";; mret projects_data
  else
    let proj_id := upper project_id in
    match projects_data !! proj_id with
    | None =>
        print_error ("Project '" +:+ proj_id +:+ "' not found.");;
        mret projects_data
    | Some proj =>
        pause_print ("--- Add New Task to Project '" +:+ proj_id +:+ "' ---");;
        task_desc ← strip <$> prompt_input;
        if negb (nonempty task_desc) then
          print_error "Task description cannot be empty.";; mret projects_data
        else
          let tasks := get_tasks proj in
          next_task_id ←
            (if tasks is [] then mret 1%Z
             else max_id ← lift_res (max_task_id 0 tasks); mret (max_id + 1)%Z);
          let new_task_id := "T-" +:+ py_str next_task_id in
          assigned_to ← (λ s, upper (strip s)) <$> prompt_input;
          assigned_to ←
            (if nonempty assigned_to then
               known ← load_profiles;
               if bool_decide (is_Some (known !! assigned_to)) then mret assigned_to
               else
                 pause_print ("Warning: Profile '" +:+ assigned_to +:+
                              "' not found. Task will remain unassigned.");;
                 mret "Unassigned"
             else mret "Unassigned");
          let new_task : jobj :=
            <["TaskID" := JStr new_task_id]>
            (<["Description" := JStr task_desc]>
            (<["AssignedTo" := JStr assigned_to]>
            (<["Status" := JStr "Pending"]> ∅))) in
          match p_tasks proj with
          | None => raise KeyError
          | Some ts =>
              let projects_data :=
                <[proj_id := set_tasks proj (ts ++ [new_task])]> projects_data in
              save_projects projects_data;;
              pause_print ("Task '" +:+ new_task_id +:+ "' added to Project '" +:+
                           proj_id +:+ "' successfully!");;
              mret projects_data
          end
    end.

Definition allowed_statuses : list string := ["pending"; "in progress"; "complete"].

(** The task the loop of [task_update_command] stops at: the first one
    whose [TaskID] equals [task_id]. *)
Definition find_task (task_id : string) (tasks : list jobj) : option (nat * jobj) :=
  list_find (λ task, get task "TaskID" = JStr task_id) tasks.

Definition task_update_command (projects_data : gmap string project)
    (args_str : string) (profiles_data : gmap string jobj)
    : M (gmap string project) :=
  match split_space 3 args_str with
  | proj_id_raw :: task_id_raw :: update_type_raw :: more =>
      let update_type := lower update_type_raw in
      let value := if more is v :: _ then v else "" in
      let proj_id := upper proj_id_raw in
      let task_id := upper task_id_raw in
      match projects_data !! proj_id with
      | None =>
          print_error ("Project '" +:+ proj_id +:+ "' not found.");;
          mret projects_data
      | Some proj =>
          let project_tasks := get_tasks proj in
          match find_task task_id project_tasks with
          | Some (i, task) =>
              let commit (task' : jobj) : M (gmap string project) :=
                let projects_data :=
                  <[proj_id := set_tasks proj (<[i := task']> project_tasks)]>
                    projects_data in
                save_projects projects_data;; mret projects_data in
              if String.eqb update_type "status" then
                if bool_decide (lower value ∈ allowed_statuses) then
                  let task' := <["Status" := JStr (title value)]> task in
                  pause_print ("Task '" +:+ task_id +:+ "' status updated to '" +:+
                               title value +:+ "' in Project '" +:+ proj_id +:+ "'.");;
                  commit task'
                else
                  print_error "Invalid status. Use 'pending', 'in progress', or 'complete'.";;
                  mret projects_data
              else if String.eqb update_type "assigned" then
                if nonempty value &&
                   negb (bool_decide (is_Some (profiles_data !! upper value))) then
                  pause_print ("Warning: Profile '" +:+ value +:+
                               "' not found. Task will remain unassigned.");;
                  commit (<["AssignedTo" := JStr "Unassigned"]> task)
                else if negb (nonempty value) then
                  pause_print ("Task '" +:+ task_id +:+ "' unassigned in Project '" +:+
                               proj_id +:+ "'.");;
                  commit (<["AssignedTo" := JStr "Unassigned"]> task)
                else
                  pause_print ("Task '" +:+ task_id +:+ "' assigned to '" +:+
                               upper value +:+ "' in Project '" +:+ proj_id +:+ "'.");;
                  commit (<["AssignedTo" := JStr (upper value)]> task)
              else
                print_error "Invalid update type. Use 'status' or 'assigned'.";;
                mret projects_data
          | None =>
              print_error ("Task '" +:+ task_id +:+ "' not found in Project '" +:+
                           proj_id +:+ "'.");;
              mret projects_data
          end
      end
  | _ =>
      print_error "Usage: taskupdate <PROJECT_ID> <TASK_ID> <status|assigned> <VALUE>";;
      mret projects_data
  end.

Definition task_delete_command (projects_data : gmap string project)
    (args_str : string) : M (gmap string project) :=
  match split_space 1 args_str with
  | proj_id_raw :: task_id_raw :: _ =>
      let proj_id := upper proj_id_raw in
      let task_id := upper task_id_raw in
      match projects_data !! proj_id with
      | None =>
          print_error ("Project '" +:+ proj_id +:+ "' not found.");;
          mret projects_data
      | Some proj =>
          let tasks := get_tasks proj in
          let kept := filter (λ t, get t "TaskID" ≠ JStr task_id) tasks in
          let projects_data := <[proj_id := set_tasks proj kept]> projects_data in
          if bool_decide (length kept < length tasks) then
            save_projects projects_data;;
            pause_print ("Task '" +:+ task_id +:+ "' deleted from Project '" +:+
                         proj_id +:+ "'.");;
            mret projects_data
          else
            print_error ("Task '" +:+ task_id +:+ "' not found in Project '" +:+
                         proj_id +:+ "'.");;
            mret projects_data
      end
  | _ =>
      print_error "Usage: taskdelete <PROJECT_ID> <TASK_ID>";;
      mret projects_data
  end.

(** ** Export and import *)

Definition exn_name (e : exn) : string :=
  match e with
  | EOFError => "EOFError"
  | IOError => "OSError"
  | ValueError => "ValueError"
  | KeyError => "KeyError"
  | AttributeError => "AttributeError"
  end.

Definition export_all_data (profiles : gmap string jobj)
    (logs : gmap Z (list string)) (projects : gmap string project)
    (session_history : list jobj) : M unit :=
  export_filename ← strip <$> prompt_input;
  if negb (nonempty export_filename) then
    print_error "Export cancelled: No filename provided."
  else
    let logs_serializable := (λ kv, (py_str kv.1, kv.2)) <$> map_to_list logs in
    let all_data :=
      {| s_profiles := Some profiles; s_logs := Some logs_serializable;
         s_projects := Some projects;
         s_session_history := Some session_history |} in
    w ← get_world;
    if other_writable (fs w) export_filename then
      put_world (set_fs (put_other export_filename (ExtSnapshot all_data) (fs w)) w);;
      emit (Exported export_filename true);;
      pause_print ("All data exported to '" +:+ export_filename +:+ "' successfully!")
    else
      emit (Exported export_filename false);;
      print_error "Error exporting data: OSError".

(** One round of the profile loop and of the log loop: an id that
    exists locally is skipped, a new one is added. The two counters are
    [imported_counts] and [skipped_counts]. *)
Definition import_entry {K V : Type} `{Countable K}
    (acc : gmap K V * nat * nat) (kv : K * V) : gmap K V * nat * nat :=
  match acc.1.1 !! kv.1 with
  | Some _ => (acc.1.1, acc.1.2, S acc.2)
  | None => (<[kv.1 := kv.2]> acc.1.1, S acc.1.2, acc.2)
  end.

Definition import_entries {K V : Type} `{Countable K}
    (local : gmap K V) (entries : list (K * V)) : gmap K V * nat * nat :=
  foldl import_entry (local, 0, 0) entries.

(** The ordered dictionary [current_tasks_map]: keys in insertion order. *)
Abbreviation odict := (list (jval * jobj)).

Fixpoint od_get (k : jval) (d : odict) : option jobj :=
  match d with
  | [] => None
  | (k', v) :: rest => if decide (k = k') then Some v else od_get k rest
  end.

(** [d[k] = v]: an existing key keeps its place, a new key goes last. *)
Fixpoint od_set (k : jval) (v : jobj) (d : odict) : odict :=
  match d with
  | [] => [(k, v)]
  | (k', v') :: rest =>
      if decide (k = k') then (k, v) :: rest else (k', v') :: od_set k v rest
  end.

Definition od_values (d : odict) : list jobj := snd <$> d.

(** [{t.get("TaskID"): t for t in tasks}] *)
Definition tasks_map (tasks : list jobj) : odict :=
  foldl (λ d t, od_set (get t "TaskID") t d) [] tasks.

Record import_counts : Type := Counts {
  imported_projects : nat;
  skipped_projects : nat;
  tasks_updated_in_existing_projects : nat;
  tasks_added_to_existing_projects : nat
}.

(** One imported task of a project that exists locally. *)
Definition import_task (acc : odict * nat * nat) (imported_task : jobj)
    : odict * nat * nat :=
  let current_tasks_map := acc.1.1 in
  let imported_task_id := get imported_task "TaskID" in
  match (if truthy imported_task_id then od_get imported_task_id current_tasks_map
         else None) with
  | Some current =>
      (od_set imported_task_id (update current imported_task) current_tasks_map,
       S acc.1.2, acc.2)
  | None =>
      (od_set imported_task_id imported_task current_tasks_map,
       acc.1.2, S acc.2)
  end.

(** One round of the project loop. *)
Definition import_project (acc : gmap string project * import_counts)
    (kv : string * project) : gmap string project * import_counts :=
  let projects := acc.1 in
  let c := acc.2 in
  let project_id := kv.1 in
  let project_info := kv.2 in
  match projects !! project_id with
  | Some local =>
      let r := foldl import_task
                 (tasks_map (get_tasks local),
                  tasks_updated_in_existing_projects c,
                  tasks_added_to_existing_projects c)
                 (get_tasks project_info) in
      (<[project_id := set_tasks local (od_values r.1.1)]> projects,
       {| imported_projects := imported_projects c;
          skipped_projects := S (skipped_projects c);
          tasks_updated_in_existing_projects := r.1.2;
          tasks_added_to_existing_projects := r.2 |})
  | None =>
      (<[project_id := project_info]> projects,
       {| imported_projects := S (imported_projects c);
          skipped_projects := skipped_projects c;
          tasks_updated_in_existing_projects := tasks_updated_in_existing_projects c;
          tasks_added_to_existing_projects := tasks_added_to_existing_projects c |})
  end.

Definition import_projects (projects imported : gmap string project)
    : gmap string project * import_counts :=
  foldl import_project (projects, Counts 0 0 0 0) (map_to_list imported).

(** One round of the history loop: appended unless already there. *)
Definition import_history_entry (acc : list jobj * nat) (entry : jobj)
    : list jobj * nat :=
  if bool_decide (entry ∈ acc.1) then acc else (acc.1 ++ [entry], S acc.2).

Definition import_history (current imported : list jobj) : list jobj * nat :=
  foldl import_history_entry (current, 0) imported.

(** The handler of the [try] block of [import_all_data]; the collections
    keep what the block had done to them when the exception came. *)
Definition import_guard (m : mem) (body : M mem) : M mem :=
  try_except body
    (λ e, print_error ("An unexpected error occurred during import: " +:+
                       exn_name e);;
          mret m).

(** The last two stages of the import: projects, then session history.
    The progress lines printed per entry are left out; the summary lines
    carry the counts. *)
Definition import_projects_stage (m : mem) (imported_data : snapshot) : M mem :=
  let r := import_projects (projects m) (default ∅ (s_projects imported_data)) in
  let m := {| stories := stories m; profiles := profiles m; projects := r.1 |} in
  import_guard m (
    save_projects (projects m);;
    pause_print (pretty (imported_projects r.2) +:+ " project(s) imported (new), " +:+
                 pretty (skipped_projects r.2) +:+
                 " skipped (project already existed).");;
    (if bool_decide (0 < tasks_added_to_existing_projects r.2 ∨
                     0 < tasks_updated_in_existing_projects r.2) then
       pause_print ("  Within existing projects: " +:+
                    pretty (tasks_added_to_existing_projects r.2) +:+
                    " tasks added, " +:+
                    pretty (tasks_updated_in_existing_projects r.2) +:+
                    " tasks updated.")
     else mret tt);;
    current_session_history ← load_session_history;
    let h := import_history current_session_history
               (default [] (s_session_history imported_data)) in
    save_session_history h.1;;
    pause_print (pretty h.2 +:+ " session history entry(ies) imported.");;
    pause_print "Data import process finished!";;
    mret m).

Definition import_logs_stage (m : mem) (imported_data : snapshot) : M mem :=
  import_guard m (
    match int_keys (default [] (s_logs imported_data)) ∅ with
    | None => raise ValueError
    | Some imported_logs_int_keys =>
        let r := import_entries (stories m) (map_to_list imported_logs_int_keys) in
        let m := {| stories := r.1.1; profiles := profiles m;
                    projects := projects m |} in
        import_guard m (
          save_logs (stories m);;
          pause_print (pretty r.1.2 +:+ " log(s) imported, " +:+
                       pretty r.2 +:+ " skipped.");;
          import_projects_stage m imported_data)
    end).

Definition import_profiles_stage (m : mem) (imported_data : snapshot) : M mem :=
  let r := import_entries (profiles m)
             (map_to_list (default ∅ (s_profiles imported_data))) in
  let m := {| stories := stories m; profiles := r.1.1; projects := projects m |} in
  import_guard m (
    save_profiles (profiles m);;
    pause_print (pretty r.1.2 +:+ " profile(s) imported, " +:+
                 pretty r.2 +:+ " skipped.");;
    import_logs_stage m imported_data).

(** [import_all_data]: the collections are changed in place, so the
    result is the three of them as the call leaves them. *)
Definition import_all_data (profiles : gmap string jobj)
    (logs : gmap Z (list string)) (projects : gmap string project)
    (session_history : list jobj) : M mem :=
  let m := {| stories := logs; profiles := profiles; projects := projects |} in
  import_filename ← strip <$> prompt_input;
  if negb (nonempty import_filename) then
    print_error "Import cancelled: No filename provided.";; mret m
  else
    w ← get_world;
    match other_files (fs w) !! import_filename with
    | None =>
        print_error ("File '" +:+ import_filename +:+ "' not found.");; mret m
    | Some (ExtSnapshot imported_data) => import_profiles_stage m imported_data
    | Some _ =>
        print_error ("Error reading " +:+ import_filename +:+
                     ". File might be corrupted or not a valid JSON.");;
        mret m
    end.

(** ** The command loop of [main] *)

(** What an iteration of [while True] leads to: the next iteration with
    the collections as they are now, [return], or [os.execv]. *)
Inductive ctl : Type :=
| Continue (m : mem)
| Return
| Execv.

Definition allowed_guest_commands : list string :=
  ["login"; "help"; "clear"; "exit"; "hyprctl dispatch exit"; "importdata"].

(** Truthiness of the global [current_platecore_id]. *)
Definition logged_in (w : world) : bool :=
  if current_platecore_id w is Some u then nonempty u else false.

(** [current_platecore_id if current_platecore_id else "UNKNOWN"] *)
Definition user_or_unknown (w : world) : string :=
  match current_platecore_id w with
  | Some u => if nonempty u then u else "UNKNOWN"
  | None => "UNKNOWN"
  end.

Definition set_stories (s : gmap Z (list string)) (m : mem) : mem :=
  {| stories := s; profiles := profiles m; projects := projects m |}.

Definition set_profiles (p : gmap string jobj) (m : mem) : mem :=
  {| stories := stories m; profiles := p; projects := projects m |}.

Definition set_projects (p : gmap string project) (m : mem) : mem :=
  {| stories := stories m; profiles := profiles m; projects := p |}.

Definition main_login : M unit :=
  w ← get_world;
  if logged_in w then
    pause_print ("You are already logged in as " +:+ user_or_unknown w +:+
                 ". Type 'logout' to switch users.")
  else
    pause_print "Insert PlateCore Interactive ID:";;
    platecore_id_input ← prompt_input;
    pause_print "Password:";;
    password_input ← prompt_getpass;
    if String.eqb platecore_id_input "demoplate" && String.eqb password_input "245225" then
      pause_print "Access Granted";;
      mark_logged_in platecore_id_input;;
      t ← now;
      modify (set_current_session_start_time t);;
      record_session_event platecore_id_input "Login Success" t None
    else
      print_error "Access Denied.";;
      t1 ← now;
      t2 ← now;
      record_session_event
        (if nonempty platecore_id_input then platecore_id_input else "UNKNOWN")
        "Login Denied" t1 (Some t2).

Definition main_logout : M unit :=
  w ← get_world;
  if logged_in w then
    pause_print ("Logging out from " +:+ user_or_unknown w +:+ "...");;
    t ← now;
    record_session_event (user_or_unknown w) "Logout"
      (current_session_start_time w) (Some t);;
    clear_session;;
    pause_print "Logged out successfully. Type 'login' to log back in."
  else pause_print "You are not currently logged in.".

Definition main_logbook (arg : string) (m : mem) : M unit :=
  if negb (nonempty arg) then print_error "Usage: logbook <ID>"
  else
    match py_int arg with
    | Some logbook_id =>
        match stories m !! logbook_id with
        | Some _ => emit (Listed ("Logbook Entry " +:+ py_str logbook_id))
        | None => print_error "No logbook found with that ID."
        end
    | None => print_error "Invalid logbook ID. Please enter a number."
    end.

Definition main_loglist (m : mem) : M unit :=
  pause_print "Available Logbook Entries:";;
  if bool_decide (stories m = ∅) then pause_print "No log entries found."
  else emit (Listed "log dates").

(** The [while True] that reads lines up to the terminator [END]:
    the lines read and the input left, or [None] at end of input. *)
Fixpoint read_lines (input : list string) : option (list string * list string) :=
  match input with
  | [] => None
  | l :: rest =>
      let line := strip l in
      if String.eqb (upper line) "END" then Some ([], rest)
      else (λ r : list string * list string, (line :: r.1, r.2)) <$> read_lines rest
  end.

Definition read_entry_lines : M (list string) := fun w =>
  match read_lines (stdin w) with
  | Some (entry_lines, rest) => (Ok entry_lines, set_stdin rest w, [])
  | None => (Raise EOFError, set_stdin [] w, [])
  end.

(** [max(keys)] of a non-empty collection of keys *)
Definition py_max (keys : list Z) : option Z :=
  match keys with
  | [] => None
  | k :: rest => Some (foldl Z.max k rest)
  end.

(** [max(stories.keys()) + 1 if stories else 1] *)
Definition next_log_id (stories : gmap Z (list string)) : Z :=
  match py_max (map_to_list stories).*1 with
  | Some m => (m + 1)%Z
  | None => 1%Z
  end.

Definition dated (date line : string) : string :=
  date +:+ " " +:+ EM_DASH +:+ " " +:+ line.

Definition main_newlog (m : mem) : M mem :=
  pause_print "--- New Log Entry ---";;
  pause_print "Enter your log entry (type 'END' on a new line to finish):";;
  entry_lines ← read_entry_lines;
  match entry_lines with
  | [] => print_error "Log entry cancelled (no content).";; mret m
  | first :: others =>
      let next_id := next_log_id (stories m) in
      current_date_str ← strftime_date <$> now;
      let entry_lines :=
        if contains EM_DASH first then first :: others
        else dated current_date_str first :: others in
      let stories := <[next_id := entry_lines]> (stories m) in
      pause_print ("Log Entry " +:+ py_str next_id +:+ " saved successfully!");;
      save_logs stories;;
      mret (set_stories stories m)
  end.

(** [s.split(sep, 1)[0]]: the text before the first [sep]. *)
Fixpoint before (sep s : string) : string :=
  if String.prefix sep s then EmptyString
  else match s with
       | EmptyString => EmptyString
       | String c r => String c (before sep r)
       end.

Definition date_keywords : list string :=
  ["Jan"; "Feb"; "Mar"; "Apr"; "May"; "Jun"; "Jul"; "Aug"; "Sep"; "Oct";
   "Nov"; "Dec"; EM_DASH].

Definition main_editlog (arg : string) (m : mem) : M mem :=
  if negb (nonempty arg) then print_error "Usage: editlog <ID>";; mret m
  else
    match py_int arg with
    | None => print_error "Invalid log ID. Please enter a number.";; mret m
    | Some log_id_to_edit =>
        match stories m !! log_id_to_edit with
        | Some original =>
            pause_print ("--- Editing Log Entry " +:+ py_str log_id_to_edit +:+ " ---");;
            emit (Listed "Current Content:");;
            pause_print "Enter new content (type 'END' on a new line to finish):";;
            new_entry_lines ← read_entry_lines;
            match new_entry_lines with
            | [] =>
                print_error "No new content entered. Log entry not updated.";;
                mret m
            | first :: others =>
                first ←
                  match original with
                  | original_first_line :: _ =>
                      if contains EM_DASH original_first_line then
                        let date_part := strip (before EM_DASH original_first_line) in
                        if existsb (λ keyword, contains keyword first) date_keywords
                        then mret first
                        else mret (dated date_part first)
                      else
                        current_date_str ← strftime_date <$> now;
                        mret (dated current_date_str first)
                  | [] =>
                      current_date_str ← strftime_date <$> now;
                      mret (dated current_date_str first)
                  end;
                let stories := <[log_id_to_edit := first :: others]> (stories m) in
                save_logs stories;;
                pause_print ("Log Entry " +:+ py_str log_id_to_edit +:+
                             " updated successfully!");;
                mret (set_stories stories m)
            end
        | None =>
            print_error "No logbook found with that ID to edit.";; mret m
        end
    end.

Definition main_deletelog (arg : string) (m : mem) : M mem :=
  if negb (nonempty arg) then print_error "Usage: deletelog <ID>";; mret m
  else
    match py_int arg with
    | None => print_error "Invalid log ID. Please enter a number.";; mret m
    | Some log_id_to_delete =>
        match stories m !! log_id_to_delete with
        | Some _ =>
            confirm_id ← strip <$> prompt_input;
            if String.eqb confirm_id (py_str log_id_to_delete) then
              let stories := delete log_id_to_delete (stories m) in
              pause_print ("Log Entry " +:+ py_str log_id_to_delete +:+ " deleted.");;
              save_logs stories;;
              mret (set_stories stories m)
            else
              pause_print "Deletion cancelled (IDs did not match).";; mret m
        | None =>
            print_error "No logbook found with that ID to delete.";; mret m
        end
    end.

Definition main_exportlogs (m : mem) : M unit :=
  if bool_decide (stories m = ∅) then pause_print "No log entries to export."
  else
    export_filename ← strip <$> prompt_input;
    if negb (nonempty export_filename) then
      print_error "Export cancelled: No filename provided."
    else
      w ← get_world;
      if other_writable (fs w) export_filename then
        put_world (set_fs (put_other export_filename (ExtLogText (stories m)) (fs w)) w);;
        emit (Exported export_filename true);;
        pause_print ("All log entries exported to '" +:+ export_filename +:+
                     "' successfully!")
      else
        emit (Exported export_filename false);;
        print_error "Error exporting logs: OSError".

Definition main_profileslist (m : mem) : M unit :=
  if bool_decide (profiles m = ∅) then pause_print "No profiles found."
  else emit (Listed "Available Profile IDs:").

Definition main_profilesview (arg : string) (m : mem) : M unit :=
  let profile_id := upper (strip arg) in
  if nonempty profile_id then
    match profiles m !! profile_id with
    | Some _ => emit (Listed ("Profile " +:+ profile_id))
    | None => print_error ("Profile '" +:+ profile_id +:+ "' not found.")
    end
  else print_error "Usage: profilesview <ID>".

Definition or_na (s : string) : jval := JStr (if nonempty s then s else "N/A").

Definition main_profilesadd (m : mem) : M mem :=
  pause_print "--- Add New Profile ---";;
  new_id ← (λ s, upper (strip s)) <$> prompt_input;
  if negb (nonempty new_id) then
    print_error "Profile ID cannot be empty.";; mret m
  else if bool_decide (is_Some (profiles m !! new_id)) then
    print_error ("Profile ID '" +:+ new_id +:+
                 "' already exists. Use 'profilesedit <ID>' to modify.");;
    mret m
  else
    new_name ← strip <$> prompt_input;
    new_role ← strip <$> prompt_input;
    new_ic ← strip <$> prompt_input;
    new_pn ← strip <$> prompt_input;
    new_cb_input ← strip <$> prompt_input;
    new_cb ←
      (if nonempty new_cb_input then
         match py_int new_cb_input with
         | Some n => mret (JInt n)
         | None =>
             print_error "Invalid input for CB. Please enter a number. Storing as 'N/A'.";;
             mret (JStr "N/A")
         end
       else mret (JStr "N/A"));
    let profiles :=
      <[new_id :=
          <["Name" := or_na new_name]>
          (<["ID" := JStr new_id]>
          (<["Role" := or_na new_role]>
          (<["IC" := or_na new_ic]>
          (<["PN" := or_na new_pn]>
          (<["CB" := new_cb]> ∅)))))]> (profiles m) in
    pause_print ("Profile '" +:+ new_id +:+ "' added successfully!");;
    save_profiles profiles;;
    mret (set_profiles profiles m).

(** [if new_value: current_profile[key] = new_value] *)
Definition edit_key (key new_value : string) (current_profile : jobj) : jobj :=
  if nonempty new_value then <[key := JStr new_value]> current_profile
  else current_profile.

Definition main_profilesedit (arg : string) (m : mem) : M mem :=
  let profile_id_to_edit := upper (strip arg) in
  if nonempty profile_id_to_edit then
    match profiles m !! profile_id_to_edit with
    | Some current_profile =>
        pause_print ("--- Editing Profile '" +:+ profile_id_to_edit +:+ "' ---");;
        new_value ← strip <$> prompt_input;
        let current_profile := edit_key "Name" new_value current_profile in
        new_value ← strip <$> prompt_input;
        let current_profile := edit_key "Role" new_value current_profile in
        new_value ← strip <$> prompt_input;
        let current_profile := edit_key "IC" new_value current_profile in
        new_value ← strip <$> prompt_input;
        let current_profile := edit_key "PN" new_value current_profile in
        new_cb_input ← strip <$> prompt_input;
        current_profile ←
          (if nonempty new_cb_input then
             match py_int new_cb_input with
             | Some n => mret (<["CB" := JInt n]> current_profile)
             | None =>
                 print_error "Invalid input for CB. Please enter a number. CB not updated.";;
                 mret current_profile
             end
           else mret current_profile);
        let profiles := <[profile_id_to_edit := current_profile]> (profiles m) in
        pause_print ("Profile '" +:+ profile_id_to_edit +:+ "' updated successfully!");;
        save_profiles profiles;;
        mret (set_profiles profiles m)
    | None =>
        print_error ("Profile '" +:+ profile_id_to_edit +:+ "' not found.");;
        mret m
    end
  else print_error "Usage: profilesedit <ID>";; mret m.

Definition main_profilesdelete (arg : string) (m : mem) : M mem :=
  let profile_id_to_delete := upper (strip arg) in
  if nonempty profile_id_to_delete then
    match profiles m !! profile_id_to_delete with
    | Some _ =>
        confirm ← lower <$> prompt_input;
        if String.eqb confirm "y" then
          let profiles := delete profile_id_to_delete (profiles m) in
          pause_print ("Profile '" +:+ profile_id_to_delete +:+ "' deleted.");;
          save_profiles profiles;;
          mret (set_profiles profiles m)
        else pause_print "Deletion cancelled.";; mret m
    | None =>
        print_error ("Profile '" +:+ profile_id_to_delete +:+ "' not found.");;
        mret m
    end
  else print_error "Usage: profilesdelete <ID>";; mret m.

(** [search_keyword in profile_data.get(key, "").lower()]: a field that
    is not a string has no [lower]. *)
Definition field_has (search_keyword key : string) (profile_data : jobj) : res bool :=
  match get_or profile_data key (JStr "") with
  | JStr s => Ok (contains search_keyword (lower s))
  | _ => Raise AttributeError
  end.

(** The [or] chain of [searchprofile], evaluated left to right. *)
Fixpoint any_field (search_keyword : string) (keys : list string)
    (profile_data : jobj) : res bool :=
  match keys with
  | [] =>
      Ok (contains search_keyword
            (lower (show_jval (get_or profile_data "CB" (JStr "")))))
  | key :: rest =>
      match field_has search_keyword key profile_data with
      | Ok true => Ok true
      | Ok false => any_field search_keyword rest profile_data
      | Raise e => Raise e
      end
  end.

Fixpoint search_profiles (search_keyword : string)
    (items : list (string * jobj)) : res (list string) :=
  match items with
  | [] => Ok []
  | (pid, profile_data) :: rest =>
      match any_field search_keyword ["Name"; "Role"; "IC"; "PN"] profile_data with
      | Ok hit =>
          match search_profiles search_keyword rest with
          | Ok found => Ok (if hit then pid :: found else found)
          | Raise e => Raise e
          end
      | Raise e => Raise e
      end
  end.

Definition main_searchprofile (arg : string) (m : mem) : M unit :=
  let search_keyword := lower (strip arg) in
  if negb (nonempty search_keyword) then print_error "Usage: searchprofile <KEYWORD>"
  else
    found_profiles ← lift_res (search_profiles search_keyword (map_to_list (profiles m)));
    if found_profiles is [] then
      pause_print ("No profiles found matching '" +:+ search_keyword +:+ "'.")
    else emit (Listed ("Profiles matching '" +:+ search_keyword +:+ "':")).

Definition main_taskadd (arg : string) (m : mem) : M mem :=
  match split_space 1 arg with
  | first :: _ =>
      let proj_id_for_task := upper first in
      projects ← task_add_command (projects m) proj_id_for_task;
      mret (set_projects projects m)
  | [] => print_error "Usage: taskadd <PROJECT_ID>";; mret m
  end.

Definition main_importdata (m : mem) : M mem :=
  session_history ← load_session_history;
  import_all_data (profiles m) (stories m) (projects m) session_history;;
  profiles ← load_profiles;
  stories ← load_logs;
  projects ← load_projects;
  mret {| stories := stories; profiles := profiles; projects := projects |}.

Definition main_clear : M unit :=
  emit ScreenCleared;;
  print "PLATECORE";;
  pause_print "Type 'login' to log in or 'help' for available commands.".

Definition who_am_i_command : M unit :=
  w ← get_world;
  (if logged_in w then mret tt
   else
     user ← get_logged_in_user;
     modify (set_current_platecore_id user));;
  pause_print "Current Session Information:";;
  w ← get_world;
  print ("  PlateCore ID: " +:+
         (if logged_in w then user_or_unknown w else "Not Logged In"));;
  _ ← now;
  emit (Listed "time and location").

(** The end of a session by [exit] and by the restart command. *)
Definition end_session (event_type : string) : M unit :=
  w ← get_world;
  t ← now;
  record_session_event (user_or_unknown w) event_type
    (current_session_start_time w) (Some t);;
  clear_session.

Definition continue_with (m : mem) (c : M unit) : M ctl := c;; mret (Continue m).

(** The [elif] chain on [base_command], in source order. *)
Definition commands : list (string * (string -> mem -> M ctl)) :=
  [ ("login", λ _ m, continue_with m main_login);
    ("logout", λ _ m, continue_with m main_logout);
    ("logbook", λ arg m, continue_with m (main_logbook arg m));
    ("loglist", λ _ m, continue_with m (main_loglist m));
    ("newlog", λ _ m, Continue <$> main_newlog m);
    ("editlog", λ arg m, Continue <$> main_editlog arg m);
    ("deletelog", λ arg m, Continue <$> main_deletelog arg m);
    ("exportlogs", λ _ m, continue_with m (main_exportlogs m));
    ("profileslist", λ _ m, continue_with m (main_profileslist m));
    ("profilesview", λ arg m, continue_with m (main_profilesview arg m));
    ("profilesadd", λ _ m, Continue <$> main_profilesadd m);
    ("profilesedit", λ arg m, Continue <$> main_profilesedit arg m);
    ("profilesdelete", λ arg m, Continue <$> main_profilesdelete arg m);
    ("searchprofile", λ arg m, continue_with m (main_searchprofile arg m));
    ("projectslist", λ _ m, continue_with m (projects_list_command (projects m)));
    ("projectview", λ arg m, continue_with m (project_view_command (projects m) arg));
    ("projectadd", λ _ m,
       p ← project_add_command (projects m); mret (Continue (set_projects p m)));
    ("projectedit", λ arg m,
       p ← project_edit_command (projects m) arg; mret (Continue (set_projects p m)));
    ("projectdelete", λ arg m,
       p ← project_delete_command (projects m) arg; mret (Continue (set_projects p m)));
    ("taskadd", λ arg m, Continue <$> main_taskadd arg m);
    ("taskupdate", λ arg m,
       p ← task_update_command (projects m) arg (profiles m);
       mret (Continue (set_projects p m)));
    ("taskdelete", λ arg m,
       p ← task_delete_command (projects m) arg; mret (Continue (set_projects p m)));
    ("exportdata", λ _ m,
       session_history ← load_session_history;
       continue_with m
         (export_all_data (profiles m) (stories m) (projects m) session_history));
    ("importdata", λ _ m, Continue <$> main_importdata m);
    ("clear", λ _ m, continue_with m main_clear);
    ("whoami", λ _ m, continue_with m who_am_i_command);
    ("history", λ _ m, continue_with m show_session_history);
    ("help", λ arg m, continue_with m (emit (HelpShown arg)));
    ("exit", λ _ m,
       pause_print "Exiting session...";; end_session "Exit";; mret Return) ].

(** The first branch of the chain whose command name matches. *)
Fixpoint find_command (base_command : string)
    (table : list (string * (string -> mem -> M ctl)))
    : option (string -> mem -> M ctl) :=
  match table with
  | [] => None
  | (name, handler) :: rest =>
      if String.eqb base_command name then Some handler
      else find_command base_command rest
  end.

(** [command_raw.lower().split(" ", 1)] *)
Definition command_parts (command_raw : string) : string * string :=
  match split_space 1 (lower command_raw) with
  | base_command :: arg :: _ => (base_command, arg)
  | [base_command] => (base_command, "")
  | [] => ("", "")
  end.

Definition base_command (command_raw : string) : string := (command_parts command_raw).1.
Definition arg (command_raw : string) : string := (command_parts command_raw).2.

(** The part of an iteration after the line is read and stripped. *)
Definition dispatch (command_raw : string) (m : mem) : M ctl :=
  let base_command := base_command command_raw in
  let arg := arg command_raw in
  w ← get_world;
  if negb (logged_in w) && negb (bool_decide (base_command ∈ allowed_guest_commands)) then
    print_error ("Command '" +:+ base_command +:+
                 "' needs privileges. Please 'login' first.");;
    mret (Continue m)
  else
    match find_command base_command commands with
    | Some handler => handler arg m
    | None =>
        if String.eqb command_raw "hyprctl dispatch exit" then
          pause_print "Restarting... Please wait for the new prompt.";;
          end_session "Restart";;
          mret Execv
        else
          print_error ("'" +:+ command_raw +:+
                       "' is not recognized as an internal or external command,");;
          print_error "operable program or batch file.";;
          mret (Continue m)
    end.

(** One iteration of [while True]. *)
Definition iteration (m : mem) : M ctl :=
  command_raw ← strip <$> prompt_input;
  dispatch command_raw m.

(** How [main] ends: by [return] from the loop, by [os.execv], or by the
    [except] clause after an exception. *)
Inductive ending : Type :=
| Exited
| Restarted
| ErrorExited.

(** The loop, with fuel; [None] when the fuel runs out. Every iteration
    reads a line, so one more than the length of the input is enough. *)
Fixpoint loop (fuel : nat) (m : mem) : M (option ending) :=
  match fuel with
  | O => mret None
  | S fuel =>
      c ← iteration m;
      match c with
      | Continue m => loop fuel m
      | Return => mret (Some Exited)
      | Execv => mret (Some Restarted)
      end
  end.

(** The [except Exception] clause of [main]. *)
Definition error_exit (e : exn) : M (option ending) :=
  print_error ("An unexpected error occurred: " +:+ exn_name e);;
  w ← get_world;
  t ← now;
  record_session_event (user_or_unknown w) "Error Exit"
    (current_session_start_time w) (Some t);;
  mret (Some ErrorExited).

(** [try: while True: ... except Exception as e: ...] *)
Definition main_try (fuel : nat) (m : mem) : M (option ending) :=
  try_except (loop fuel m) error_exit.

Definition seed_stories : gmap Z (list string) :=
  <[1%Z := [dated "March 12, 2025" "Mia smiled at me during the group work.";
            "She looked shy but happy."]]>
  (<[2%Z := [dated "March 20, 2025" "Helped someone with their book.";
             "They said thank thank you with a smile."]]>
  (<[3%Z := [dated "April 5, 2025" "The class clapped when I sat down.";
             "Felt like a main character moment."]]> ∅)).

Definition seed_profile : jobj :=
  <["Name" := JStr "Zaheerul Islam"]>
  (<["ID" := JStr "Z-1"]>
  (<["Role" := JStr "Creator of this log system"]>
  (<["IC" := JStr "N/A"]>
  (<["PN" := JStr "N/A"]>
  (<["CB" := JInt 12345]> ∅))))).

Definition seed_task (id desc assigned status : string) : jobj :=
  <["TaskID" := JStr id]>
  (<["Description" := JStr desc]>
  (<["AssignedTo" := JStr assigned]>
  (<["Status" := JStr status]> ∅))).

Definition seed_project : project :=
  {| p_fields :=
       <["Name" := JStr "Phase 1: Terminal UI Overhaul"]>
       (<["Description" :=
            JStr "Improve the user interface and add core corporate functionalities."]>
       (<["Status" := JStr "Active"]>
       (<["DueDate" := JStr "2025-08-15"]> ∅)));
     p_tasks :=
       Some [seed_task "T-1" "Implement Project Management Module" "Z-1" "In Progress";
             seed_task "T-2" "Design new splash screen" "Unassigned" "Pending";
             seed_task "T-3" "Integrate user roles and permissions" "Z-1" "Pending"] |}.

(** The start of [main], up to the [try]. *)
Definition startup : M mem :=
  emit ScreenCleared;;
  print "PLATECORE";;
  pause_print "Type 'login' to log in or 'help' for available commands.";;
  t ← now;
  modify (set_current_session_start_time t);;
  user ← get_logged_in_user;
  modify (set_current_platecore_id user);;
  w ← get_world;
  (if logged_in w then
     pause_print ("Session found. Logged in as " +:+ user_or_unknown w +:+ ".");;
     record_session_event (user_or_unknown w) "Session Resumed" t None
   else mret tt);;
  stories ← load_logs;
  profiles ← load_profiles;
  projects ← load_projects;
  stories ←
    (if bool_decide (stories = ∅) then save_logs seed_stories;; mret seed_stories
     else mret stories);
  profiles ←
    (if bool_decide (profiles = ∅) then
       let profiles := <["Z-1" := seed_profile]> profiles in
       save_profiles profiles;; mret profiles
     else mret profiles);
  projects ←
    (if bool_decide (projects = ∅) then
       let projects := <["PROJ-001" := seed_project]> projects in
       save_projects projects;; mret projects
     else mret projects);
  mret {| stories := stories; profiles := profiles; projects := projects |}.

Definition main (fuel : nat) : M (option ending) :=
  m ← startup;
  main_try fuel m.

(** Running a computation: result, final world, trace. *)
Definition run {A : Type} (c : M A) (w : world) : res A * world * list event := c w.
Definition result {A : Type} (c : M A) (w : world) : res A := (c w).1.1.
Definition final {A : Type} (c : M A) (w : world) : world := (c w).1.2.
Definition trace {A : Type} (c : M A) (w : world) : list event := (c w).2.

(** ** Vocabulary of the properties *)

(** What [load_json_file] returns for a file state, and the warning it
    prints. *)
Definition contents {A : Type} (c : fstate A) (default_data : A) : A :=
  match c with
  | Content a => a
  | _ => default_data
  end.

Definition corrupt_warning {A : Type} (filepath : store) (c : fstate A) : list event :=
  match c with
  | Corrupt => [Err ("Error reading " +:+ file_name filepath +:+
                     ". File might be corrupted. Starting with default data.")]
  | _ => []
  end.

Definition write_error (filepath : store) : event :=
  Err ("Error: Could not write to " +:+ file_name filepath +:+
       ". Check permissions or disk space.").

(** The session history as [load_session_history] reads it. *)
Definition history_on_disk (f : files) : list jobj :=
  contents (session_history_json f) [].

(** A failed store save. *)
Definition failed_save (e : event) : Prop :=
  ∃ filepath data, e = Saved filepath data false.

(** A computation on which a failed save is fatal: the [IOError] leaves
    it, the failed save and its error line end the trace, and no save
    failed before. *)
Definition fatal_at {A : Type} (c : M A) (w : world) : Prop :=
  ∀ f d, Saved f d false ∈ trace c w →
    result c w = Raise IOError ∧
    ∃ pre, trace c w = pre ++ [Saved f d false; write_error f] ∧
           ∀ e, e ∈ pre → ¬ failed_save e.

Definition fatal {A : Type} (c : M A) : Prop := ∀ w, fatal_at c w.

(** The dispatcher as the specification words it: the argument tail is
    the raw remainder of the line. *)
Definition raw_tail_delivered : Prop :=
  ∀ cmd tail : string,
    contains " " cmd = false → arg (cmd +:+ " " +:+ tail) = tail.

(** Save failures as the specification words them: whenever an iteration
    of the loop meets a failed save, an exception leaves the iteration. *)
Definition save_failures_fatal : Prop :=
  ∀ (m : mem) (w : world) (e : event),
    e ∈ trace (iteration m) w → failed_save e →
    ∃ x, result (iteration m) w = Raise x.

(** The [TaskID]s of a task list. *)
Definition task_ids (tasks : list jobj) : list jval := (λ t, get t "TaskID") <$> tasks.

(** The task list the import leaves in a project that exists locally. *)
Definition merge_tasks (local imported : list jobj) : list jobj :=
  od_values (foldl import_task (tasks_map local, 0, 0) imported).1.1.

(** Every value of the ordered dictionary sits under its own [TaskID]. *)
Definition keyed (d : odict) : Prop := ∀ k v, (k, v) ∈ d → get v "TaskID" = k.

(** The value under the id of an imported task once the task is
    processed: the update of the current one, or the task itself. *)
Definition merged (current : option jobj) (imported_task : jobj) : jobj :=
  match (if truthy (get imported_task "TaskID") then current else None) with
  | Some c => update c imported_task
  | None => imported_task
  end.

(** What the project loop leaves under the id of an imported project. *)
Definition import_one (local : option project) (imported : project) : project :=
  match local with
  | Some pl => set_tasks pl (merge_tasks (get_tasks pl) (get_tasks imported))
  | None => imported
  end.

(** One imported task, counters left out. *)
Definition import_task_map (d : odict) (imported_task : jobj) : odict :=
  (import_task (d, 0, 0) imported_task).1.1.

(** A task under its own id. *)
Definition entry_of (t : jobj) : jval * jobj := (get t "TaskID", t).

(** Every project of a snapshot carries a task list with pairwise
    distinct [TaskID]s. *)
Definition distinct_task_ids (imported : gmap string project) : Prop :=
  ∀ pid p, imported !! pid = Some p →
    ∃ tasks, p_tasks p = Some tasks ∧ NoDup (task_ids tasks).

(** The collections and the files as the [try] block of the import
    leaves them: each stage merges in memory and then saves, and the
    first failure (a store that cannot be written, a log key that is not
    an integer) ends the block. *)
Definition import_outcome (m : mem) (f : files) (imported_data : snapshot)
    : mem * files :=
  let m1 :=
    set_profiles
      (import_entries (profiles m)
         (map_to_list (default ∅ (s_profiles imported_data)))).1.1 m in
  if negb (writable f PROFILES_FILE)
  then (m1, failed_write PROFILES_FILE (DProfiles (profiles m1)) f) else
  let f1 := put_data (DProfiles (profiles m1)) f in
  match int_keys (default [] (s_logs imported_data)) ∅ with
  | None => (m1, f1)
  | Some imported_logs_int_keys =>
      let m2 :=
        set_stories
          (import_entries (stories m1) (map_to_list imported_logs_int_keys)).1.1 m1 in
      if negb (writable f LOGS_FILE)
      then (m2, failed_write LOGS_FILE (DLogs (stories m2)) f1) else
      let f2 := put_data (DLogs (stories m2)) f1 in
      let m3 :=
        set_projects
          (import_projects (projects m2)
             (default ∅ (s_projects imported_data))).1 m2 in
      if negb (writable f PROJECTS_FILE)
      then (m3, failed_write PROJECTS_FILE (DProjects (projects m3)) f2) else
      let f3 := put_data (DProjects (projects m3)) f2 in
      let h := (import_history (history_on_disk f3)
                  (default [] (s_session_history imported_data))).1 in
      if negb (writable f SESSION_HISTORY_FILE)
      then (m3, failed_write SESSION_HISTORY_FILE (DHistory h) f3)
      else (m3, put_data (DHistory h) f3)
  end.

(** The merge precedence as the specification words it, for one call of
    the import. *)
Definition merge_precedence (ps : gmap string jobj) (logs : gmap Z (list string))
    (pjs : gmap string project) (hist : list jobj) (w : world) : Prop :=
  ∀ line rest s imported pid pi pl,
    stdin w = line :: rest →
    other_files (fs w) !! strip line = Some (ExtSnapshot s) →
    s_projects s = Some imported →
    imported !! pid = Some pi →
    pjs !! pid = Some pl →
    ∃ m' p',
      result (import_all_data ps logs pjs hist) w = Ok m' ∧
      projects m' !! pid = Some p' ∧
      p_fields p' = p_fields pl ∧
      (∀ t, t ∈ get_tasks pi → get t "TaskID" ∈ task_ids (get_tasks pl) →
            ∃ t', t' ∈ get_tasks p' ∧ get t' "TaskID" = get t "TaskID" ∧ t ⊆ t') ∧
      (∀ t, t ∈ get_tasks pi → get t "TaskID" ∉ task_ids (get_tasks pl) →
            t ∈ get_tasks p').

(** Idempotent re-import as the specification words it, for one call of
    the import followed by a second one on the same file. *)
Definition reimport_changes_nothing (ps : gmap string jobj)
    (logs : gmap Z (list string)) (pjs : gmap string project)
    (hist : list jobj) (w : world) : Prop :=
  ∀ line rest m1,
    stdin w = line :: rest →
    result (import_all_data ps logs pjs hist) w = Ok m1 →
    let w1 := set_stdin (line :: rest) (final (import_all_data ps logs pjs hist) w) in
    let again := import_all_data (profiles m1) (stories m1) (projects m1) hist in
    result again w1 = Ok m1 ∧ fs (final again w1) = fs w1.

(** Every log id is a positive integer. *)
Definition ids_positive (stories : gmap Z (list string)) : Prop :=
  ∀ k, is_Some (stories !! k) → (0 < k)%Z.

(** The collections reached from [m] by a sequence of [newlog] and
    [deletelog] commands, whatever the input and the files at each. *)
Inductive log_sequence (m : mem) : mem → Prop :=
| log_sequence_nil : log_sequence m m
| log_sequence_newlog (m1 m2 : mem) (w w' : world) (t : list event) :
    log_sequence m m1 →
    main_newlog m1 w = (Ok m2, w', t) →
    log_sequence m m2
| log_sequence_deletelog (arg : string) (m1 m2 : mem) (w w' : world) (t : list event) :
    log_sequence m m1 →
    main_deletelog arg m1 w = (Ok m2, w', t) →
    log_sequence m m2.

(** *** Sample worlds *)

Definition empty_files : files :=
  {| session_txt := None; profiles_json := Absent; logs_json := Absent;
     session_history_json := Absent; projects_json := Absent;
     other_files := ∅; writable := λ _, true; truncates := λ _, false;
     other_writable := λ _, true |}.

Definition fresh_world (input : list string) : world :=
  {| stdin := input; clock := 0; fs := empty_files;
     current_platecore_id := None; current_session_start_time := 0 |}.

Definition seed_mem : mem :=
  {| stories := seed_stories;
     profiles := <["Z-1" := seed_profile]> ∅;
     projects := <["PROJ-001" := seed_project]> ∅ |}.

(** A snapshot with one new profile, and a world that holds it as
    [snap.json] while [profiles.json] cannot be written. *)
Definition new_profile : jobj :=
  <["Name" := JStr "Pat"]> (<["ID" := JStr "P-9"]> ∅).

Definition profile_snapshot : snapshot :=
  {| s_profiles := Some (<["P-9" := new_profile]> ∅); s_logs := None;
     s_projects := None; s_session_history := None |}.

Definition readonly_profiles_world (input : list string) : world :=
  {| stdin := input; clock := 0;
     fs := {| session_txt := None; profiles_json := Absent; logs_json := Absent;
              session_history_json := Absent; projects_json := Absent;
              other_files := <["snap.json" := ExtSnapshot profile_snapshot]> ∅;
              writable := λ f, negb (bool_decide (f = PROFILES_FILE));
              truncates := λ _, false;
              other_writable := λ _, true |};
     current_platecore_id := None; current_session_start_time := 0 |}.

(** A logged-in world whose [projects.json] cannot be written. *)
Definition readonly_projects_world (input : list string) : world :=
  {| stdin := input; clock := 7;
     fs := {| session_txt := Some "demoplate"; profiles_json := Absent;
              logs_json := Absent; session_history_json := Absent;
              projects_json := Absent; other_files := ∅;
              writable := λ f, negb (bool_decide (f = PROJECTS_FILE));
              truncates := λ _, false;
              other_writable := λ _, true |};
     current_platecore_id := Some "demoplate"; current_session_start_time := 3 |}.

(** Worlds for the import: the files are empty but for [snap.json]. *)
Definition import_world (s : snapshot) : world :=
  {| stdin := ["snap.json"]; clock := 7;
     fs := put_other "snap.json" (ExtSnapshot s) empty_files;
     current_platecore_id := None; current_session_start_time := 0 |}.

Definition task (id status : string) : jobj :=
  <["TaskID" := JStr id]> (<["Status" := JStr status]> ∅).

Definition named (name : string) (tasks : option (list jobj)) : project :=
  {| p_fields := <["Name" := JStr name]> ∅; p_tasks := tasks |}.

Definition projects_snapshot (imported : gmap string project)
    (logs : list (string * list string)) : snapshot :=
  {| s_profiles := None; s_logs := Some logs;
     s_projects := Some imported; s_session_history := None |}.

(** Local project [P] with [T-1] pending. *)
Definition local_projects : gmap string project :=
  <["P" := named "local" (Some [task "T-1" "Pending"])]> ∅.

(** The example of the specification: [P] with another header, [T-1]
    complete; and a new task [T-2]. *)
Definition example_snapshot : snapshot :=
  projects_snapshot
    (<["P" := named "imported" (Some [task "T-1" "Complete"; task "T-2" "Pending"])]> ∅)
    [("4", ["a log"])].

(** Two imported tasks with the same id. *)
Definition twice_snapshot : snapshot :=
  projects_snapshot
    (<["P" := named "imported" (Some [task "T-1" "Complete"; task "T-1" "Pending"])]> ∅)
    [].

(** A log key that is not an integer. *)
Definition bad_log_snapshot : snapshot :=
  projects_snapshot
    (<["P" := named "imported" (Some [task "T-1" "Complete"])]> ∅)
    [("four", ["a log"])].

(** A project without the key "Tasks". *)
Definition bare_snapshot : snapshot :=
  projects_snapshot (<["BARE" := named "bare" None]> ∅) [].

(** A world with a user logged in. *)
Definition session_world (input : list string) : world :=
  {| stdin := input; clock := 7;
     fs := put_session (Some "demoplate") empty_files;
     current_platecore_id := Some "demoplate";
     current_session_start_time := 3 |}.
(** *** Relations between the world before and after *)

(** A computation keeps a relation when the world it leaves is related
    to the world it started in, whatever it returns or raises. *)
Definition keeps_at (R : relation world) {A : Type} (c : M A) (w : world) : Prop :=
  R w (final c w).

Definition keeps (R : relation world) {A : Type} (c : M A) : Prop :=
  ∀ w, keeps_at R c w.

(** Standard input is only consumed. *)
Definition input_shrinks : relation world :=
  λ w w', (length (stdin w') ≤ length (stdin w))%nat.

(** A save of the session history goes through, or fails before the
    file is opened: no save leaves the history cut short. *)
Definition history_safe (f : files) : bool :=
  writable f SESSION_HISTORY_FILE || negb (truncates f SESSION_HISTORY_FILE).

(** The session history on disk only grows at its end, as long as no
    save can cut it short. *)
Definition history_grows : relation world :=
  λ w w', history_safe (fs w) = true →
          history_safe (fs w') = true ∧
          history_on_disk (fs w) `prefix_of` history_on_disk (fs w').

(** The session is left as it is: the two globals, the session file
    and the session history. *)
Definition same_session : relation world :=
  λ w w', current_platecore_id w' = current_platecore_id w ∧
          current_session_start_time w' = current_session_start_time w ∧
          session_txt (fs w') = session_txt (fs w) ∧
          session_history_json (fs w') = session_history_json (fs w).

(** Nobody gets logged in. *)
Definition stays_guest : relation world :=
  λ w w', logged_in w = false → logged_in w' = false.

(** The five files of the program are left as they are. *)
Definition same_stores : relation world :=
  λ w w', session_txt (fs w') = session_txt (fs w) ∧
          profiles_json (fs w') = profiles_json (fs w) ∧
          logs_json (fs w') = logs_json (fs w) ∧
          session_history_json (fs w') = session_history_json (fs w) ∧
          projects_json (fs w') = projects_json (fs w).

(** The three collection files are left as they are. *)
Definition same_collections : relation world :=
  λ w w', profiles_json (fs w') = profiles_json (fs w) ∧
          logs_json (fs w') = logs_json (fs w) ∧
          projects_json (fs w') = projects_json (fs w).

(** The commands that only show something. *)
Definition query_commands : list string :=
  ["logbook"; "loglist"; "profileslist"; "profilesview"; "searchprofile";
   "projectslist"; "projectview"; "clear"; "whoami"; "history"; "help"].

(** The names of the five files of the program. *)
Definition store_names : list string :=
  file_name <$> [SESSION_FILE; PROFILES_FILE; LOGS_FILE; SESSION_HISTORY_FILE;
                 PROJECTS_FILE].

(** No export wrote a file: an export is the one write whose target the
    user chooses. *)
Definition wrote_export (e : event) : bool :=
  match e with
  | Exported _ true => true
  | _ => false
  end.

Definition no_export (t : list event) : Prop := existsb wrote_export t = false.



(** A string of ASCII characters. *)
Fixpoint ascii_only (s : string) : bool :=
  match s with
  | EmptyString => true
  | String c r => (N_of_ascii c <? 128)%N && ascii_only r
  end.

(** A text on which Python's [int], [isdigit] and [strip] and the ones
    of this file agree: ASCII characters, fewer than the 4300 digits at
    which [int] gives up. *)
Definition plain (s : string) : bool :=
  ascii_only s && (String.length s <? 4300)%nat.

(** *** What a computation returns *)

(** Whatever the world, a value the computation returns satisfies [P]. *)
Definition returns {A : Type} (P : A → Prop) (c : M A) : Prop :=
  ∀ w a, result c w = Ok a → P a.

(** *** Collections *)

(** Two maps that differ at one key at most. *)
Definition one_key {K V : Type} `{Countable K} (a b : gmap K V) : Prop :=
  ∃ k, ∀ j, j ≠ k → b !! j = a !! j.

(** Collections that differ in one log, one profile or one project at
    most. *)
Definition one_record (m m' : mem) : Prop :=
  (one_key (stories m) (stories m') ∧ profiles m' = profiles m ∧
   projects m' = projects m) ∨
  (stories m' = stories m ∧ one_key (profiles m) (profiles m') ∧
   projects m' = projects m) ∨
  (stories m' = stories m ∧ profiles m' = profiles m ∧
   one_key (projects m) (projects m')).


(** The collections in memory are the ones the store files hold, the
    logs as [load_logs] reads them. *)
Definition synced (m : mem) (f : files) : Prop :=
  int_keys (contents (logs_json f) []) ∅ = Some (stories m) ∧
  contents (profiles_json f) ∅ = profiles m ∧
  contents (projects_json f) ∅ = projects m.

(** The collections an iteration hands to the next one. *)
Definition next_mem (c : ctl) : option mem :=
  match c with
  | Continue m => Some m
  | _ => None
  end.

(** A computation that starts with the store files holding [m] and,
    when it returns collections (as [view] reads its result), leaves the
    store files holding them. *)
Definition writes_back {A : Type} (view : A → option mem) (c : M A) (m : mem) : Prop :=
  ∀ w a m', synced m (fs w) → result c w = Ok a → view a = Some m' →
            synced m' (fs (final c w)).

(** Every project has the key "Tasks". *)
Definition has_tasks (projects_data : gmap string project) : Prop :=
  ∀ pid p, projects_data !! pid = Some p → is_Some (p_tasks p).

(** The number [taskadd] reads off the id of a task: the id without its
    "T-" is made of digits, and [k] is their value. *)
Definition task_number (t : jobj) (k : Z) : Prop :=
  ∃ tid, get_or t "TaskID" (JStr "T-0") = JStr tid ∧
         isdigit (remove_T_dash tid) = true ∧
         py_int (remove_T_dash tid) = Some k.

(** What the import leaves of a local project: its header, its task
    ids, and, when these are distinct, their order and every task the
    file does not name. *)
Definition project_kept (imported : gmap string project) (pid : string)
    (pl p' : project) : Prop :=
  p_fields p' = p_fields pl ∧
  (∀ t, t ∈ get_tasks pl → get t "TaskID" ∈ task_ids (get_tasks p')) ∧
  (NoDup (task_ids (get_tasks pl)) →
   task_ids (get_tasks pl) `prefix_of` task_ids (get_tasks p') ∧
   ∀ t, t ∈ get_tasks pl →
        (∀ pi, imported !! pid = Some pi →
               get t "TaskID" ∉ task_ids (get_tasks pi)) →
        t ∈ get_tasks p').


(** The snapshot [export_all_data] writes. *)
Definition exported (m : mem) (session_history : list jobj) : snapshot :=
  {| s_profiles := Some (profiles m);
     s_logs := Some ((λ kv, (py_str kv.1, kv.2)) <$> map_to_list (stories m));
     s_projects := Some (projects m);
     s_session_history := Some session_history |}.

(** The date the program reads off the first line of a log entry that
    holds the separator: [line.split("—")[0].strip()]. *)
Definition log_date (first_line : string) : string :=
  strip (before EM_DASH first_line).

(** The statuses a task can be given by [taskupdate]. *)
Definition task_statuses : list string := ["Pending"; "In Progress"; "Complete"].

(** A task after [taskupdate], against the task [t0] it was: only the
    status and the assignee can differ; a new status is one of the
    three, a new assignee is a profile id or "Unassigned". *)
Definition updated_from (profiles_data : gmap string jobj) (t0 t : jobj) : Prop :=
  (∀ key, key ≠ "Status" → key ≠ "AssignedTo" → t !! key = t0 !! key) ∧
  (t !! "Status" = t0 !! "Status" ∨
   ∃ s, s ∈ task_statuses ∧ t !! "Status" = Some (JStr s)) ∧
  (t !! "AssignedTo" = t0 !! "AssignedTo" ∨
   t !! "AssignedTo" = Some (JStr "Unassigned") ∨
   ∃ a, is_Some (profiles_data !! a) ∧ t !! "AssignedTo" = Some (JStr a)).


(** * Properties *)

(** ** Strings *)

Lemma lower_app (a b : string) : lower (a +:+ b) = lower a +:+ lower b.
Proof.
  induction a as [|c a IH]; [done|].
  change (lower (String c a +:+ b)) with (String (lower_ascii c) (lower (a +:+ b))).
  by rewrite IH.
Qed.

Lemma lower_ascii_space (c : ascii) : Ascii.eqb (lower_ascii c) " " = Ascii.eqb c " ".
Proof. destruct c as [[] [] [] [] [] [] [] []]; reflexivity. Qed.

Lemma contains_space_cons (c : ascii) (s : string) :
  contains " " (String c s) = Ascii.eqb c " " || contains " " s.
Proof.
  cbn [contains String.prefix].
  destruct (ascii_dec " " c) as [<-|Hne]; simpl.
  - by destruct s.
  - destruct (Ascii.eqb_spec c " "); [congruence|done].
Qed.

Lemma break_space_app (cmd tail : string) :
  contains " " cmd = false →
  break_space (cmd +:+ String " " tail) = Some (cmd, tail).
Proof.
  induction cmd as [|c cmd IH]; [done|].
  rewrite contains_space_cons. intros [Hc Hs]%orb_false_iff.
  change (String c cmd +:+ String " " tail)
    with (String c (cmd +:+ String " " tail)).
  cbn [break_space]. by rewrite Hc, IH.
Qed.

Lemma break_space_none (cmd : string) :
  contains " " cmd = false → break_space cmd = None.
Proof.
  induction cmd as [|c cmd IH]; [done|].
  rewrite contains_space_cons. intros [Hc Hs]%orb_false_iff.
  cbn [break_space]. by rewrite Hc, IH.
Qed.

Lemma lower_keeps_spaces (s : string) : contains " " (lower s) = contains " " s.
Proof.
  induction s as [|c s IH]; [done|].
  change (lower (String c s)) with (String (lower_ascii c) (lower s)).
  by rewrite !contains_space_cons, lower_ascii_space, IH.
Qed.

Lemma split_space_once (s : string) :
  split_space 1 s =
    match break_space s with
    | Some (a, b) => [a; b]
    | None => [s]
    end.
Proof. cbn [split_space]. by destruct (break_space s) as [[a b]|]. Qed.

Lemma split_space_more (n : nat) (s : string) :
  split_space (S n) s =
    match break_space s with
    | Some (a, b) => a :: split_space n b
    | None => [s]
    end.
Proof. reflexivity. Qed.

Lemma split_space_four (a b c d : string) :
  contains " " a = false → contains " " b = false → contains " " c = false →
  split_space 3 (a +:+ " " +:+ b +:+ " " +:+ c +:+ " " +:+ d) = [a; b; c; d].
Proof.
  intros Ha Hb Hc.
  repeat match goal with
         | |- context [" " +:+ ?x] => change (" " +:+ x) with (String " " x)
         end.
  rewrite split_space_more, break_space_app by done.
  rewrite split_space_more, break_space_app by done.
  by rewrite split_space_more, break_space_app by done.
Qed.

Lemma split_space_three (a b c : string) :
  contains " " a = false → contains " " b = false → contains " " c = false →
  split_space 3 (a +:+ " " +:+ b +:+ " " +:+ c) = [a; b; c].
Proof.
  intros Ha Hb Hc.
  repeat match goal with
         | |- context [" " +:+ ?x] => change (" " +:+ x) with (String " " x)
         end.
  rewrite split_space_more, break_space_app by done.
  rewrite split_space_more, break_space_app by done.
  by rewrite split_space_more, break_space_none by done.
Qed.

Lemma strip_empty : strip "" = "".
Proof. reflexivity. Qed.

#[local] Arguments strip : simpl never.
#[local] Arguments lower : simpl never.
#[local] Arguments upper : simpl never.
#[local] Arguments title : simpl never.
#[local] Arguments nonempty : simpl never.
#[local] Arguments String.eqb : simpl never.
#[local] Arguments String.append : simpl never.
#[local] Arguments history_entry : simpl never.
#[local] Arguments base_command : simpl never.
#[local] Arguments arg : simpl never.
#[local] Arguments py_int : simpl never.
#[local] Arguments py_str : simpl never.
#[local] Arguments contains : simpl never.
#[local] Arguments split_space : simpl never.
#[local] Arguments find_command : simpl never.
#[local] Arguments allowed_guest_commands : simpl never.
#[local] Arguments write_error : simpl never.
#[local] Arguments pretty : simpl never.

(** Unfolds the primitives of the monad, leaving the store and session
    functions folded. *)
Ltac run_M :=
  unfold continue_with, pause_print, print, print_error, emit, raise,
    modify, now, prompt_getpass, prompt_input, get_world, put_world, lift_res,
    mbind, M_bind, fmap, M_fmap, mret, M_ret.

Lemma corrupt_warning_err {A : Type} (f : store) (c : fstate A) (e : event) :
  e ∈ corrupt_warning f c → ∃ text, e = Err text.
Proof.
  destruct c; simpl; intros Hin.
  - by apply elem_of_nil in Hin.
  - apply list_elem_of_singleton in Hin as ->. eauto.
  - by apply elem_of_nil in Hin.
Qed.

(** Membership of an event in an explicit trace. *)
Ltac in_trace :=
  solve [ apply list_elem_of_here
        | apply list_elem_of_further; in_trace
        | apply elem_of_app; left; in_trace
        | apply elem_of_app; right; in_trace ].

(** An event of another kind is not in an explicit trace. *)
Ltac not_in_trace H :=
  first [ apply elem_of_nil in H; contradiction
        | apply corrupt_warning_err in H as [? H]; discriminate H
        | apply elem_of_cons in H as [H|H]; [discriminate H | not_in_trace H]
        | apply elem_of_app in H as [H|H]; [not_in_trace H | not_in_trace H] ].

(** ** Running the primitives *)

Lemma load_json_file_run {A : Type} (f : store) (c : fstate A) (d : A) (w : world) :
  load_json_file f c d w = (Ok (contents c d), w, corrupt_warning f c).
Proof. by destruct c. Qed.

Lemma save_json_file_run (f : store) (d : fdata) (w : world) :
  save_json_file f d w =
    if writable (fs w) f
    then (Ok tt, set_fs (put_data d (fs w)) w, [Saved f d true])
    else (Raise IOError, set_fs (failed_write f d (fs w)) w,
          [Saved f d false; write_error f]).
Proof. unfold save_json_file. run_M. by destruct (writable (fs w) f). Qed.

(** A save that failed touches the file it was writing at most. *)
Lemma failed_write_session_txt (f : store) (d : fdata) (g : files) :
  session_txt (failed_write f d g) = session_txt g.
Proof. unfold failed_write. by destruct (truncates g f). Qed.

Lemma failed_write_other_files (f : store) (d : fdata) (g : files) :
  other_files (failed_write f d g) = other_files g.
Proof. unfold failed_write. by destruct (truncates g f). Qed.

Lemma failed_write_writable (f : store) (d : fdata) (g : files) :
  writable (failed_write f d g) = writable g.
Proof. unfold failed_write. by destruct (truncates g f). Qed.

Lemma failed_write_truncates (f : store) (d : fdata) (g : files) :
  truncates (failed_write f d g) = truncates g.
Proof. unfold failed_write. by destruct (truncates g f). Qed.

Lemma failed_write_other_writable (f : store) (d : fdata) (g : files) :
  other_writable (failed_write f d g) = other_writable g.
Proof. unfold failed_write. by destruct (truncates g f). Qed.

Lemma record_session_event_run (user_id event_type : string) (start_time : nat)
    (end_time : option nat) (w : world) :
  record_session_event user_id event_type start_time end_time w =
    let h := history_on_disk (fs w) ++
             [history_entry (clock w) user_id event_type start_time end_time] in
    let warn := corrupt_warning SESSION_HISTORY_FILE (session_history_json (fs w)) in
    if writable (fs w) SESSION_HISTORY_FILE
    then (Ok tt, set_fs (put_data (DHistory h) (fs w)) (set_clock (S (clock w)) w),
          warn ++ [Saved SESSION_HISTORY_FILE (DHistory h) true])
    else (Raise IOError,
          set_fs (failed_write SESSION_HISTORY_FILE (DHistory h) (fs w))
            (set_clock (S (clock w)) w),
          warn ++ [Saved SESSION_HISTORY_FILE (DHistory h) false;
                   write_error SESSION_HISTORY_FILE]).
Proof.
  unfold record_session_event, load_session_history, save_session_history,
    load_json_file, save_json_file, history_on_disk. run_M. simpl.
  destruct (session_history_json (fs w)); simpl;
    destruct (writable (fs w) SESSION_HISTORY_FILE); done.
Qed.

Lemma logged_in_None (w : world) : current_platecore_id w = None → logged_in w = false.
Proof. unfold logged_in. by intros ->. Qed.

Lemma iteration_unfold (m : mem) (w : world) (line : string) (rest : list string) :
  stdin w = line :: rest →
  iteration m w = dispatch (strip line) m (set_stdin rest w).
Proof.
  intros Hin. unfold iteration. run_M. rewrite Hin.
  by destruct (dispatch (strip line) m (set_stdin rest w)) as [[r w'] t].
Qed.

Lemma dispatch_guest (command_raw : string) (m : mem) (w : world) h :
  base_command command_raw ∈ allowed_guest_commands →
  find_command (base_command command_raw) commands = Some h →
  dispatch command_raw m w = h (arg command_raw) m w.
Proof.
  intros Hin Hf. unfold dispatch. run_M.
  rewrite (bool_decide_eq_true_2 _ Hin), andb_false_r, Hf.
  by destruct (h (arg command_raw) m w) as [[r w'] t].
Qed.

Lemma dispatch_logged_in (command_raw : string) (m : mem) (w : world) h :
  logged_in w = true →
  find_command (base_command command_raw) commands = Some h →
  dispatch command_raw m w = h (arg command_raw) m w.
Proof.
  intros Hin Hf. unfold dispatch. run_M. rewrite Hin, Hf. simpl.
  by destruct (h (arg command_raw) m w) as [[r w'] t].
Qed.

Lemma dispatch_denied (command_raw : string) (m : mem) (w : world) :
  logged_in w = false →
  base_command command_raw ∉ allowed_guest_commands →
  dispatch command_raw m w =
    (Ok (Continue m), w,
     [Err ("Command '" +:+ base_command command_raw +:+
           "' needs privileges. Please 'login' first.")]).
Proof.
  intros Hout Hcmd. unfold dispatch. run_M.
  by rewrite Hout, (bool_decide_eq_false_2 _ Hcmd).
Qed.

(** ** The dispatcher *)

(** C7 (as amended). The line is lower-cased as a whole and split at its
    first space: the command is the lower-cased text before that space
    and the argument tail is the lower-cased text after it, empty when
    the line has no space. *)
Theorem dispatcher_tokenization (cmd tail : string) :
  contains " " cmd = false →
  command_parts (cmd +:+ " " +:+ tail) = (lower cmd, lower tail) ∧
  command_parts cmd = (lower cmd, "").
Proof.
  intros Hcmd. unfold command_parts. split.
  - rewrite lower_app. change (lower (" " +:+ tail)) with (String " " (lower tail)).
    rewrite split_space_once.
    by rewrite break_space_app by by rewrite lower_keeps_spaces.
  - rewrite split_space_once.
    by rewrite break_space_none by by rewrite lower_keeps_spaces.
Qed.

Lemma dispatcher_tokenization_witness :
  command_parts ("taskupdate" +:+ " " +:+ "PROJ-001 T-2 status In Progress") =
    ("taskupdate", "proj-001 t-2 status in progress").
Proof.
  apply (proj1 (dispatcher_tokenization "taskupdate" "PROJ-001 T-2 status In Progress" eq_refl)).
Defined.

(** C7 (as stated) fails: the tail of [projectview PROJ-001] reaches the
    handler as [proj-001]. *)
Lemma tail_is_lowercased : ¬ raw_tail_delivered.
Proof.
  intros H. specialize (H "projectview" "PROJ-001" eq_refl).
  vm_compute in H. discriminate.
Qed.

(** C4. A command outside the guest allow-list, issued while nobody is
    logged in, prints the privilege error and nothing else: the
    collections and every file are as before, and no write is attempted. *)
Theorem auth_gate (line : string) (rest : list string) (m : mem) (w : world) :
  stdin w = line :: rest →
  current_platecore_id w = None →
  base_command (strip line) ∉ allowed_guest_commands →
  iteration m w =
    (Ok (Continue m), set_stdin rest w,
     [Err ("Command '" +:+ base_command (strip line) +:+
           "' needs privileges. Please 'login' first.")]).
Proof.
  intros Hin Hid Hcmd. rewrite (iteration_unfold _ _ _ _ Hin).
  apply dispatch_denied; [by apply logged_in_None|done].
Qed.

Lemma auth_gate_witness :
  iteration seed_mem (fresh_world ["deletelog 1"; "1"]) =
    (Ok (Continue seed_mem), fresh_world ["1"],
     [Err "Command 'deletelog' needs privileges. Please 'login' first."]).
Proof.
  apply (auth_gate "deletelog 1" ["1"] seed_mem (fresh_world ["deletelog 1"; "1"]));
    [reflexivity | reflexivity | compute_done].
Defined.

(** ** Session and history *)

Lemma wrong_credentials (id pw : string) :
  ¬ (id = "demoplate" ∧ pw = "245225") →
  String.eqb id "demoplate" && String.eqb pw "245225" = false.
Proof.
  intros H. apply not_true_is_false.
  intros [?%String.eqb_eq ?%String.eqb_eq]%andb_true_iff. auto.
Qed.

(** C10. A failed login appends a "Login Denied" entry that carries the
    attempted id, or "UNKNOWN" for an empty id; the session file is not
    written and the current user stays unset. *)
Theorem login_denied (id pw : string) (rest : list string) (m : mem) (w : world) :
  stdin w = "login" :: id :: pw :: rest →
  current_platecore_id w = None →
  ¬ (id = "demoplate" ∧ pw = "245225") →
  ∃ entry : jobj,
    entry !! "event_type" = Some (JStr "Login Denied") ∧
    entry !! "user_id" = Some (JStr (if nonempty id then id else "UNKNOWN")) ∧
    Saved SESSION_HISTORY_FILE (DHistory (history_on_disk (fs w) ++ [entry]))
          (writable (fs w) SESSION_HISTORY_FILE) ∈ trace (iteration m) w ∧
    (writable (fs w) SESSION_HISTORY_FILE = true →
     session_history_json (fs (final (iteration m) w)) =
       Content (history_on_disk (fs w) ++ [entry])) ∧
    (∀ u ok, SessionWritten u ok ∉ trace (iteration m) w) ∧
    session_txt (fs (final (iteration m) w)) = session_txt (fs w) ∧
    current_platecore_id (final (iteration m) w) = None.
Proof.
  intros Hin Hid Hcred.
  exists (history_entry (S (S (clock w)))
            (if nonempty id then id else "UNKNOWN") "Login Denied"
            (clock w) (Some (S (clock w)))).
  split; [done|]. split; [done|].
  unfold trace, final.
  rewrite (iteration_unfold _ _ _ _ Hin).
  change (strip "login") with "login".
  rewrite (dispatch_guest "login" _ _ (λ _ m, continue_with m main_login))
    by (done || compute_done).
  unfold main_login. run_M. simpl.
  rewrite logged_in_None by done. simpl.
  rewrite wrong_credentials by done. simpl.
  rewrite record_session_event_run. simpl.
  destruct (writable (fs w) SESSION_HISTORY_FILE); simpl.
  all: rewrite ?failed_write_session_txt.
  all: repeat split; try done; try in_trace.
  all: intros u ok Hin'; not_in_trace Hin'.
Qed.

Lemma login_denied_witness :
  ∃ entry : jobj,
    entry !! "event_type" = Some (JStr "Login Denied") ∧
    entry !! "user_id" = Some (JStr "UNKNOWN") ∧
    Saved SESSION_HISTORY_FILE (DHistory [entry]) true
      ∈ trace (iteration seed_mem) (fresh_world ["login"; ""; "245225"]) ∧
    current_platecore_id
      (final (iteration seed_mem) (fresh_world ["login"; ""; "245225"])) = None.
Proof.
  destruct (login_denied "" "245225" [] seed_mem (fresh_world ["login"; ""; "245225"]))
    as (entry & He & Hu & Hs & _ & _ & _ & Hc).
  - reflexivity.
  - reflexivity.
  - intros [? _]. discriminate.
  - exists entry. repeat split; assumption.
Defined.

(** The [except] clause records the event and leaves the session file
    and the current user as they are. *)
Lemma error_exit_leaves_token (e : exn) (w : world) :
  session_txt (fs (final (error_exit e) w)) = session_txt (fs w) ∧
  current_platecore_id (final (error_exit e) w) = current_platecore_id w ∧
  SessionRemoved ∉ trace (error_exit e) w.
Proof.
  unfold final, trace, error_exit. run_M. simpl.
  rewrite record_session_event_run. simpl.
  destruct (writable (fs w) SESSION_HISTORY_FILE); simpl;
    rewrite ?failed_write_session_txt; repeat split; try done.
  all: intros Hin; rewrite ?app_nil_r in Hin; not_in_trace Hin.
Qed.

(** The [exit] command records the event and then removes the session
    file. *)
Lemma exit_clears_token (rest : list string) (m : mem) (w : world) :
  stdin w = "exit" :: rest →
  writable (fs w) SESSION_HISTORY_FILE = true →
  result (iteration m) w = Ok Return ∧
  session_txt (fs (final (iteration m) w)) = None ∧
  current_platecore_id (final (iteration m) w) = None ∧
  session_history_json (fs (final (iteration m) w)) =
    Content (history_on_disk (fs w) ++
             [history_entry (S (clock w)) (user_or_unknown w) "Exit"
                (current_session_start_time w) (Some (clock w))]).
Proof.
  intros Hin Hw. unfold result, final.
  rewrite (iteration_unfold _ _ _ _ Hin).
  change (strip "exit") with "exit".
  rewrite (dispatch_guest "exit" _ _
             (λ _ m, pause_print "Exiting session...";; end_session "Exit";; mret Return))
    by (done || compute_done).
  unfold end_session, clear_session. run_M. simpl.
  rewrite record_session_event_run. simpl. rewrite Hw. simpl.
  destruct (session_txt (fs w)) eqn:E; simpl; rewrite ?E; repeat split; reflexivity.
Qed.

(** C2 (the code departs from it). A user logs in and the input ends:
    [EOFError] reaches the [except] clause, which records "Error Exit"
    but does not clear the session: the session file still names the
    user when [main] returns. *)
Theorem error_exit_keeps_token :
  let w := fresh_world ["login"; "demoplate"; "245225"] in
  result (main 4) w = Ok (Some ErrorExited) ∧
  (last (history_on_disk (fs (final (main 4) w))) ≫= (.!! "event_type"))
    = Some (JStr "Error Exit") ∧
  session_txt (fs (final (main 4) w)) = Some "demoplate" ∧
  SessionRemoved ∉ trace (main 4) w.
Proof.
  split; [vm_compute; reflexivity|].
  split; [vm_compute; reflexivity|].
  split; [vm_compute; reflexivity|].
  compute_done.
Qed.

(** ** Editing profiles and projects *)

Lemma edit_key_blank (key : string) (current_profile : jobj) :
  edit_key key "" current_profile = current_profile.
Proof. reflexivity. Qed.

Lemma edit_key_other (key new_value other : string) (current_profile : jobj) :
  other ≠ key →
  edit_key key new_value current_profile !! other = current_profile !! other.
Proof.
  intros Hne. unfold edit_key. destruct (nonempty new_value); [|done].
  by rewrite lookup_insert_ne.
Qed.

Lemma edit_field_blank (key : string) (proj : project) :
  edit_field key "" proj = proj.
Proof. reflexivity. Qed.

Lemma edit_field_other (key new_value other : string) (proj : project) :
  other ≠ key →
  p_fields (edit_field key new_value proj) !! other = p_fields proj !! other.
Proof.
  intros Hne. unfold edit_field. destruct (nonempty new_value); [|done].
  simpl. by rewrite lookup_insert_ne.
Qed.

Lemma edit_field_tasks (key new_value : string) (proj : project) :
  p_tasks (edit_field key new_value proj) = p_tasks proj.
Proof. unfold edit_field. by destruct (nonempty new_value). Qed.

(** Strips the layers of a chain of edits that do not touch the key
    looked up. *)
Ltac peel_edits :=
  repeat first
    [ rewrite edit_key_blank | rewrite edit_key_other by done
    | rewrite edit_field_blank | rewrite edit_field_other by done ];
  done.

(** The profile that [profilesedit] writes back, from the five answers. *)
Lemma main_profilesedit_run (arg : string) (m : mem) (w : world)
    (a1 a2 a3 a4 a5 : string) (rest : list string) (current : jobj) :
  stdin w = a1 :: a2 :: a3 :: a4 :: a5 :: rest →
  nonempty (upper (strip arg)) = true →
  profiles m !! upper (strip arg) = Some current →
  ∃ edited : jobj,
    let updated := <[upper (strip arg) := edited]> (profiles m) in
    Saved PROFILES_FILE (DProfiles updated) (writable (fs w) PROFILES_FILE)
      ∈ trace (main_profilesedit arg m) w ∧
    (writable (fs w) PROFILES_FILE = true →
     result (main_profilesedit arg m) w = Ok (set_profiles updated m)) ∧
    (∃ cb, edited = cb (edit_key "PN" (strip a4) (edit_key "IC" (strip a3)
                     (edit_key "Role" (strip a2) (edit_key "Name" (strip a1) current)))) ∧
           (∀ p : jobj, cb p = p ∨ ∃ n, nonempty (strip a5) = true ∧ cb p = <["CB" := JInt n]> p)).
Proof.
  intros Hin Hid Hcur.
  set (base := edit_key "PN" (strip a4) (edit_key "IC" (strip a3)
                 (edit_key "Role" (strip a2) (edit_key "Name" (strip a1) current)))).
  unfold trace, result, main_profilesedit. rewrite Hid, Hcur. run_M. simpl. rewrite Hin. simpl.
  destruct (nonempty (strip a5)) eqn:H5; [destruct (py_int (strip a5)) as [n|] eqn:Hn|].
  - exists (<["CB" := JInt n]> base). simpl. unfold save_profiles.
    rewrite save_json_file_run. simpl.
    destruct (writable (fs w) PROFILES_FILE); simpl; (split; [in_trace|]).
    all: split; [done|]; exists (λ p, <["CB" := JInt n]> p); split; [done|]; eauto.
  - exists base. simpl. unfold save_profiles. rewrite save_json_file_run. simpl.
    destruct (writable (fs w) PROFILES_FILE); simpl; (split; [in_trace|]).
    all: split; [done|]; exists (λ p, p); split; [done|]; eauto.
  - exists base. simpl. unfold save_profiles. rewrite save_json_file_run. simpl.
    destruct (writable (fs w) PROFILES_FILE); simpl; (split; [in_trace|]).
    all: split; [done|]; exists (λ p, p); split; [done|]; eauto.
Qed.

Lemma project_edit_command_run (project_id : string)
    (projects_data : gmap string project) (w : world)
    (a1 a2 a3 a4 : string) (rest : list string) (proj : project) :
  stdin w = a1 :: a2 :: a3 :: a4 :: rest →
  nonempty project_id = true →
  projects_data !! upper project_id = Some proj →
  let edited := edit_field "DueDate" (strip a4) (edit_field "Status" (strip a3)
                  (edit_field "Description" (strip a2)
                     (edit_field "Name" (strip a1) proj))) in
  let updated := <[upper project_id := edited]> projects_data in
  Saved PROJECTS_FILE (DProjects updated) (writable (fs w) PROJECTS_FILE)
    ∈ trace (project_edit_command projects_data project_id) w ∧
  (writable (fs w) PROJECTS_FILE = true →
   result (project_edit_command projects_data project_id) w = Ok updated).
Proof.
  intros Hin Hid Hcur. cbv zeta.
  unfold trace, result, project_edit_command. rewrite Hid, Hcur. run_M. simpl. rewrite Hin. simpl.
  unfold save_projects. rewrite save_json_file_run. simpl.
  destruct (writable (fs w) PROJECTS_FILE); simpl; (split; [in_trace|done]).
Qed.

(** C6. In [profilesedit] and in [projectedit] a field answered with a
    blank line keeps its value, and with every answer blank the record
    and its collection are unchanged. *)
Theorem edit_blank_keeps :
  (∀ (arg : string) (m : mem) (w : world) (a1 a2 a3 a4 a5 : string)
     (rest : list string) (current : jobj),
     stdin w = a1 :: a2 :: a3 :: a4 :: a5 :: rest →
     nonempty (upper (strip arg)) = true →
     profiles m !! upper (strip arg) = Some current →
     ∃ edited : jobj,
       let updated := <[upper (strip arg) := edited]> (profiles m) in
       Saved PROFILES_FILE (DProfiles updated) (writable (fs w) PROFILES_FILE)
         ∈ trace (main_profilesedit arg m) w ∧
       (writable (fs w) PROFILES_FILE = true →
        result (main_profilesedit arg m) w = Ok (set_profiles updated m)) ∧
       (strip a1 = "" → edited !! "Name" = current !! "Name") ∧
       (strip a2 = "" → edited !! "Role" = current !! "Role") ∧
       (strip a3 = "" → edited !! "IC" = current !! "IC") ∧
       (strip a4 = "" → edited !! "PN" = current !! "PN") ∧
       (strip a5 = "" → edited !! "CB" = current !! "CB") ∧
       (∀ key, key ∉ ["Name"; "Role"; "IC"; "PN"; "CB"] →
               edited !! key = current !! key) ∧
       (strip a1 = "" → strip a2 = "" → strip a3 = "" → strip a4 = "" →
        strip a5 = "" → edited = current ∧ updated = profiles m)) ∧
  (∀ (project_id : string) (projects_data : gmap string project) (w : world)
     (a1 a2 a3 a4 : string) (rest : list string) (proj : project),
     stdin w = a1 :: a2 :: a3 :: a4 :: rest →
     nonempty project_id = true →
     projects_data !! upper project_id = Some proj →
     ∃ edited : project,
       let updated := <[upper project_id := edited]> projects_data in
       Saved PROJECTS_FILE (DProjects updated) (writable (fs w) PROJECTS_FILE)
         ∈ trace (project_edit_command projects_data project_id) w ∧
       (writable (fs w) PROJECTS_FILE = true →
        result (project_edit_command projects_data project_id) w = Ok updated) ∧
       (strip a1 = "" → p_fields edited !! "Name" = p_fields proj !! "Name") ∧
       (strip a2 = "" →
        p_fields edited !! "Description" = p_fields proj !! "Description") ∧
       (strip a3 = "" → p_fields edited !! "Status" = p_fields proj !! "Status") ∧
       (strip a4 = "" → p_fields edited !! "DueDate" = p_fields proj !! "DueDate") ∧
       (∀ key, key ∉ ["Name"; "Description"; "Status"; "DueDate"] →
               p_fields edited !! key = p_fields proj !! key) ∧
       p_tasks edited = p_tasks proj ∧
       (strip a1 = "" → strip a2 = "" → strip a3 = "" → strip a4 = "" →
        edited = proj ∧ updated = projects_data)).
Proof.
  split.
  - intros arg m w a1 a2 a3 a4 a5 rest current Hin Hid Hcur.
    destruct (main_profilesedit_run arg m w a1 a2 a3 a4 a5 rest current Hin Hid Hcur)
      as (edited & Hsave & Hres & cb & -> & Hcb).
    exists (cb (edit_key "PN" (strip a4) (edit_key "IC" (strip a3)
              (edit_key "Role" (strip a2) (edit_key "Name" (strip a1) current))))).
    split; [done|]. split; [done|].
    assert (Hcb' : ∀ (p : jobj) key, key ≠ "CB" → cb p !! key = p !! key).
    { intros p key Hne. destruct (Hcb p) as [->|(n & _ & ->)]; [done|].
      by rewrite lookup_insert_ne. }
    set (base := edit_key "PN" (strip a4) (edit_key "IC" (strip a3)
              (edit_key "Role" (strip a2) (edit_key "Name" (strip a1) current)))).
    split_and!.
    1-4: intros Hb; subst base; rewrite Hb, Hcb' by done; peel_edits.
    + intros H5. destruct (Hcb base) as [->|(n & Hne & _)]; [subst base; peel_edits|].
      rewrite H5 in Hne. discriminate.
    + intros key Hkey.
      rewrite !not_elem_of_cons in Hkey. destruct Hkey as (? & ? & ? & ? & ? & _).
      rewrite Hcb' by done. subst base. by rewrite !edit_key_other.
    + intros H1 H2 H3 H4 H5. subst base. rewrite H1, H2, H3, H4, !edit_key_blank.
      destruct (Hcb current) as [->|(n & Hne & _)]; [by split; [|apply insert_id]|].
      rewrite H5 in Hne. discriminate.
  - intros project_id projects_data w a1 a2 a3 a4 rest proj Hin Hid Hcur.
    destruct (project_edit_command_run project_id projects_data w a1 a2 a3 a4 rest
                proj Hin Hid Hcur) as [Hsave Hres].
    eexists. split; [exact Hsave|]. split; [exact Hres|].
    split_and!.
    1-4: intros Hb; rewrite Hb; peel_edits.
    + intros key Hkey.
      rewrite !not_elem_of_cons in Hkey. destruct Hkey as (? & ? & ? & ? & _).
      by rewrite !edit_field_other.
    + by rewrite !edit_field_tasks.
    + intros H1 H2 H3 H4. rewrite H1, H2, H3, H4, !edit_field_blank.
      by split; [|apply insert_id].
Qed.

Lemma edit_blank_keeps_witness :
  (∃ edited : jobj,
     edited = seed_profile ∧
     Saved PROFILES_FILE (DProfiles (<["Z-1" := edited]> (profiles seed_mem))) true
       ∈ trace (main_profilesedit "z-1" seed_mem) (session_world [""; "  "; ""; ""; ""])) ∧
  (∃ edited : project,
     edited = seed_project ∧
     result (project_edit_command (projects seed_mem) "proj-001")
            (session_world [""; ""; " "; ""]) =
       Ok (<["PROJ-001" := edited]> (projects seed_mem))).
Proof.
  split.
  - destruct (proj1 edit_blank_keeps "z-1" seed_mem
                (session_world [""; "  "; ""; ""; ""]) "" "  " "" "" "" [] seed_profile)
      as (edited & Hsave & _ & _ & _ & _ & _ & _ & _ & Hall);
      [reflexivity | reflexivity | reflexivity |].
    exists edited. split; [by apply Hall|exact Hsave].
  - destruct (proj2 edit_blank_keeps "proj-001" (projects seed_mem)
                (session_world [""; ""; " "; ""]) "" "" " " "" [] seed_project)
      as (edited & _ & Hres & _ & _ & _ & _ & _ & _ & Hall);
      [reflexivity | reflexivity | reflexivity |].
    exists edited. split; [by apply Hall|by apply Hres].
Defined.

(** ** Task status updates *)

(** C9. [taskupdate] of an existing task with update type [status]: a
    value that is one of the three statuses up to case sets the task's
    Status to its title-cased form and saves the projects; any other
    value prints the validation error, changes nothing and saves
    nothing. *)
Theorem task_status_update (projects_data : gmap string project)
    (profiles_data : gmap string jobj) (args_str p t u value : string)
    (proj : project) (i : nat) (task : jobj) (w : world) :
  contains " " p = false → contains " " t = false → contains " " u = false →
  args_str = p +:+ " " +:+ t +:+ " " +:+ u +:+ " " +:+ value ∨
    (args_str = p +:+ " " +:+ t +:+ " " +:+ u ∧ value = "") →
  lower u = "status" →
  projects_data !! upper p = Some proj →
  get_tasks proj !! i = Some task →
  get task "TaskID" = JStr (upper t) →
  (∀ j task', j < i → get_tasks proj !! j = Some task' →
              get task' "TaskID" ≠ JStr (upper t)) →
  let c := task_update_command projects_data args_str profiles_data in
  (lower value ∈ allowed_statuses →
   let updated :=
     <[upper p :=
         set_tasks proj
           (<[i := <["Status" := JStr (title value)]> task]> (get_tasks proj))]>
       projects_data in
   Saved PROJECTS_FILE (DProjects updated) (writable (fs w) PROJECTS_FILE)
     ∈ trace c w ∧
   (writable (fs w) PROJECTS_FILE = true →
    result c w = Ok updated ∧
    projects_json (fs (final c w)) = Content updated)) ∧
  (lower value ∉ allowed_statuses →
   c w = (Ok projects_data, w,
          [Err "Invalid status. Use 'pending', 'in progress', or 'complete'."])).
Proof.
  intros Hp Ht Hu Hargs Hstatus Hproj Htask Hid Hfirst c.
  assert (Hfind : find_task (upper t) (get_tasks proj) = Some (i, task)).
  { apply list_find_Some. split; [done|]. split; [done|].
    intros j y Hj Hlt. by apply (Hfirst j). }
  assert (Hrun : c =
    let commit (task' : jobj) : M (gmap string project) :=
      let projects_data :=
        <[upper p := set_tasks proj (<[i := task']> (get_tasks proj))]> projects_data in
      save_projects projects_data;; mret projects_data in
    if bool_decide (lower value ∈ allowed_statuses) then
      pause_print ("Task '" +:+ upper t +:+ "' status updated to '" +:+
                   title value +:+ "' in Project '" +:+ upper p +:+ "'.");;
      commit (<["Status" := JStr (title value)]> task)
    else
      print_error "Invalid status. Use 'pending', 'in progress', or 'complete'.";;
      mret projects_data).
  { subst c. unfold task_update_command.
    destruct Hargs as [->|[-> ->]].
    - rewrite split_space_four by done. rewrite Hproj, Hfind, Hstatus. reflexivity.
    - rewrite split_space_three by done. rewrite Hproj, Hfind, Hstatus. reflexivity. }
  rewrite Hrun. clear Hrun. split.
  - intros Hok. rewrite (bool_decide_eq_true_2 _ Hok). cbv zeta.
    unfold trace, result, final, save_projects. run_M. simpl.
    rewrite save_json_file_run. simpl.
    destruct (writable (fs w) PROJECTS_FILE); simpl; (split; [in_trace|done]).
  - intros Hbad. by rewrite (bool_decide_eq_false_2 _ Hbad).
Qed.

Lemma task_status_update_witness :
  result (task_update_command (projects seed_mem) "proj-001 t-2 status in progress"
            (profiles seed_mem)) (session_world []) =
    Ok (<["PROJ-001" :=
            set_tasks seed_project
              (<[1 := <["Status" := JStr "In Progress"]>
                        (seed_task "T-2" "Design new splash screen" "Unassigned" "Pending")]>
                 (get_tasks seed_project))]> (projects seed_mem)) ∧
  task_update_command (projects seed_mem) "proj-001 t-2 status done"
    (profiles seed_mem) (session_world []) =
    (Ok (projects seed_mem), session_world [],
     [Err "Invalid status. Use 'pending', 'in progress', or 'complete'."]).
Proof.
  split.
  - apply (task_status_update (projects seed_mem) (profiles seed_mem)
             "proj-001 t-2 status in progress" "proj-001" "t-2" "status" "in progress"
             seed_project 1
             (seed_task "T-2" "Design new splash screen" "Unassigned" "Pending")
             (session_world [])); try reflexivity.
    + by left.
    + intros j task' Hj. destruct j as [|j]; [|lia]. intros [= <-]. discriminate.
    + compute_done.
  - apply (task_status_update (projects seed_mem) (profiles seed_mem)
             "proj-001 t-2 status done" "proj-001" "t-2" "status" "done"
             seed_project 1
             (seed_task "T-2" "Design new splash screen" "Unassigned" "Pending")
             (session_world [])); try reflexivity.
    + by left.
    + intros j task' Hj. destruct j as [|j]; [|lia]. intros [= <-]. discriminate.
    + compute_done.
Defined.

(** ** Log ids *)

Lemma foldl_max_ge (l : list Z) (a : Z) : (a ≤ foldl Z.max a l)%Z.
Proof. revert a. induction l as [|x l IH]; intros a; simpl; [lia|]. specialize (IH (Z.max a x)). lia. Qed.

Lemma foldl_max_upper (l : list Z) (a x : Z) : x ∈ l → (x ≤ foldl Z.max a l)%Z.
Proof.
  revert a. induction l as [|y l IH]; intros a Hin; [by apply elem_of_nil in Hin|].
  apply elem_of_cons in Hin as [->|Hin]; simpl.
  - pose proof (foldl_max_ge l (Z.max a y)). lia.
  - by apply IH.
Qed.

Lemma foldl_max_in (l : list Z) (a : Z) : foldl Z.max a l = a ∨ foldl Z.max a l ∈ l.
Proof.
  revert a. induction l as [|y l IH]; intros a; simpl; [by left|].
  destruct (IH (Z.max a y)) as [->|Hin].
  - destruct (Z.max_spec a y) as [[_ ->]|[_ ->]]; [right; apply list_elem_of_here|by left].
  - right. by apply list_elem_of_further.
Qed.

(** [max] of a non-empty list is one of its elements and bounds them all. *)
Lemma py_max_spec (keys : list Z) (k : Z) :
  py_max keys = Some k → k ∈ keys ∧ ∀ x, x ∈ keys → (x ≤ k)%Z.
Proof.
  destruct keys as [|a l]; [done|]. intros [= <-]. split.
  - destruct (foldl_max_in l a) as [->|Hin];
      [apply list_elem_of_here|by apply list_elem_of_further].
  - intros x [->|Hin]%elem_of_cons; [apply foldl_max_ge|by apply foldl_max_upper].
Qed.

Lemma keys_spec (stories : gmap Z (list string)) (k : Z) :
  k ∈ (map_to_list stories).*1 ↔ is_Some (stories !! k).
Proof.
  rewrite list_elem_of_fmap. split.
  - intros ([k' v] & -> & Hin). apply elem_of_map_to_list in Hin. by exists v.
  - intros [v Hv]. exists (k, v). split; [done|]. by apply elem_of_map_to_list.
Qed.

(** [next_log_id] is 1 on the empty collection and one more than the
    greatest id otherwise. *)
Lemma next_log_id_spec (stories : gmap Z (list string)) :
  (stories = ∅ ∧ next_log_id stories = 1%Z) ∨
  (stories ≠ ∅ ∧
   ∃ k, is_Some (stories !! k) ∧ (∀ j, is_Some (stories !! j) → (j ≤ k)%Z) ∧
        next_log_id stories = (k + 1)%Z).
Proof.
  unfold next_log_id.
  destruct (py_max (map_to_list stories).*1) as [k|] eqn:Hmax.
  - right. apply py_max_spec in Hmax as [Hin Hub]. split.
    + intros ->. rewrite map_to_list_empty in Hin. by apply elem_of_nil in Hin.
    + exists k. split; [by apply keys_spec|]. split; [|done].
      intros j Hj. by apply Hub, keys_spec.
  - left. split; [|done]. destruct (map_to_list stories) as [|[k v] l] eqn:Hl.
    + by apply map_to_list_empty_iff.
    + done.
Qed.

Lemma next_log_id_fresh (stories : gmap Z (list string)) (k : Z) :
  is_Some (stories !! k) → (k < next_log_id stories)%Z.
Proof.
  intros Hk. destruct (next_log_id_spec stories) as [[-> _]|(_ & j & _ & Hub & ->)].
  - rewrite lookup_empty in Hk. by destruct Hk.
  - specialize (Hub k Hk). lia.
Qed.

Lemma next_log_id_positive (stories : gmap Z (list string)) :
  ids_positive stories → (0 < next_log_id stories)%Z.
Proof.
  intros Hpos. destruct (next_log_id_spec stories) as [[_ ->]|(_ & j & Hj & _ & ->)]; [lia|].
  specialize (Hpos j Hj). lia.
Qed.

(** What [newlog] does, by what the input holds. *)
Lemma main_newlog_run (m : mem) (w : world) :
  match read_lines (stdin w) with
  | None => result (main_newlog m) w = Raise EOFError ∧
            ∀ e, e ∈ trace (main_newlog m) w → ∃ text, e = Out text
  | Some ([], rest) =>
      result (main_newlog m) w = Ok m ∧
      ∀ e, e ∈ trace (main_newlog m) w → ∃ text, e = Out text ∨ e = Err text
  | Some (first :: others, rest) =>
      ∃ lines, lines ≠ [] ∧
        let saved := <[next_log_id (stories m) := lines]> (stories m) in
        result (main_newlog m) w =
          (if writable (fs w) LOGS_FILE then Ok (set_stories saved m) else Raise IOError) ∧
        ∀ s ok, Saved LOGS_FILE (DLogs s) ok ∈ trace (main_newlog m) w →
                s = saved ∧ ok = writable (fs w) LOGS_FILE
  end.
Proof.
  unfold result, trace, main_newlog, read_entry_lines, save_logs. run_M. simpl.
  destruct (read_lines (stdin w)) as [[[|first others] rest]|]; simpl.
  - split; [done|]. intros e Hin. repeat (apply elem_of_cons in Hin as [->|Hin]; [eauto|]).
    by apply elem_of_nil in Hin.
  - eexists. split; [|rewrite save_json_file_run; simpl;
                      destruct (writable (fs w) LOGS_FILE); simpl; split; [reflexivity| |reflexivity|]].
    + by destruct (contains EM_DASH first).
    + intros s ok Hin. repeat (apply elem_of_cons in Hin as [Heq|Hin]; [by simplify_eq|]).
      by apply elem_of_nil in Hin.
    + intros s ok Hin. repeat (apply elem_of_cons in Hin as [Heq|Hin]; [by simplify_eq|]).
      by apply elem_of_nil in Hin.
  - split; [done|]. intros e Hin. repeat (apply elem_of_cons in Hin as [->|Hin]; [eauto|]).
    by apply elem_of_nil in Hin.
Qed.

Lemma main_newlog_stories (m m' : mem) (w w' : world) (t : list event) :
  main_newlog m w = (Ok m', w', t) →
  stories m' = stories m ∨
  ∃ lines, stories m' = <[next_log_id (stories m) := lines]> (stories m).
Proof.
  intros Hrun. pose proof (main_newlog_run m w) as H. unfold result in H. rewrite Hrun in H.
  destruct (read_lines (stdin w)) as [[[|first others] rest]|]; simpl in H.
  - destruct H as [[= ->] _]. by left.
  - destruct H as (lines & _ & Hres & _).
    destruct (writable (fs w) LOGS_FILE); [|done]. injection Hres as ->. right. by exists lines.
  - by destruct H.
Qed.

Lemma main_deletelog_stories (arg : string) (m m' : mem) (w w' : world) (t : list event) :
  main_deletelog arg m w = (Ok m', w', t) →
  stories m' = stories m ∨ ∃ k, stories m' = delete k (stories m).
Proof.
  unfold main_deletelog, save_logs. run_M.
  destruct (nonempty arg); simpl; [|intros [= <-]; by left].
  destruct (py_int arg) as [k|]; simpl; [|intros [= <-]; by left].
  destruct (stories m !! k); simpl; [|intros [= <-]; by left].
  destruct (stdin w) as [|line rest]; simpl; [done|].
  destruct (String.eqb (strip line) (py_str k)); simpl; [|intros [= <-]; by left].
  rewrite save_json_file_run. simpl.
  destruct (writable (fs w) LOGS_FILE); simpl; [|done].
  intros [= <-]. right. by exists k.
Qed.

Lemma log_sequence_positive (m0 m : mem) :
  ids_positive (stories m0) → log_sequence m0 m → ids_positive (stories m).
Proof.
  intros Hpos Hseq. induction Hseq as [|m1 m2 w w' t _ IH Hrun|arg m1 m2 w w' t _ IH Hrun].
  - done.
  - apply main_newlog_stories in Hrun as [->|[lines ->]]; [done|].
    intros k [v Hk]. destruct (decide (k = next_log_id (stories m1))) as [->|Hne].
    + by apply next_log_id_positive.
    + rewrite lookup_insert_ne in Hk by done. apply IH. by exists v.
  - apply main_deletelog_stories in Hrun as [->|[k' ->]]; [done|].
    intros k [v Hk]. apply IH. exists v.
    by apply lookup_delete_Some in Hk as [_ ?].
Qed.

(** C5. After any sequence of log creations and deletions on a store
    with positive ids, the ids are positive and the entry that [newlog]
    creates next gets the id 1 when no logs remain and one more than the
    greatest existing id otherwise: a positive id above every existing
    one. *)
Theorem log_id_allocation (m0 m : mem) (w : world) :
  ids_positive (stories m0) →
  log_sequence m0 m →
  ids_positive (stories m) ∧
  ∀ saved ok,
    Saved LOGS_FILE (DLogs saved) ok ∈ trace (main_newlog m) w →
    ∃ id lines,
      saved = <[id := lines]> (stories m) ∧ lines ≠ [] ∧
      (0 < id)%Z ∧
      (∀ k, is_Some (stories m !! k) → (k < id)%Z) ∧
      (stories m = ∅ → id = 1%Z) ∧
      (stories m ≠ ∅ →
       ∃ k, is_Some (stories m !! k) ∧
            (∀ j, is_Some (stories m !! j) → (j ≤ k)%Z) ∧ id = (k + 1)%Z) ∧
      (ok = true → result (main_newlog m) w = Ok (set_stories saved m)).
Proof.
  intros Hpos0 Hseq.
  pose proof (log_sequence_positive m0 m Hpos0 Hseq) as Hpos. split; [done|].
  intros saved ok Hin. pose proof (main_newlog_run m w) as Hrun.
  destruct (read_lines (stdin w)) as [[[|first others] rest]|].
  - destruct Hrun as [_ Hout]. destruct (Hout _ Hin) as [text [?|?]]; done.
  - destruct Hrun as (lines & Hlines & Hres & Hsaved).
    destruct (Hsaved _ _ Hin) as [-> ->].
    exists (next_log_id (stories m)), lines.
    split; [done|]. split; [done|].
    split; [by apply next_log_id_positive|].
    split; [apply next_log_id_fresh|].
    split; [|split].
    + intros Hempty. destruct (next_log_id_spec (stories m)) as [[_ ?]|[? _]]; done.
    + intros Hne. destruct (next_log_id_spec (stories m)) as [[? _]|[_ ?]]; done.
    + intros Hw. by rewrite Hres, Hw.
  - destruct Hrun as [_ Hout]. destruct (Hout _ Hin) as [text ?]; done.
Qed.

Lemma seed_ids_positive : ids_positive (stories seed_mem).
Proof.
  intros k Hk. apply keys_spec, list_elem_of_In in Hk.
  vm_compute in Hk. intuition lia.
Qed.

Lemma log_id_allocation_witness :
  let m := set_stories (delete 2%Z seed_stories) seed_mem in
  let w := session_world ["written after the deletion"; "end"] in
  ids_positive (stories m) ∧
  ∃ id lines,
    (0 < id)%Z ∧
    (∀ k, is_Some (stories m !! k) → (k < id)%Z) ∧
    Saved LOGS_FILE (DLogs (<[id := lines]> (stories m))) true
      ∈ trace (main_newlog m) w.
Proof.
  intros m w.
  assert (Hseq : log_sequence seed_mem m).
  { eapply (log_sequence_deletelog seed_mem "2" seed_mem m (session_world ["2"])).
    - apply log_sequence_nil.
    - vm_compute. reflexivity. }
  destruct (log_id_allocation seed_mem m w seed_ids_positive Hseq) as [Hpos Hnext].
  split; [exact Hpos|].
  assert (Hin : Saved LOGS_FILE
                  (DLogs (<[4%Z := [dated (strftime_date 7) "written after the deletion"]]>
                            (stories m))) true ∈ trace (main_newlog m) w).
  { vm_compute. apply list_elem_of_further, list_elem_of_further, list_elem_of_further,
      list_elem_of_here. }
  destruct (Hnext _ _ Hin) as (id & lines & Heq & _ & Hid & Hfresh & _).
  exists id, lines. split; [exact Hid|]. split; [exact Hfresh|].
  rewrite <- Heq. exact Hin.
Defined.

(** The greatest id is handed out again once its entry is deleted; an
    id below the greatest one never is. *)
Example newlog_after_deletions :
  result (main_newlog (set_stories (delete 3%Z seed_stories) seed_mem))
         (session_world ["x"; "END"]) =
    Ok (set_stories (<[3%Z := [dated (strftime_date 7) "x"]]> (delete 3%Z seed_stories))
          seed_mem) ∧
  result (main_newlog (set_stories (delete 1%Z seed_stories) seed_mem))
         (session_world ["x"; "END"]) =
    Ok (set_stories (<[4%Z := [dated (strftime_date 7) "x"]]> (delete 1%Z seed_stories))
          seed_mem).
Proof. split; vm_compute; reflexivity. Qed.

(** ** Failed saves *)

Lemma run_eta {A : Type} (c : M A) (w : world) :
  c w = (result c w, final c w, trace c w).
Proof. unfold result, final, trace. by destruct (c w) as [[r w'] t]. Qed.

Lemma fatal_silent {A : Type} (c : M A) :
  (∀ w, trace c w = []) → fatal c.
Proof. intros Hc w f d Hin. rewrite Hc in Hin. by apply elem_of_nil in Hin. Qed.

Lemma fatal_ret {A : Type} (a : A) : fatal (mret a : M A).
Proof. by apply fatal_silent. Qed.

Lemma fatal_raise {A : Type} (e : exn) : fatal (raise e : M A).
Proof. by apply fatal_silent. Qed.

Lemma fatal_emit (e : event) : ¬ failed_save e → fatal (emit e).
Proof.
  intros He w f d Hin. unfold trace, emit in Hin. simpl in Hin.
  apply list_elem_of_singleton in Hin as <-. destruct He. by exists f, d.
Qed.

Lemma fatal_bind {A B : Type} (c : M A) (k : A → M B) :
  fatal c → (∀ a, fatal (k a)) → fatal (c ≫= k).
Proof.
  intros Hc Hk w f d. specialize (Hc w). unfold fatal_at, trace, result in *.
  unfold mbind, M_bind. destruct (c w) as [[[a|e] w1] t1] eqn:Hcw; simpl in *.
  - specialize (Hk a w1). unfold fatal_at, trace, result in Hk.
    destruct (k a w1) as [[r w2] t2]; simpl in *.
    intros [Hin|Hin]%elem_of_app.
    + by destruct (Hc f d Hin) as [? _].
    + destruct (Hk f d Hin) as (-> & pre & -> & Hpre). split; [done|].
      exists (t1 ++ pre). split; [by rewrite app_assoc|].
      intros e [He|He]%elem_of_app; [|by apply Hpre].
      intros (f' & d' & ->). by destruct (Hc f' d' He) as [? _].
  - intros Hin. destruct (Hc f d Hin) as ([= ->] & Hpre). by split.
Qed.

Lemma fatal_fmap {A B : Type} (g : A → B) (c : M A) : fatal c → fatal (g <$> c).
Proof.
  intros Hc w f d. specialize (Hc w f d). unfold fatal_at, trace, result in *.
  unfold fmap, M_fmap. destruct (c w) as [[[a|e] w1] t1]; simpl in *; intros Hin;
    destruct (Hc Hin) as (Hr & Hpre); [done|].
  injection Hr as ->. by split.
Qed.

Lemma fatal_save_json_file (f : store) (d : fdata) : fatal (save_json_file f d).
Proof.
  intros w f' d'. unfold trace, result. rewrite save_json_file_run.
  destruct (writable (fs w) f); simpl.
  - intros Hin. apply list_elem_of_singleton in Hin. discriminate.
  - intros Hin. apply elem_of_cons in Hin as [[= <- <-]|Hin].
    + split; [done|]. exists []. split; [done|]. intros e He. by apply elem_of_nil in He.
    + apply list_elem_of_singleton in Hin. discriminate.
Qed.

Lemma fatal_load_json_file {A : Type} (f : store) (c : fstate A) (d : A) :
  fatal (load_json_file f c d).
Proof.
  intros w f' d'. unfold trace. rewrite load_json_file_run. simpl.
  intros (? & ?)%corrupt_warning_err. discriminate.
Qed.

Lemma not_failed_Out (s : string) : ¬ failed_save (Out s).
Proof. intros (? & ? & ?). discriminate. Qed.
Lemma not_failed_Err (s : string) : ¬ failed_save (Err s).
Proof. intros (? & ? & ?). discriminate. Qed.
Lemma not_failed_other (e : event) :
  match e with Saved _ _ false => False | _ => True end → ¬ failed_save e.
Proof. intros He (? & ? & ->). done. Qed.

Create HintDb handlers.

#[local] Hint Unfold
  pause_print print print_error
  load_profiles save_profiles load_logs save_logs load_projects save_projects
  load_session_history save_session_history record_session_event
  mark_logged_in get_logged_in_user clear_session show_session_history
  projects_list_command project_view_command project_add_command
  project_edit_command project_delete_command task_add_command
  task_update_command task_delete_command export_all_data
  main_login main_logout main_logbook main_loglist main_newlog main_editlog
  main_deletelog main_exportlogs main_profileslist main_profilesview
  main_profilesadd main_profilesedit main_profilesdelete main_searchprofile
  main_taskadd main_clear who_am_i_command end_session continue_with
  : handlers.

(** Decomposes a handler along its binds and branches. *)
Ltac fatal_step :=
  lazymatch goal with
  | |- fatal (mret _) => apply fatal_ret
  | |- fatal (raise _) => apply fatal_raise
  | |- fatal (emit _) => apply fatal_emit, not_failed_other; exact I
  | |- fatal (save_json_file _ _) => apply fatal_save_json_file
  | |- fatal (load_json_file _ _ _) => apply fatal_load_json_file
  | |- fatal (_ ≫= _) => apply fatal_bind; [|intros ?]
  | |- fatal (_ <$> _) => apply fatal_fmap
  | |- fatal prompt_input => apply fatal_silent; intros w; unfold trace, prompt_input;
                             by destruct (stdin w)
  | |- fatal prompt_getpass => apply fatal_silent; intros w;
                               unfold trace, prompt_getpass, prompt_input;
                               by destruct (stdin w)
  | |- fatal read_entry_lines => apply fatal_silent; intros w;
                                 unfold trace, read_entry_lines;
                                 by destruct (read_lines (stdin w)) as [[??]|]
  | |- fatal now => by apply fatal_silent
  | |- fatal get_world => by apply fatal_silent
  | |- fatal (put_world _) => by apply fatal_silent
  | |- fatal (modify _) => by apply fatal_silent
  | |- fatal (lift_res _) => by apply fatal_silent
  | |- fatal (if ?b then _ else _) => destruct b
  | |- fatal (match ?x with _ => _ end) => destruct x
  | |- fatal (let _ := _ in _) => cbv zeta
  | |- fatal _ => progress autounfold with handlers
  end.

Ltac fatal_tac := repeat fatal_step.

Lemma find_command_elem (base : string) table h :
  find_command base table = Some h → (base, h) ∈ table.
Proof.
  induction table as [|[name h'] table IH]; [done|].
  unfold find_command; fold find_command.
  destruct (String.eqb_spec base name) as [->|Hne].
  - intros [= ->]. apply list_elem_of_here.
  - intros Hf. by apply list_elem_of_further, IH.
Qed.

(** Every branch of the command chain but [importdata] lets a failed
    save through. *)
Lemma commands_fatal (name : string) h (arg : string) (m : mem) :
  (name, h) ∈ commands → name ≠ "importdata" → fatal (h arg m).
Proof.
  unfold commands. intros Hin Hne.
  repeat (apply elem_of_cons in Hin as [[= -> ->]|Hin]; [try done; fatal_tac|]).
  by apply elem_of_nil in Hin.
Qed.

Lemma dispatch_fatal (command_raw : string) (m : mem) :
  base_command command_raw ≠ "importdata" → fatal (dispatch command_raw m).
Proof.
  intros Hne. unfold dispatch. cbv zeta. apply fatal_bind; [fatal_tac|]. intros w.
  destruct (negb (logged_in w) && _); [fatal_tac|].
  destruct (find_command (base_command command_raw) commands) as [h|] eqn:Hf.
  - eapply commands_fatal; [by apply find_command_elem|done].
  - destruct (String.eqb command_raw "hyprctl dispatch exit"); fatal_tac.
Qed.

(** What the [except] clause does. *)
Lemma error_exit_run (e : exn) (w : world) :
  let entry := history_entry (S (clock w)) (user_or_unknown w) "Error Exit"
                 (current_session_start_time w) (Some (clock w)) in
  let h := history_on_disk (fs w) ++ [entry] in
  let warn := corrupt_warning SESSION_HISTORY_FILE (session_history_json (fs w)) in
  error_exit e w =
    if writable (fs w) SESSION_HISTORY_FILE
    then (Ok (Some ErrorExited),
          set_fs (put_data (DHistory h) (fs w)) (set_clock (S (S (clock w))) w),
          Err ("An unexpected error occurred: " +:+ exn_name e) ::
          warn ++ [Saved SESSION_HISTORY_FILE (DHistory h) true])
    else (Raise IOError,
          set_fs (failed_write SESSION_HISTORY_FILE (DHistory h) (fs w))
            (set_clock (S (S (clock w))) w),
          Err ("An unexpected error occurred: " +:+ exn_name e) ::
          warn ++ [Saved SESSION_HISTORY_FILE (DHistory h) false;
                   write_error SESSION_HISTORY_FILE]).
Proof.
  unfold error_exit. run_M. simpl. rewrite record_session_event_run. simpl.
  destruct (writable (fs w) SESSION_HISTORY_FILE); simpl; by rewrite ?app_nil_r.
Qed.

(** An exception that leaves the first iteration is handled by the
    [except] clause, and nothing else runs. *)
Lemma main_try_raise (fuel : nat) (m : mem) (w : world) (e : exn) :
  result (iteration m) w = Raise e →
  main_try (S fuel) m w =
    (result (error_exit e) (final (iteration m) w),
     final (error_exit e) (final (iteration m) w),
     trace (iteration m) w ++ trace (error_exit e) (final (iteration m) w)).
Proof.
  intros Hr. unfold main_try, try_except. cbn [loop]. unfold mbind at 1, M_bind at 1.
  rewrite (run_eta (iteration m) w), Hr.
  by rewrite (run_eta (error_exit e) (final (iteration m) w)).
Qed.

(** X25. In every command but [importdata] a failed store save is fatal:
    the [IOError] leaves the iteration with the failed save and its
    error line as the last events and no earlier failed save (nothing is
    retried); the loop reads no further line; the [except] clause prints
    the error and tries to append the "Error Exit" entry, which is
    stored when the history file can be written, and otherwise fails in
    turn and leaves [main] as an exception. *)
Theorem save_failure_is_fatal (fuel : nat) (m : mem) (w : world)
    (line : string) (rest : list string) (f : store) (d : fdata) :
  stdin w = line :: rest →
  base_command (strip line) ≠ "importdata" →
  Saved f d false ∈ trace (iteration m) w →
  let w1 := final (iteration m) w in
  let entry := history_entry (S (clock w1)) (user_or_unknown w1) "Error Exit"
                 (current_session_start_time w1) (Some (clock w1)) in
  let record := Saved SESSION_HISTORY_FILE
                  (DHistory (history_on_disk (fs w1) ++ [entry]))
                  (writable (fs w1) SESSION_HISTORY_FILE) in
  result (iteration m) w = Raise IOError ∧
  (∃ pre, trace (iteration m) w = pre ++ [Saved f d false; write_error f] ∧
          ∀ e, e ∈ pre → ¬ failed_save e) ∧
  (∃ t2, trace (main_try (S fuel) m) w = trace (iteration m) w ++ t2 ∧
         record ∈ t2 ∧ ∀ e, e ∈ t2 → e = record ∨ ∃ text, e = Err text) ∧
  result (main_try (S fuel) m) w =
    (if writable (fs w1) SESSION_HISTORY_FILE
     then Ok (Some ErrorExited) else Raise IOError) ∧
  stdin (final (main_try (S fuel) m) w) = stdin w1 ∧
  (writable (fs w1) SESSION_HISTORY_FILE = true →
   session_history_json (fs (final (main_try (S fuel) m) w)) =
     Content (history_on_disk (fs w1) ++ [entry])).
Proof.
  intros Hin Hcmd Hfail w1 entry record.
  assert (Hfatal : fatal_at (iteration m) w).
  { unfold fatal_at, trace, result. rewrite (iteration_unfold _ _ _ _ Hin).
    by apply dispatch_fatal. }
  destruct (Hfatal f d Hfail) as [Hraise Hpre].
  split; [done|]. split; [done|].
  pose proof (main_try_raise fuel m w IOError Hraise) as Hmain.
  fold w1 in Hmain. unfold result at 1, final at 1, trace at 2 in Hmain.
  rewrite (error_exit_run IOError w1) in Hmain. fold entry in Hmain. cbv zeta in Hmain.
  assert (Hr : result (main_try (S fuel) m) w = (main_try (S fuel) m w).1.1) by done.
  assert (Hf : final (main_try (S fuel) m) w = (main_try (S fuel) m w).1.2) by done.
  assert (Ht : trace (main_try (S fuel) m) w = (main_try (S fuel) m w).2) by done.
  rewrite Hr, Hf, Ht, Hmain. clear Hr Hf Ht Hmain. subst record.
  destruct (writable (fs w1) SESSION_HISTORY_FILE) eqn:Hw; simpl.
  - split; [|done]. eexists. split; [reflexivity|]. split; [in_trace|].
    intros e [->|[(? & ->)%corrupt_warning_err| ->%list_elem_of_singleton]%elem_of_app]%elem_of_cons;
      eauto.
  - split; [|done]. eexists. split; [reflexivity|]. split; [in_trace|].
    intros e [->|[(? & ->)%corrupt_warning_err|
                  [->| ->%list_elem_of_singleton]%elem_of_cons]%elem_of_app]%elem_of_cons;
      eauto.
Qed.

(** C8 (the code departs from it). With [profiles.json] read-only,
    [importdata] meets the failed save of the profiles: [save_json_file]
    reports it and re-raises the [IOError] for the handler of the main
    loop, but the handler of [import_all_data] catches it first, and the
    iteration ends normally, so the loop goes on. In every other command
    the same failure ends the loop. *)
Theorem import_swallows_failed_save :
  let w := readonly_profiles_world ["importdata"; "snap.json"] in
  let failed := Saved PROFILES_FILE
                  (DProfiles (<["P-9" := new_profile]> (profiles seed_mem))) false in
  failed ∈ trace (iteration seed_mem) w ∧
  (∃ m', result (iteration seed_mem) w = Ok (Continue m')) ∧
  ¬ save_failures_fatal.
Proof.
  intros w failed. split; [compute_done|]. split.
  { eexists. vm_compute. reflexivity. }
  intros H. destruct (H seed_mem w failed) as [x Hx].
  - compute_done.
  - by exists PROFILES_FILE, (DProfiles (<["P-9" := new_profile]> (profiles seed_mem))).
  - vm_compute in Hx. discriminate.
Qed.

Lemma save_failure_is_fatal_witness :
  let w := readonly_projects_world ["projectdelete PROJ-001"; "y"; "loglist"] in
  result (main_try 5 seed_mem) w = Ok (Some ErrorExited) ∧
  stdin (final (main_try 5 seed_mem) w) = ["loglist"].
Proof.
  intros w.
  destruct (save_failure_is_fatal 4 seed_mem w "projectdelete PROJ-001" ["y"; "loglist"]
              PROJECTS_FILE (DProjects (delete "PROJ-001" (projects seed_mem))))
    as (_ & _ & _ & Hres & Hstdin & _).
  - reflexivity.
  - vm_compute. discriminate.
  - compute_done.
  - split; [exact Hres|exact Hstdin].
Defined.

(** The handler of the import catches every exception of its block. *)
Lemma import_guard_ok (m : mem) (body : M mem) (w : world) :
  ∃ m', result (import_guard m body) w = Ok m'.
Proof.
  unfold result, import_guard, try_except. run_M.
  destruct (body w) as [[[m'|e] w1] t1]; simpl; eauto.
Qed.

Lemma import_profiles_stage_ok (m : mem) (imported_data : snapshot) (w : world) :
  ∃ m', result (import_profiles_stage m imported_data) w = Ok m'.
Proof. unfold import_profiles_stage. apply import_guard_ok. Qed.

(** [importdata] never lets the [IOError] of a failed save out of the
    iteration: what leaves it is the [EOFError] of the file-name prompt or
    the [ValueError] of the reload of the logs. *)
Lemma importdata_goes_on (rest : list string) (m : mem) (w : world) :
  stdin w = "importdata" :: rest →
  result (iteration m) w ≠ Raise IOError.
Proof.
  intros Hin. unfold result. rewrite (iteration_unfold _ _ _ _ Hin).
  change (strip "importdata") with "importdata".
  rewrite (dispatch_guest "importdata" _ _ (λ _ m, Continue <$> main_importdata m))
    by (done || compute_done).
  unfold main_importdata, import_all_data, load_session_history, load_profiles,
    load_logs, load_projects. run_M. simpl.
  rewrite !load_json_file_run. simpl.
  destruct rest as [|name rest]; simpl; [done|].
  destruct (nonempty (strip name)); simpl.
  - destruct (other_files (fs w) !! strip name) as [[s| |]|]; simpl.
    + match goal with
      | |- context [import_profiles_stage ?m ?s ?w] =>
          destruct (import_profiles_stage_ok m s w) as [m' Hm'];
          unfold result in Hm';
          destruct (import_profiles_stage m s w) as [[r w1] t1]; simpl in Hm'; subst r
      end.
      simpl. rewrite !load_json_file_run. simpl.
      destruct (int_keys _ _); simpl; [|done]. by rewrite !load_json_file_run.
    + rewrite !load_json_file_run. simpl.
      destruct (int_keys _ _); simpl; [|done]. by rewrite !load_json_file_run.
    + rewrite !load_json_file_run. simpl.
      destruct (int_keys _ _); simpl; [|done]. by rewrite !load_json_file_run.
    + rewrite !load_json_file_run. simpl.
      destruct (int_keys _ _); simpl; [|done]. by rewrite !load_json_file_run.
  - rewrite !load_json_file_run. simpl.
    destruct (int_keys _ _); simpl; [|done]. by rewrite !load_json_file_run.
Qed.

(** ** Reconciliation: the pure part *)

(** *** Profiles and logs: local wins *)

Lemma import_entries_union {K V : Type} `{Countable K}
    (entries : list (K * V)) (local : gmap K V) (n k : nat) :
  (foldl import_entry (local, n, k) entries).1.1 = local ∪ list_to_map entries.
Proof.
  revert local n k. induction entries as [|[i x] entries IH]; intros local n k.
  - simpl. by rewrite (right_id_L ∅ (∪)).
  - cbn [foldl list_to_map]. unfold import_entry at 2. simpl.
    destruct (local !! i) as [y|] eqn:Hi; rewrite IH.
    + apply map_eq. intros j. rewrite !lookup_union.
      destruct (decide (i = j)) as [<-|Hne].
      * rewrite Hi, lookup_insert_eq. by destruct (list_to_map entries !! i).
      * by rewrite lookup_insert_ne.
    + apply map_eq. intros j. rewrite !lookup_union.
      destruct (decide (i = j)) as [<-|Hne].
      * rewrite Hi, !lookup_insert_eq. by destruct (list_to_map entries !! i).
      * by rewrite !lookup_insert_ne.
Qed.

(** The profile loop and the log loop compute the union in which the
    local entries win. *)
Lemma import_entries_map {K V : Type} `{Countable K} (local imported : gmap K V) :
  (import_entries local (map_to_list imported)).1.1 = local ∪ imported.
Proof. unfold import_entries. by rewrite import_entries_union, list_to_map_to_list. Qed.

Lemma import_entries_again {K V : Type} `{Countable K} (local imported : gmap K V) :
  (import_entries (import_entries local (map_to_list imported)).1.1
     (map_to_list imported)).1.1 =
  (import_entries local (map_to_list imported)).1.1.
Proof.
  rewrite !import_entries_map, <- (assoc_L (∪)). by rewrite (idemp_L (∪)).
Qed.

(** *** Session history: exact duplicates are dropped *)

Lemma import_history_app (imported current : list jobj) (n : nat) :
  ∃ added, (foldl import_history_entry (current, n) imported).1 = current ++ added ∧
           ∀ e, e ∈ imported → e ∈ current ++ added.
Proof.
  revert current n. induction imported as [|e imported IH]; intros current n.
  - exists []. split; [by rewrite app_nil_r|]. intros e He. by apply elem_of_nil in He.
  - cbn [foldl]. unfold import_history_entry at 2. simpl. case_bool_decide as He.
    + destruct (IH current n) as (added & -> & Hall). exists added. split; [done|].
      intros e' [->|He']%elem_of_cons; [apply elem_of_app; by left|by apply Hall].
    + destruct (IH (current ++ [e]) (S n)) as (added & -> & Hall).
      exists (e :: added). rewrite <- app_assoc. split; [done|].
      intros e' [->|He']%elem_of_cons.
      * apply elem_of_app. right. apply list_elem_of_here.
      * specialize (Hall e' He'). by rewrite <- app_assoc in Hall.
Qed.

Lemma import_history_present (imported current : list jobj) (n : nat) :
  (∀ e, e ∈ imported → e ∈ current) →
  foldl import_history_entry (current, n) imported = (current, n).
Proof.
  induction imported as [|e imported IH]; intros Hall; [done|].
  cbn [foldl]. unfold import_history_entry at 2. simpl.
  rewrite bool_decide_eq_true_2 by (apply Hall, list_elem_of_here).
  apply IH. intros e' He'. by apply Hall, list_elem_of_further.
Qed.

(** A second pass over the imported history appends nothing. *)
Lemma import_history_again (current imported : list jobj) :
  (import_history (import_history current imported).1 imported).1 =
  (import_history current imported).1.
Proof.
  unfold import_history.
  destruct (import_history_app imported current 0) as (added & Heq & Hall).
  rewrite Heq. by rewrite import_history_present.
Qed.

(** *** The ordered dictionary *)

Lemma od_get_set_eq (k : jval) (v : jobj) (d : odict) :
  od_get k (od_set k v d) = Some v.
Proof.
  induction d as [|[k' v'] d IH]; simpl.
  - by rewrite decide_True.
  - destruct (decide (k = k')) as [->|Hne]; simpl.
    + by rewrite decide_True.
    + by rewrite decide_False.
Qed.

Lemma od_get_set_ne (k k' : jval) (v : jobj) (d : odict) :
  k ≠ k' → od_get k (od_set k' v d) = od_get k d.
Proof.
  intros Hne. induction d as [|[k'' v''] d IH]; simpl.
  - by rewrite decide_False.
  - destruct (decide (k' = k'')) as [->|Hne']; simpl.
    + by rewrite !decide_False.
    + destruct (decide (k = k'')); [done|apply IH].
Qed.

Lemma od_set_same (k : jval) (v : jobj) (d : odict) :
  od_get k d = Some v → od_set k v d = d.
Proof.
  induction d as [|[k' v'] d IH]; simpl; [done|].
  destruct (decide (k = k')) as [->|Hne]; [by intros [= ->]|].
  intros Hd. by rewrite IH.
Qed.

Lemma od_get_None (k : jval) (d : odict) : od_get k d = None ↔ k ∉ d.*1.
Proof.
  induction d as [|[k' v'] d IH]; csimpl.
  - split; [intros _; apply not_elem_of_nil|done].
  - rewrite not_elem_of_cons. destruct (decide (k = k')) as [->|Hne].
    + split; [done|]. by intros [? _].
    + rewrite IH. tauto.
Qed.

Lemma od_get_Some_elem (k : jval) (v : jobj) (d : odict) :
  od_get k d = Some v → (k, v) ∈ d.
Proof.
  induction d as [|[k' v'] d IH]; csimpl; [done|].
  destruct (decide (k = k')) as [->|Hne].
  - intros [= ->]. apply list_elem_of_here.
  - intros Hd. by apply list_elem_of_further, IH.
Qed.

Lemma od_set_new (k : jval) (v : jobj) (d : odict) :
  k ∉ d.*1 → od_set k v d = d ++ [(k, v)].
Proof.
  induction d as [|[k' v'] d IH]; csimpl; [done|].
  rewrite not_elem_of_cons. intros [Hne Hd]. by rewrite decide_False, IH.
Qed.

Lemma od_set_keys_old (k : jval) (v : jobj) (d : odict) :
  k ∈ d.*1 → (od_set k v d).*1 = d.*1.
Proof.
  induction d as [|[k' v'] d IH]; csimpl; [by intros ?%elem_of_nil|].
  destruct (decide (k = k')) as [->|Hne]; [done|].
  intros [?|Hd]%elem_of_cons; [done|]. csimpl. by rewrite IH.
Qed.

Lemma od_set_app_l (k : jval) (v : jobj) (d1 d2 : odict) :
  k ∈ d1.*1 → od_set k v (d1 ++ d2) = od_set k v d1 ++ d2.
Proof.
  induction d1 as [|[k' v'] d1 IH]; csimpl; [by intros ?%elem_of_nil|].
  destruct (decide (k = k')) as [->|Hne]; [done|].
  intros [?|Hd]%elem_of_cons; [done|]. by rewrite IH.
Qed.

Lemma od_get_app_l (k : jval) (d1 d2 : odict) :
  k ∈ d1.*1 → od_get k (d1 ++ d2) = od_get k d1.
Proof.
  induction d1 as [|[k' v'] d1 IH]; csimpl; [by intros ?%elem_of_nil|].
  destruct (decide (k = k')) as [->|Hne]; [done|].
  intros [?|Hd]%elem_of_cons; [done|]. by apply IH.
Qed.

Lemma od_set_NoDup (k : jval) (v : jobj) (d : odict) :
  NoDup d.*1 → NoDup (od_set k v d).*1.
Proof.
  intros Hd. destruct (decide (k ∈ d.*1)) as [Hin|Hout].
  - by rewrite od_set_keys_old.
  - rewrite od_set_new, fmap_app by done. csimpl.
    apply NoDup_app. split; [done|]. split; [|apply NoDup_singleton].
    intros x Hx ->%list_elem_of_singleton. done.
Qed.

Lemma od_set_keyed (k : jval) (v : jobj) (d : odict) :
  get v "TaskID" = k → keyed d → keyed (od_set k v d).
Proof.
  intros Hv. induction d as [|[k' v'] d IH]; intros Hd k0 v0; csimpl.
  - by intros [= -> ->]%list_elem_of_singleton.
  - destruct (decide (k = k')) as [->|Hne].
    + intros [[= -> ->]|Hin]%elem_of_cons; [done|]. by apply Hd, list_elem_of_further.
    + intros [[= -> ->]|Hin]%elem_of_cons; [apply Hd, list_elem_of_here|].
      apply IH; [|done]. intros k1 v1 H1. by apply Hd, list_elem_of_further.
Qed.

(** *** The task loop *)

Lemma import_task_fst (acc : odict * nat * nat) (t : jobj) :
  (import_task acc t).1.1 = import_task_map acc.1.1 t.
Proof.
  unfold import_task_map, import_task. simpl.
  by destruct (if truthy (get t "TaskID") then od_get (get t "TaskID") acc.1.1 else None).
Qed.

Lemma foldl_import_task_fst (tasks : list jobj) (acc : odict * nat * nat) :
  (foldl import_task acc tasks).1.1 = foldl import_task_map acc.1.1 tasks.
Proof.
  revert acc. induction tasks as [|t tasks IH]; intros acc; [done|].
  cbn [foldl]. by rewrite IH, import_task_fst.
Qed.

Lemma merge_tasks_fold (local imported : list jobj) :
  merge_tasks local imported =
    od_values (foldl import_task_map (tasks_map local) imported).
Proof. unfold merge_tasks. by rewrite foldl_import_task_fst. Qed.

Lemma import_task_map_set (d : odict) (t : jobj) :
  import_task_map d t =
    od_set (get t "TaskID") (merged (od_get (get t "TaskID") d) t) d.
Proof.
  unfold import_task_map, import_task, merged. simpl.
  by destruct (if truthy (get t "TaskID") then od_get (get t "TaskID") d else None).
Qed.

(** A truthy id is a [TaskID] that is present. *)
Lemma truthy_present (t : jobj) :
  truthy (get t "TaskID") = true → t !! "TaskID" = Some (get t "TaskID").
Proof. unfold get. by destruct (t !! "TaskID"). Qed.

Lemma merged_id (current : option jobj) (t : jobj) :
  get (merged current t) "TaskID" = get t "TaskID".
Proof.
  unfold merged. destruct (truthy (get t "TaskID")) eqn:Ht; [|done].
  destruct current as [c|]; [|done].
  unfold update, get at 1. by rewrite (lookup_union_Some_l _ _ _ _ (truthy_present t Ht)).
Qed.

Lemma merged_again (current : option jobj) (t : jobj) :
  merged (Some (merged current t)) t = merged current t.
Proof.
  unfold merged. destruct (truthy (get t "TaskID")); [|done].
  destruct current as [c|]; unfold update.
  - by rewrite (assoc_L (∪)), (idemp_L (∪)).
  - by rewrite (idemp_L (∪)).
Qed.

Lemma merged_self (t : jobj) : merged (Some t) t = t.
Proof.
  unfold merged. destruct (truthy (get t "TaskID")); [|done].
  unfold update. by rewrite (idemp_L (∪)).
Qed.

(** The imported task's fields are in the merged task. *)
Lemma merged_subseteq (current : option jobj) (t : jobj) : t ⊆ merged current t.
Proof.
  unfold merged. destruct (truthy (get t "TaskID")); [|done].
  destruct current as [c|]; [|done]. apply map_union_subseteq_l.
Qed.

Lemma fold_preserves_get (k : jval) (tasks : list jobj) (d : odict) :
  k ∉ task_ids tasks →
  od_get k (foldl import_task_map d tasks) = od_get k d.
Proof.
  revert d. induction tasks as [|t tasks IH]; intros d; [done|].
  unfold task_ids. rewrite fmap_cons, not_elem_of_cons. intros [Hne Hk].
  cbn [foldl]. rewrite IH by done. rewrite import_task_map_set.
  by apply od_get_set_ne.
Qed.

(** With distinct imported ids, the value under the id of an imported
    task is the merge of that task with what the dictionary held. *)
Lemma fold_get_imported (tasks : list jobj) (d : odict) (t : jobj) :
  NoDup (task_ids tasks) → t ∈ tasks →
  od_get (get t "TaskID") (foldl import_task_map d tasks) =
    Some (merged (od_get (get t "TaskID") d) t).
Proof.
  intros Hnd (l1 & l2 & ->)%list_elem_of_split.
  unfold task_ids in Hnd. rewrite fmap_app, fmap_cons in Hnd.
  apply NoDup_app in Hnd as (_ & Hl1 & [Hl2 _]%NoDup_cons).
  rewrite foldl_app. cbn [foldl]. rewrite fold_preserves_get by done.
  rewrite import_task_map_set, od_get_set_eq.
  rewrite fold_preserves_get; [done|].
  intros Hin. eapply Hl1; [exact Hin|apply list_elem_of_here].
Qed.

Lemma fold_keyed (tasks : list jobj) (d : odict) :
  keyed d → keyed (foldl import_task_map d tasks).
Proof.
  revert d. induction tasks as [|t tasks IH]; intros d Hd; [done|].
  cbn [foldl]. apply IH. rewrite import_task_map_set.
  apply od_set_keyed; [apply merged_id|done].
Qed.

Lemma fold_NoDup (tasks : list jobj) (d : odict) :
  NoDup d.*1 → NoDup (foldl import_task_map d tasks).*1.
Proof.
  revert d. induction tasks as [|t tasks IH]; intros d Hd; [done|].
  cbn [foldl]. apply IH. rewrite import_task_map_set. by apply od_set_NoDup.
Qed.

Lemma tasks_map_from_keyed (d0 : odict) (tasks : list jobj) :
  keyed d0 → keyed (foldl (λ d t, od_set (get t "TaskID") t d) d0 tasks).
Proof.
  revert d0. induction tasks as [|t tasks IH]; intros d0 Hd; [done|].
  cbn [foldl]. apply IH. by apply od_set_keyed.
Qed.

Lemma tasks_map_from_NoDup (d0 : odict) (tasks : list jobj) :
  NoDup d0.*1 → NoDup (foldl (λ d t, od_set (get t "TaskID") t d) d0 tasks).*1.
Proof.
  revert d0. induction tasks as [|t tasks IH]; intros d0 Hd; [done|].
  cbn [foldl]. apply IH. by apply od_set_NoDup.
Qed.

Lemma tasks_map_keyed (tasks : list jobj) : keyed (tasks_map tasks).
Proof. apply tasks_map_from_keyed. intros k v Hin. by apply elem_of_nil in Hin. Qed.

Lemma tasks_map_NoDup (tasks : list jobj) : NoDup (tasks_map tasks).*1.
Proof. apply tasks_map_from_NoDup. apply NoDup_nil_2. Qed.

(** The keys of the dictionary of a task list are ids of the list. *)
Lemma tasks_map_from_keys (d0 : odict) (tasks : list jobj) (k : jval) :
  k ∈ (foldl (λ d t, od_set (get t "TaskID") t d) d0 tasks).*1 ↔
  k ∈ d0.*1 ∨ k ∈ task_ids tasks.
Proof.
  revert d0. induction tasks as [|t tasks IH]; intros d0.
  - simpl. split; [by left|]. intros [?|?%elem_of_nil]; done.
  - cbn [foldl]. rewrite IH. unfold task_ids. rewrite fmap_cons, elem_of_cons.
    destruct (decide (get t "TaskID" ∈ d0.*1)) as [Hin|Hout].
    + rewrite od_set_keys_old by done. intuition (subst; auto).
    + rewrite od_set_new, fmap_app, elem_of_app by done. simpl.
      rewrite list_elem_of_singleton. tauto.
Qed.

Lemma tasks_map_keys (tasks : list jobj) (k : jval) :
  k ∈ (tasks_map tasks).*1 ↔ k ∈ task_ids tasks.
Proof.
  unfold tasks_map. rewrite tasks_map_from_keys. simpl.
  split; [intros [?%elem_of_nil|?]; done|by right].
Qed.

(** The values of the dictionary of a task list are tasks of the list. *)
Lemma tasks_map_from_values (d0 : odict) (tasks : list jobj) (k : jval) (v : jobj) :
  (k, v) ∈ foldl (λ d t, od_set (get t "TaskID") t d) d0 tasks →
  (k, v) ∈ d0 ∨ v ∈ tasks.
Proof.
  revert d0. induction tasks as [|t tasks IH]; intros d0; [by left|].
  cbn [foldl]. intros [Hin|Hin]%IH; [|right; by apply list_elem_of_further].
  destruct (decide ((k, v) ∈ d0)) as [?|Hout]; [by left|]. right.
  assert (Hv : v = t); [|subst; apply list_elem_of_here].
  clear IH. induction d0 as [|[k' v'] d0 IH]; simpl in Hin.
  - by apply list_elem_of_singleton in Hin as [= _ ->].
  - apply not_elem_of_cons in Hout as [Hne Hout].
    destruct (decide (get t "TaskID" = k')) as [->|Hne'].
    + apply elem_of_cons in Hin as [[= _ ->]|Hin]; [done|]. done.
    + apply elem_of_cons in Hin as [?|Hin]; [done|]. by apply IH.
Qed.

(** Rebuilding the dictionary from its values gives it back. *)
Lemma tasks_map_from_values_id (d0 d1 : odict) :
  NoDup (d0 ++ d1).*1 → keyed d1 →
  foldl (λ d t, od_set (get t "TaskID") t d) d0 (od_values d1) = d0 ++ d1.
Proof.
  revert d0. induction d1 as [|[k v] d1 IH]; intros d0 Hnd Hkey.
  - by rewrite app_nil_r.
  - unfold od_values. rewrite fmap_cons. cbn [foldl snd].
    rewrite (Hkey k v) by apply list_elem_of_here.
    rewrite fmap_app, fmap_cons in Hnd.
    assert (Hk : k ∉ d0.*1).
    { apply NoDup_app in Hnd as (_ & Hdis & _). intros Hin.
      apply (Hdis k Hin), list_elem_of_here. }
    rewrite od_set_new by done.
    change (od_values d1) with (snd <$> d1) in IH. rewrite IH.
    + by rewrite <- app_assoc.
    + rewrite <- app_assoc, fmap_app.
      change ([(k, v)] ++ d1) with ((k, v) :: d1). by rewrite fmap_cons.
    + intros k' v' Hin. by apply Hkey, list_elem_of_further.
Qed.

Lemma tasks_map_values (d : odict) :
  NoDup d.*1 → keyed d → tasks_map (od_values d) = d.
Proof. intros Hnd Hkey. unfold tasks_map. by rewrite tasks_map_from_values_id. Qed.

(** The dictionary of a task list with distinct ids lists the tasks
    under their ids, in order. *)
Lemma tasks_map_distinct (tasks : list jobj) :
  NoDup (task_ids tasks) → tasks_map tasks = entry_of <$> tasks.
Proof.
  intros Hnd.
  assert (Hv : od_values (entry_of <$> tasks) = tasks).
  { unfold od_values. rewrite <- list_fmap_compose. apply list_fmap_id. }
  rewrite <- Hv at 1. apply tasks_map_values.
  - by rewrite <- list_fmap_compose.
  - intros k v (t & [= -> ->] & _)%list_elem_of_fmap. done.
Qed.

Lemma fold_fixed (tasks : list jobj) (d : odict) :
  (∀ t, t ∈ tasks → import_task_map d t = d) →
  foldl import_task_map d tasks = d.
Proof.
  induction tasks as [|t tasks IH]; intros Hfix; [done|].
  cbn [foldl]. rewrite Hfix by apply list_elem_of_here.
  apply IH. intros t' Ht'. by apply Hfix, list_elem_of_further.
Qed.

(** A second pass over the imported tasks changes nothing. *)
Lemma merge_tasks_again (local imported : list jobj) :
  NoDup (task_ids imported) →
  merge_tasks (merge_tasks local imported) imported = merge_tasks local imported.
Proof.
  intros Hnd. rewrite !merge_tasks_fold.
  set (d1 := foldl import_task_map (tasks_map local) imported).
  rewrite tasks_map_values
    by (apply fold_NoDup, tasks_map_NoDup || apply fold_keyed, tasks_map_keyed).
  rewrite fold_fixed; [done|]. intros t Ht.
  rewrite import_task_map_set. apply od_set_same.
  subst d1. rewrite (fold_get_imported _ _ _ Hnd Ht). by rewrite merged_again.
Qed.

Lemma od_get_entries (tasks : list jobj) (t : jobj) :
  NoDup (task_ids tasks) → t ∈ tasks →
  od_get (get t "TaskID") (entry_of <$> tasks) = Some t.
Proof.
  induction tasks as [|t' tasks IH]; [by intros _ ?%elem_of_nil|].
  unfold task_ids. rewrite !fmap_cons. intros [Hout Hnd]%NoDup_cons.
  cbn [od_get entry_of]. intros [->|Hin]%elem_of_cons.
  - by rewrite decide_True.
  - rewrite decide_False; [by apply IH|].
    intros Heq. apply Hout. rewrite <- Heq.
    apply (list_elem_of_fmap_2 (λ t, get t "TaskID")), Hin.
Qed.

(** Importing a task list into itself changes nothing. *)
Lemma merge_tasks_self (tasks : list jobj) :
  NoDup (task_ids tasks) → merge_tasks tasks tasks = tasks.
Proof.
  intros Hnd. rewrite merge_tasks_fold, tasks_map_distinct by done.
  rewrite fold_fixed.
  - unfold od_values. rewrite <- list_fmap_compose. apply list_fmap_id.
  - intros t Ht. rewrite import_task_map_set. apply od_set_same.
    rewrite od_get_entries by done. by rewrite merged_self.
Qed.

(** With distinct imported ids, the tasks with a new id are appended
    behind the entries of the dictionary, as they are and in order. *)
Lemma fold_appends (tasks : list jobj) (d : odict) :
  NoDup (task_ids tasks) →
  ∃ kept,
    foldl import_task_map d tasks =
      kept ++ (entry_of <$> filter (λ t, get t "TaskID" ∉ d.*1) tasks) ∧
    kept.*1 = d.*1.
Proof.
  induction tasks as [|t tasks IH] using rev_ind; intros Hnd.
  - exists d. by rewrite app_nil_r.
  - unfold task_ids in Hnd. rewrite fmap_app in Hnd.
    apply NoDup_app in Hnd as (Hnd & Hdis & _).
    destruct (IH Hnd) as (kept & Hfold & Hkeys).
    rewrite foldl_app. cbn [foldl]. rewrite Hfold, import_task_map_set.
    rewrite filter_app, fmap_app.
    destruct (decide (get t "TaskID" ∈ d.*1)) as [Hin|Hout].
    + rewrite od_set_app_l by by rewrite Hkeys.
      eexists. split.
      * f_equal. rewrite (filter_cons_False _ t) by (intros Hout; by apply Hout).
        by rewrite filter_nil, app_nil_r.
      * rewrite od_set_keys_old by by rewrite Hkeys. done.
    + assert (Hnew : get t "TaskID" ∉
                (kept ++ (entry_of <$> filter (λ t, get t "TaskID" ∉ d.*1) tasks)).*1).
      { rewrite fmap_app, not_elem_of_app, Hkeys. split; [done|].
        rewrite <- list_fmap_compose.
        intros (t' & Heq & [_ Ht']%list_elem_of_filter)%list_elem_of_fmap.
        apply (Hdis (get t "TaskID")).
        - rewrite Heq. apply (list_elem_of_fmap_2 (λ t, get t "TaskID")), Ht'.
        - apply list_elem_of_here. }
      rewrite (proj2 (od_get_None _ _) Hnew), od_set_new by done.
      exists kept. split; [|done].
      rewrite (filter_cons_True _ t) by done. rewrite filter_nil.
      unfold merged. rewrite <- app_assoc. f_equal. f_equal.
      by destruct (truthy (get t "TaskID")).
Qed.

(** *** The project loop *)

Lemma import_project_lookup (acc : gmap string project * import_counts)
    (kv : string * project) (pid : string) :
  (import_project acc kv).1 !! pid =
    if decide (pid = kv.1) then Some (import_one (acc.1 !! kv.1) kv.2)
    else acc.1 !! pid.
Proof.
  unfold import_project, import_one. destruct (acc.1 !! kv.1) as [pl|] eqn:Hl; simpl.
  - rewrite foldl_import_task_fst. simpl. rewrite <- merge_tasks_fold.
    case_decide as Hpid; [subst; by rewrite lookup_insert_eq|by rewrite lookup_insert_ne].
  - case_decide as Hpid; [subst; by rewrite lookup_insert_eq|by rewrite lookup_insert_ne].
Qed.

Lemma foldl_import_project_lookup (entries : list (string * project))
    (acc : gmap string project * import_counts) (pid : string) :
  NoDup entries.*1 →
  (foldl import_project acc entries).1 !! pid =
    match (list_to_map entries : gmap string project) !! pid with
    | Some pi => Some (import_one (acc.1 !! pid) pi)
    | None => acc.1 !! pid
    end.
Proof.
  revert acc. induction entries as [|[k p] entries IH]; intros acc Hnd; [done|].
  rewrite fmap_cons in Hnd. apply NoDup_cons in Hnd as [Hk Hnd].
  cbn [foldl list_to_map]. rewrite IH by done. rewrite import_project_lookup. simpl.
  destruct (decide (pid = k)) as [->|Hne].
  - rewrite lookup_insert_eq.
    by rewrite (proj1 (not_elem_of_list_to_map _ _) Hk).
  - by rewrite lookup_insert_ne.
Qed.

(** What the project loop leaves under each id. *)
Lemma import_projects_lookup (local imported : gmap string project) (pid : string) :
  (import_projects local imported).1 !! pid =
    match imported !! pid with
    | Some pi => Some (import_one (local !! pid) pi)
    | None => local !! pid
    end.
Proof.
  unfold import_projects.
  rewrite foldl_import_project_lookup by apply NoDup_fst_map_to_list.
  by rewrite list_to_map_to_list.
Qed.

Lemma set_tasks_same (p : project) (tasks : list jobj) :
  p_tasks p = Some tasks → set_tasks p tasks = p.
Proof. destruct p as [fields ts]. simpl. by intros ->. Qed.

Lemma get_tasks_set (p : project) (tasks : list jobj) :
  get_tasks (set_tasks p tasks) = tasks.
Proof. reflexivity. Qed.

Lemma set_tasks_set (p : project) (tasks tasks' : list jobj) :
  set_tasks (set_tasks p tasks) tasks' = set_tasks p tasks'.
Proof. reflexivity. Qed.

(** A second pass over the imported projects changes nothing. *)
Lemma import_projects_again (local imported : gmap string project) :
  distinct_task_ids imported →
  (import_projects (import_projects local imported).1 imported).1 =
  (import_projects local imported).1.
Proof.
  intros Hwf. apply map_eq. intros pid. rewrite !import_projects_lookup.
  destruct (imported !! pid) as [pi|] eqn:Hpi; [|done].
  destruct (Hwf pid pi Hpi) as (tasks & Htasks & Hnd).
  assert (Hget : get_tasks pi = tasks) by (unfold get_tasks; by rewrite Htasks).
  f_equal. destruct (local !! pid) as [pl|]; unfold import_one.
  - rewrite get_tasks_set, set_tasks_set, Hget.
    by rewrite merge_tasks_again.
  - rewrite Hget, merge_tasks_self by done. by apply set_tasks_same.
Qed.

(** ** Reconciliation: the import *)

Lemma import_guard_run (m : mem) (body : M mem) (w : world) :
  import_guard m body w =
    match body w with
    | (Ok a, w1, t1) => (Ok a, w1, t1)
    | (Raise e, w1, t1) =>
        (Ok m, w1,
         t1 ++ [Err ("An unexpected error occurred during import: " +:+ exn_name e)])
    end.
Proof.
  unfold import_guard, try_except. run_M.
  by destruct (body w) as [[[a|e] w1] t1].
Qed.

(** The [try] block leaves the collections and the files of
    [import_outcome], and nothing else of the world changes. *)
Lemma import_profiles_stage_outcome (m : mem) (imported_data : snapshot) (w : world) :
  result (import_profiles_stage m imported_data) w =
    Ok (import_outcome m (fs w) imported_data).1 ∧
  final (import_profiles_stage m imported_data) w =
    set_fs (import_outcome m (fs w) imported_data).2 w.
Proof.
  unfold result, final, import_outcome, import_profiles_stage, import_logs_stage,
    import_projects_stage, history_on_disk.
  cbv zeta. rewrite import_guard_run.
  unfold save_profiles, save_logs, save_projects, save_session_history,
    load_session_history. run_M.
  rewrite save_json_file_run.
  destruct (writable (fs w) PROFILES_FILE) eqn:Hp; simpl; [|done].
  rewrite import_guard_run.
  destruct (int_keys (default [] (s_logs imported_data)) ∅) as [il|]; simpl; [|done].
  rewrite import_guard_run, save_json_file_run. simpl.
  destruct (writable (fs w) LOGS_FILE) eqn:Hl; simpl; [|done].
  rewrite import_guard_run, save_json_file_run. simpl.
  destruct (writable (fs w) PROJECTS_FILE) eqn:Hj; simpl; [|done].
  destruct (bool_decide _); simpl; rewrite load_json_file_run, save_json_file_run; simpl;
    destruct (writable (fs w) SESSION_HISTORY_FILE) eqn:Hh; simpl; done.
Qed.

(** The import of a file that holds a snapshot. *)
Lemma import_all_data_outcome (ps : gmap string jobj) (logs : gmap Z (list string))
    (pjs : gmap string project) (hist : list jobj) (w : world)
    (line : string) (rest : list string) (s : snapshot) :
  stdin w = line :: rest →
  other_files (fs w) !! strip line = Some (ExtSnapshot s) →
  nonempty (strip line) = true →
  let m := {| stories := logs; profiles := ps; projects := pjs |} in
  result (import_all_data ps logs pjs hist) w = Ok (import_outcome m (fs w) s).1 ∧
  final (import_all_data ps logs pjs hist) w =
    set_fs (import_outcome m (fs w) s).2 (set_stdin rest w).
Proof.
  intros Hin Hfile Hname m.
  pose proof (import_profiles_stage_outcome m s (set_stdin rest w)) as [Hr Hf].
  unfold result, final in *. unfold import_all_data. run_M. simpl.
  rewrite Hin. simpl. rewrite Hname. simpl. rewrite Hfile. fold m.
  destruct (import_profiles_stage m s (set_stdin rest w)) as [[r w1] t1].
  simpl in *. by subst.
Qed.

(** Any other import leaves the collections and the files alone. *)
Lemma import_all_data_nothing (ps : gmap string jobj) (logs : gmap Z (list string))
    (pjs : gmap string project) (hist : list jobj) (w : world)
    (line : string) (rest : list string) :
  stdin w = line :: rest →
  (∀ s, other_files (fs w) !! strip line = Some (ExtSnapshot s) →
        nonempty (strip line) = false) →
  result (import_all_data ps logs pjs hist) w =
    Ok {| stories := logs; profiles := ps; projects := pjs |} ∧
  final (import_all_data ps logs pjs hist) w = set_stdin rest w.
Proof.
  intros Hin Hfile. unfold result, final, import_all_data. run_M. simpl.
  rewrite Hin. simpl. destruct (nonempty (strip line)) eqn:Hname; simpl; [|done].
  destruct (other_files (fs w) !! strip line) as [[s| |]|]; simpl; try done.
  by specialize (Hfile s eq_refl).
Qed.

Lemma put_data_writable (d : fdata) (f : files) : writable (put_data d f) = writable f.
Proof. reflexivity. Qed.

(** Rewrites with the writability of the stores. *)
Ltac flags :=
  rewrite ?failed_write_writable; simpl;
  repeat match goal with
         | H : writable _ _ = _ |- _ => rewrite H; simpl
         end.

(** A save that fails again leaves the file as the first failure did. *)
Ltac again_cut f filepath :=
  unfold failed_write; simpl;
  let Ht := fresh "Ht" in
  destruct (truncates f filepath) eqn:Ht; simpl; rewrite ?Ht.

(** A second run of the [try] block on what the first one left changes
    nothing, when the imported task ids are distinct. *)
Lemma import_outcome_again (m : mem) (f : files) (s : snapshot) :
  distinct_task_ids (default ∅ (s_projects s)) →
  import_outcome (import_outcome m f s).1 (import_outcome m f s).2 s =
  import_outcome m f s.
Proof.
  intros Hwf. destruct m as [st ps pjs]. unfold import_outcome. simpl.
  unfold set_profiles, set_stories, set_projects. simpl.
  destruct (writable f PROFILES_FILE) eqn:Hp; simpl; flags.
  2: { rewrite import_entries_again. by again_cut f PROFILES_FILE. }
  destruct (int_keys (default [] (s_logs s)) ∅) as [il|] eqn:Hil; simpl; flags.
  2: { by rewrite import_entries_again. }
  destruct (writable f LOGS_FILE) eqn:Hl; simpl; flags.
  2: { rewrite !import_entries_again. by again_cut f LOGS_FILE. }
  destruct (writable f PROJECTS_FILE) eqn:Hj; simpl; flags.
  2: { rewrite !import_entries_again, import_projects_again by done.
       by again_cut f PROJECTS_FILE. }
  destruct (writable f SESSION_HISTORY_FILE) eqn:Hh; simpl; flags.
  - rewrite !import_entries_again, import_projects_again by done.
    unfold history_on_disk. simpl. by rewrite import_history_again.
  - rewrite !import_entries_again, import_projects_again by done.
    by again_cut f SESSION_HISTORY_FILE.
Qed.

(** The import writes the store files only. *)
Lemma import_outcome_other_files (m : mem) (f : files) (s : snapshot) :
  other_files (import_outcome m f s).2 = other_files f.
Proof.
  unfold import_outcome.
  repeat (case_match; simpl; rewrite ?failed_write_other_files; try done).
Qed.

(** C3 (as amended). When every project of the snapshot carries a task
    list with pairwise distinct TaskIDs, importing the snapshot a second
    time leaves the profiles, the logs, the projects and every file,
    the session history among them, as the first import left them. *)
Theorem reimport_is_idempotent (ps : gmap string jobj) (logs : gmap Z (list string))
    (pjs : gmap string project) (hist hist' : list jobj) (w : world)
    (line : string) (rest rest' : list string) :
  stdin w = line :: rest →
  (∀ s, other_files (fs w) !! strip line = Some (ExtSnapshot s) →
        distinct_task_ids (default ∅ (s_projects s))) →
  ∃ m1,
    result (import_all_data ps logs pjs hist) w = Ok m1 ∧
    let w1 := set_stdin (line :: rest') (final (import_all_data ps logs pjs hist) w) in
    let again := import_all_data (profiles m1) (stories m1) (projects m1) hist' in
    result again w1 = Ok m1 ∧ fs (final again w1) = fs w1.
Proof.
  intros Hin Hwf.
  destruct (nonempty (strip line)) eqn:Hname;
    [destruct (other_files (fs w) !! strip line) as [[s| |]|] eqn:Hfile|].
  1: { destruct (import_all_data_outcome ps logs pjs hist w line rest s Hin Hfile Hname)
      as [Hr Hf].
    eexists. split; [exact Hr|]. cbv zeta. rewrite Hf.
    set (m := {| stories := logs; profiles := ps; projects := pjs |}).
    set (o := import_outcome m (fs w) s).
    edestruct (import_all_data_outcome (profiles o.1) (stories o.1) (projects o.1) hist'
                 (set_stdin (line :: rest') (set_fs o.2 (set_stdin rest w)))
                 line rest' s) as [Hr' Hf']; [done| |done|].
    { simpl. subst o. by rewrite import_outcome_other_files. }
    rewrite Hr', Hf'. simpl.
    replace {| stories := stories o.1; profiles := profiles o.1;
               projects := projects o.1 |} with o.1 by by destruct o.1.
    subst o. rewrite import_outcome_again by by apply Hwf. done. }
  all: destruct (import_all_data_nothing ps logs pjs hist w line rest Hin) as [Hr Hf];
    [intros s' Hs'; congruence|].
  all: eexists; (split; [exact Hr|]); cbv zeta; rewrite Hf; simpl.
  all: destruct (import_all_data_nothing ps logs pjs hist'
                   (set_stdin (line :: rest') (set_stdin rest w)) line rest')
         as [Hr' Hf']; [done|simpl; intros s' Hs'; congruence|].
  all: by rewrite Hr', Hf'.
Qed.

Lemma reimport_is_idempotent_witness :
  ∃ m1,
    result (import_all_data (profiles seed_mem) (stories seed_mem) local_projects [])
           (import_world example_snapshot) = Ok m1 ∧
    let w1 := set_stdin ["snap.json"]
                (final (import_all_data (profiles seed_mem) (stories seed_mem)
                          local_projects []) (import_world example_snapshot)) in
    let again := import_all_data (profiles m1) (stories m1) (projects m1) [] in
    result again w1 = Ok m1 ∧ fs (final again w1) = fs w1.
Proof.
  apply (reimport_is_idempotent (profiles seed_mem) (stories seed_mem) local_projects
           [] [] (import_world example_snapshot) "snap.json" [] []).
  - reflexivity.
  - intros s Hs pid p Hp.
    change (Some (ExtSnapshot example_snapshot) = Some (ExtSnapshot s)) in Hs.
    injection Hs as <-. simpl in Hp.
    apply lookup_insert_Some in Hp as [[_ <-]|[_ Hp]]; [|by rewrite lookup_empty in Hp].
    eexists. split; [reflexivity|]. compute_done.
Defined.

(** C3 (as stated) fails: a new project whose task list repeats a
    TaskID is added as it is by the first import and its tasks are
    merged into one by the second; a new project without the key "Tasks"
    gets an empty one from the second import. *)
Lemma reimport_changes_something :
  ¬ reimport_changes_nothing ∅ ∅ ∅ [] (import_world twice_snapshot) ∧
  ¬ reimport_changes_nothing ∅ ∅ ∅ [] (import_world bare_snapshot).
Proof.
  split; intros H.
  - destruct (result (import_all_data ∅ ∅ ∅ []) (import_world twice_snapshot))
      as [m1|e] eqn:Hres; [|vm_compute in Hres; discriminate].
    destruct (H "snap.json" [] m1 eq_refl Hres) as [Hr _].
    vm_compute in Hres. injection Hres as <-.
    vm_compute in Hr. discriminate.
  - destruct (result (import_all_data ∅ ∅ ∅ []) (import_world bare_snapshot))
      as [m1|e] eqn:Hres; [|vm_compute in Hres; discriminate].
    destruct (H "snap.json" [] m1 eq_refl Hres) as [Hr _].
    vm_compute in Hres. injection Hres as <-.
    vm_compute in Hr. discriminate.
Qed.

(** Once the profiles and the logs are through, the projects of the
    result are those of the project loop, and they are what a writable
    [projects.json] then holds. *)
Lemma import_outcome_projects (m : mem) (f : files) (s : snapshot) :
  writable f PROFILES_FILE = true →
  writable f LOGS_FILE = true →
  is_Some (int_keys (default [] (s_logs s)) ∅) →
  let merged_projects := (import_projects (projects m) (default ∅ (s_projects s))).1 in
  projects (import_outcome m f s).1 = merged_projects ∧
  (writable f PROJECTS_FILE = true →
   projects_json (import_outcome m f s).2 = Content merged_projects).
Proof.
  intros Hp Hl [il Hil]. unfold import_outcome. rewrite Hp, Hl, Hil. simpl.
  destruct (writable f PROJECTS_FILE); simpl; [|done].
  destruct (writable f SESSION_HISTORY_FILE); simpl; [done|].
  unfold failed_write. by destruct (truncates _ _).
Qed.

(** What the import leaves of a local task list, when the imported ids
    are distinct. *)
Lemma merge_tasks_spec (local imported : list jobj) :
  NoDup (task_ids imported) →
  (∀ t, t ∈ imported → get t "TaskID" ∈ task_ids local →
        ∃ cur, cur ∈ local ∧ get cur "TaskID" = get t "TaskID" ∧
               (if truthy (get t "TaskID") then update cur t else t)
                 ∈ merge_tasks local imported) ∧
  ∃ kept,
    merge_tasks local imported =
      kept ++ filter (λ t, get t "TaskID" ∉ task_ids local) imported ∧
    ∀ t', t' ∈ kept → get t' "TaskID" ∈ task_ids local.
Proof.
  intros Hnd. rewrite merge_tasks_fold.
  set (d1 := foldl import_task_map (tasks_map local) imported).
  assert (Hkeyed : keyed d1) by apply fold_keyed, tasks_map_keyed.
  split.
  - intros t Ht Hid. apply tasks_map_keys in Hid.
    destruct (od_get (get t "TaskID") (tasks_map local)) as [cur|] eqn:Hcur;
      [|by apply od_get_None in Hcur].
    exists cur. apply od_get_Some_elem in Hcur as Hin.
    split; [|split].
    + apply tasks_map_from_values in Hin as [?%elem_of_nil|?]; done.
    + by apply tasks_map_keyed in Hin.
    + pose proof (fold_get_imported imported (tasks_map local) t Hnd Ht) as Hget.
      fold d1 in Hget. rewrite Hcur in Hget. apply od_get_Some_elem in Hget.
      unfold merged in Hget. unfold od_values.
      destruct (truthy (get t "TaskID"));
        apply (list_elem_of_fmap_2 snd) in Hget; exact Hget.
  - destruct (fold_appends imported (tasks_map local) Hnd) as (kept & Hfold & Hkeys).
    fold d1 in Hfold. exists (od_values kept). split.
    + rewrite Hfold. unfold od_values. rewrite fmap_app, <- list_fmap_compose.
      f_equal. etrans; [apply list_fmap_id|].
      apply list_filter_iff. intros t. by rewrite tasks_map_keys.
    + intros t' (kv & -> & Hin)%list_elem_of_fmap. destruct kv as [k v]. simpl.
      rewrite (Hkeyed k v) by (rewrite Hfold; apply elem_of_app; by left).
      apply tasks_map_keys. rewrite <- Hkeys.
      apply (list_elem_of_fmap_2 fst) in Hin. exact Hin.
Qed.

(** C1 (as amended). For an import that gets as far as the projects
    (the file holds a snapshot, its log keys are integers, and the
    profile and log stores can be written), and a snapshot project whose
    id exists locally and whose tasks carry pairwise distinct TaskIDs:
    the header fields are unchanged; an imported task whose TaskID exists
    locally overwrites the fields of the local task; the imported tasks
    with a new TaskID are appended behind the local ones, in order; and
    a writable project store holds the result. *)
Theorem import_merge_precedence (ps : gmap string jobj) (logs : gmap Z (list string))
    (pjs : gmap string project) (hist : list jobj) (w : world)
    (line : string) (rest : list string) (s : snapshot)
    (imported : gmap string project) (pid : string) (pi pl : project) :
  stdin w = line :: rest →
  nonempty (strip line) = true →
  other_files (fs w) !! strip line = Some (ExtSnapshot s) →
  writable (fs w) PROFILES_FILE = true →
  writable (fs w) LOGS_FILE = true →
  is_Some (int_keys (default [] (s_logs s)) ∅) →
  s_projects s = Some imported →
  imported !! pid = Some pi →
  pjs !! pid = Some pl →
  NoDup (task_ids (get_tasks pi)) →
  ∃ m' p',
    result (import_all_data ps logs pjs hist) w = Ok m' ∧
    projects m' !! pid = Some p' ∧
    p_fields p' = p_fields pl ∧
    (∀ t, t ∈ get_tasks pi → get t "TaskID" ∈ task_ids (get_tasks pl) →
          ∃ cur, cur ∈ get_tasks pl ∧ get cur "TaskID" = get t "TaskID" ∧
                 (if truthy (get t "TaskID") then update cur t else t)
                   ∈ get_tasks p') ∧
    (∃ kept,
       get_tasks p' =
         kept ++ filter (λ t, get t "TaskID" ∉ task_ids (get_tasks pl)) (get_tasks pi) ∧
       ∀ t', t' ∈ kept → get t' "TaskID" ∈ task_ids (get_tasks pl)) ∧
    (writable (fs w) PROJECTS_FILE = true →
     projects_json (fs (final (import_all_data ps logs pjs hist) w)) =
       Content (projects m')).
Proof.
  intros Hin Hname Hfile Hp Hl Hil Himp Hpi Hpl Hnd.
  destruct (import_all_data_outcome ps logs pjs hist w line rest s Hin Hfile Hname)
    as [Hr Hf].
  set (m := {| stories := logs; profiles := ps; projects := pjs |}) in *.
  destruct (import_outcome_projects m (fs w) s Hp Hl Hil) as [Hprojects Hsaved].
  destruct (merge_tasks_spec (get_tasks pl) (get_tasks pi) Hnd) as [Hupd Happ].
  exists (import_outcome m (fs w) s).1, (set_tasks pl (merge_tasks (get_tasks pl) (get_tasks pi))).
  split; [exact Hr|]. split.
  { rewrite Hprojects, import_projects_lookup, Himp. simpl. by rewrite Hpi, Hpl. }
  split; [done|]. split; [exact Hupd|]. split; [exact Happ|].
  intros Hj. rewrite Hf. simpl. rewrite (Hsaved Hj). by rewrite Hprojects.
Qed.

Lemma import_merge_precedence_witness :
  ∃ m' p',
    result (import_all_data (profiles seed_mem) (stories seed_mem) local_projects [])
           (import_world example_snapshot) = Ok m' ∧
    projects m' !! "P" = Some p' ∧
    p_fields p' = <["Name" := JStr "local"]> ∅ ∧
    update (task "T-1" "Pending") (task "T-1" "Complete") ∈ get_tasks p' ∧
    ∃ kept, get_tasks p' = kept ++ [task "T-2" "Pending"].
Proof.
  destruct (import_merge_precedence (profiles seed_mem) (stories seed_mem)
              local_projects [] (import_world example_snapshot) "snap.json" []
              example_snapshot
              (<["P" := named "imported"
                          (Some [task "T-1" "Complete"; task "T-2" "Pending"])]> ∅)
              "P"
              (named "imported" (Some [task "T-1" "Complete"; task "T-2" "Pending"]))
              (named "local" (Some [task "T-1" "Pending"])))
    as (m' & p' & Hres & Hlook & Hfields & Hupd & (kept & Hkept & _) & _).
  - reflexivity.
  - reflexivity.
  - reflexivity.
  - reflexivity.
  - reflexivity.
  - by eexists.
  - reflexivity.
  - reflexivity.
  - reflexivity.
  - compute_done.
  - exists m', p'. split; [exact Hres|]. split; [exact Hlook|]. split; [exact Hfields|].
    split.
    + destruct (Hupd (task "T-1" "Complete")) as (cur & Hcur & _ & Hin).
      * apply list_elem_of_here.
      * compute_done.
      * apply list_elem_of_singleton in Hcur as ->. exact Hin.
    + exists kept. exact Hkept.
Defined.

(** The example of the specification: the header of [P] stays, [T-1]
    becomes complete, the new [T-2] is appended. *)
Example merge_precedence_scenario :
  projects <$> (match result (import_all_data ∅ ∅ local_projects [])
                             (import_world example_snapshot) with
                | Ok m' => Some m'
                | Raise _ => None
                end) =
    Some (<["P" := named "local" (Some [task "T-1" "Complete"; task "T-2" "Pending"])]> ∅).
Proof. vm_compute. reflexivity. Qed.

(** C1 (as stated) fails twice: when the snapshot repeats a TaskID the
    later task overwrites the earlier one, whose fields are then not
    those of the local task; and when a log key of the snapshot is not
    an integer the import stops before the projects, which stay as they
    were. *)
Lemma merge_precedence_fails :
  ¬ merge_precedence ∅ ∅ local_projects [] (import_world twice_snapshot) ∧
  ¬ merge_precedence ∅ ∅ local_projects [] (import_world bad_log_snapshot).
Proof.
  split; intros H.
  - destruct (H "snap.json" [] twice_snapshot
               (<["P" := named "imported"
                           (Some [task "T-1" "Complete"; task "T-1" "Pending"])]> ∅)
               "P"
               (named "imported" (Some [task "T-1" "Complete"; task "T-1" "Pending"]))
               (named "local" (Some [task "T-1" "Pending"]))
               eq_refl eq_refl eq_refl eq_refl eq_refl)
      as (m' & p' & Hres & Hlook & _ & Hupd & _).
    assert (Hm : result (import_all_data ∅ ∅ local_projects [])
                   (import_world twice_snapshot) =
                 Ok {| stories := ∅; profiles := ∅; projects := local_projects |})
      by (vm_compute; reflexivity).
    rewrite Hm in Hres. injection Hres as <-. simpl in Hlook.
    unfold local_projects in Hlook. rewrite lookup_insert_eq in Hlook.
    injection Hlook as <-.
    destruct (Hupd (task "T-1" "Complete")) as (t' & Hin & _ & Hsub).
    + apply list_elem_of_here.
    + compute_done.
    + apply list_elem_of_singleton in Hin as ->.
      apply (lookup_weaken _ _ "Status" (JStr "Complete")) in Hsub; [|reflexivity].
      vm_compute in Hsub. discriminate.
  - destruct (H "snap.json" [] bad_log_snapshot
               (<["P" := named "imported" (Some [task "T-1" "Complete"])]> ∅)
               "P"
               (named "imported" (Some [task "T-1" "Complete"]))
               (named "local" (Some [task "T-1" "Pending"]))
               eq_refl eq_refl eq_refl eq_refl eq_refl)
      as (m' & p' & Hres & Hlook & _ & Hupd & _).
    assert (Hm : result (import_all_data ∅ ∅ local_projects [])
                   (import_world bad_log_snapshot) =
                 Ok {| stories := ∅; profiles := ∅; projects := local_projects |})
      by (vm_compute; reflexivity).
    rewrite Hm in Hres. injection Hres as <-. simpl in Hlook.
    unfold local_projects in Hlook. rewrite lookup_insert_eq in Hlook.
    injection Hlook as <-.
    destruct (Hupd (task "T-1" "Complete")) as (t' & Hin & _ & Hsub).
    + apply list_elem_of_here.
    + compute_done.
    + apply list_elem_of_singleton in Hin as ->.
      apply (lookup_weaken _ _ "Status" (JStr "Complete")) in Hsub; [|reflexivity].
      vm_compute in Hsub. discriminate.
Qed.
(** ** What the commands leave alone *)

Lemma result_bind {A B : Type} (c : M A) (k : A → M B) (w : world) :
  result (c ≫= k) w =
    match result c w with
    | Ok a => result (k a) (final c w)
    | Raise e => Raise e
    end.
Proof.
  unfold result, final, mbind, M_bind.
  destruct (c w) as [[[a|e] w1] t1]; simpl; [|done].
  by destruct (k a w1) as [[r w2] t2].
Qed.

Lemma final_bind {A B : Type} (c : M A) (k : A → M B) (w : world) :
  final (c ≫= k) w =
    match result c w with
    | Ok a => final (k a) (final c w)
    | Raise e => final c w
    end.
Proof.
  unfold result, final, mbind, M_bind.
  destruct (c w) as [[[a|e] w1] t1]; simpl; [|done].
  by destruct (k a w1) as [[r w2] t2].
Qed.

Lemma trace_bind {A B : Type} (c : M A) (k : A → M B) (w : world) :
  trace (c ≫= k) w =
    trace c w ++
    match result c w with
    | Ok a => trace (k a) (final c w)
    | Raise e => []
    end.
Proof.
  unfold result, final, trace, mbind, M_bind.
  destruct (c w) as [[[a|e] w1] t1]; simpl; [|by rewrite app_nil_r].
  by destruct (k a w1) as [[r w2] t2].
Qed.

Lemma result_fmap {A B : Type} (g : A → B) (c : M A) (w : world) :
  result (g <$> c) w =
    match result c w with
    | Ok a => Ok (g a)
    | Raise e => Raise e
    end.
Proof. unfold result, fmap, M_fmap. by destruct (c w) as [[[a|e] w1] t1]. Qed.

Lemma final_fmap {A B : Type} (g : A → B) (c : M A) (w : world) :
  final (g <$> c) w = final c w.
Proof. unfold final, fmap, M_fmap. by destruct (c w) as [[[a|e] w1] t1]. Qed.

Lemma trace_fmap {A B : Type} (g : A → B) (c : M A) (w : world) :
  trace (g <$> c) w = trace c w.
Proof. unfold trace, fmap, M_fmap. by destruct (c w) as [[[a|e] w1] t1]. Qed.

#[local] Instance input_shrinks_preorder : PreOrder input_shrinks.
Proof.
  split.
  - intros w. unfold input_shrinks. lia.
  - intros w1 w2 w3. unfold input_shrinks. lia.
Qed.

#[local] Instance history_grows_preorder : PreOrder history_grows.
Proof.
  split.
  - intros w. unfold history_grows. done.
  - intros w1 w2 w3 H1 H2. unfold history_grows in *. intros Hs.
    destruct (H1 Hs) as [Hs2 Hp1]. destruct (H2 Hs2) as [Hs3 Hp2].
    split; [done|by etrans].
Qed.

#[local] Instance same_session_preorder : PreOrder same_session.
Proof.
  split; [by intros w|]. intros w1 w2 w3 H1 H2. unfold same_session in *.
  destruct H1 as (? & ? & ? & ?), H2 as (? & ? & ? & ?).
  split_and!; congruence.
Qed.

#[local] Instance same_stores_preorder : PreOrder same_stores.
Proof.
  split; [by intros w|]. intros w1 w2 w3 H1 H2. unfold same_stores in *.
  destruct H1 as (? & ? & ? & ? & ?), H2 as (? & ? & ? & ? & ?).
  split_and!; congruence.
Qed.

#[local] Instance stays_guest_preorder : PreOrder stays_guest.
Proof.
  split.
  - intros w. unfold stays_guest. auto.
  - intros w1 w2 w3 H1 H2. unfold stays_guest in *. auto.
Qed.

#[local] Instance same_collections_preorder : PreOrder same_collections.
Proof.
  split; [by intros w|]. intros w1 w2 w3 H1 H2. unfold same_collections in *.
  destruct H1 as (? & ? & ?), H2 as (? & ? & ?).
  split_and!; congruence.
Qed.

Section keeps.
Context (R : relation world) `{!PreOrder R}.

Lemma keeps_silent {A : Type} (c : M A) : (∀ w, final c w = w) → keeps R c.
Proof. intros Hc w. unfold keeps_at. by rewrite Hc. Qed.

Lemma keeps_ret {A : Type} (a : A) : keeps R (mret a : M A).
Proof. by apply keeps_silent. Qed.

Lemma keeps_raise {A : Type} (e : exn) : keeps R (raise e : M A).
Proof. by apply keeps_silent. Qed.

Lemma keeps_emit (e : event) : keeps R (emit e).
Proof. by apply keeps_silent. Qed.

Lemma keeps_lift_res {A : Type} (r : res A) : keeps R (lift_res r).
Proof. by apply keeps_silent. Qed.

Lemma keeps_get_world : keeps R get_world.
Proof. by apply keeps_silent. Qed.

Lemma keeps_load_json_file {A : Type} (f : store) (c : fstate A) (d : A) :
  keeps R (load_json_file f c d).
Proof. apply keeps_silent. intros w. unfold final. by rewrite load_json_file_run. Qed.

Lemma keeps_at_bind {A B : Type} (c : M A) (k : A → M B) (w : world) :
  keeps_at R c w → (∀ a, keeps R (k a)) → keeps_at R (c ≫= k) w.
Proof.
  unfold keeps_at. intros Hc Hk. rewrite final_bind.
  destruct (result c w) as [a|e]; [|done]. etrans; [exact Hc|apply Hk].
Qed.

Lemma keeps_bind {A B : Type} (c : M A) (k : A → M B) :
  keeps R c → (∀ a, keeps R (k a)) → keeps R (c ≫= k).
Proof. intros Hc Hk w. by apply keeps_at_bind. Qed.

Lemma keeps_fmap {A B : Type} (g : A → B) (c : M A) : keeps R c → keeps R (g <$> c).
Proof. intros Hc w. unfold keeps_at. rewrite final_fmap. apply Hc. Qed.

Lemma keeps_try_except {A : Type} (body : M A) (handler : exn → M A) :
  keeps R body → (∀ e, keeps R (handler e)) → keeps R (try_except body handler).
Proof.
  intros Hb Hh w. specialize (Hb w). unfold keeps_at, final, try_except in *.
  destruct (body w) as [[[a|e] w1] t1]; simpl in *; [done|].
  specialize (Hh e w1). unfold keeps_at, final in Hh.
  destruct (handler e w1) as [[r w2] t2]. simpl in *. by etrans.
Qed.

(** After [get_world] the rest runs in the world that was read. *)
Lemma keeps_get_world_bind {B : Type} (k : world → M B) :
  (∀ w, keeps_at R (k w) w) → keeps R (get_world ≫= k).
Proof. intros Hk w. unfold keeps_at. rewrite final_bind. apply Hk. Qed.

Lemma keeps_at_put_world (w w' : world) : R w w' → keeps_at R (put_world w') w.
Proof. done. Qed.

Lemma keeps_at_of_keeps {A : Type} (c : M A) (w : world) : keeps R c → keeps_at R c w.
Proof. intros Hc. apply Hc. Qed.

Lemma keeps_modify (f : world → world) : (∀ w, R w (f w)) → keeps R (modify f).
Proof. intros Hf w. apply Hf. Qed.

Lemma keeps_now : (∀ w, R w (set_clock (S (clock w)) w)) → keeps R now.
Proof. intros Hf w. apply Hf. Qed.

Lemma keeps_prompt_input :
  (∀ w line rest, stdin w = line :: rest → R w (set_stdin rest w)) →
  keeps R prompt_input.
Proof.
  intros Hf w. unfold keeps_at, final, prompt_input.
  destruct (stdin w) as [|line rest] eqn:Hin; simpl; [done|]. by eapply Hf.
Qed.

Lemma keeps_read_entry_lines :
  (∀ w ls rest, read_lines (stdin w) = Some (ls, rest) → R w (set_stdin rest w)) →
  (∀ w, R w (set_stdin [] w)) →
  keeps R read_entry_lines.
Proof.
  intros Hf Hg w. unfold keeps_at, final, read_entry_lines.
  destruct (read_lines (stdin w)) as [[ls rest]|] eqn:Hin; simpl; [by eapply Hf|apply Hg].
Qed.

End keeps.

Lemma read_lines_length (input ls rest : list string) :
  read_lines input = Some (ls, rest) → length rest < length input.
Proof.
  revert ls. induction input as [|l input IH]; intros ls; [done|].
  cbn [read_lines]. destruct (String.eqb (upper (strip l)) "END").
  - intros [= <- <-]. simpl. lia.
  - destruct (read_lines input) as [[ls' rest']|]; [|done].
    intros [= <- <-]. specialize (IH ls' eq_refl). simpl. lia.
Qed.

(** The session history after [record_session_event] extends the one
    before. *)
Lemma record_history_grows (user_id event_type : string) (start_time : nat)
    (end_time : option nat) :
  keeps history_grows (record_session_event user_id event_type start_time end_time).
Proof.
  intros w. unfold keeps_at, final, history_grows, history_safe.
  rewrite record_session_event_run. cbv zeta.
  destruct (writable (fs w) SESSION_HISTORY_FILE) eqn:Hw; simpl.
  - rewrite Hw. intros _. split; [done|].
    unfold history_on_disk at 2. simpl. by apply prefix_app_r.
  - intros Ht. rewrite failed_write_writable, failed_write_truncates, Hw.
    split; [done|]. unfold failed_write.
    by destruct (truncates (fs w) SESSION_HISTORY_FILE).
Qed.

Lemma import_history_prefix (current imported : list jobj) :
  current `prefix_of` (import_history current imported).1.
Proof.
  unfold import_history.
  destruct (import_history_app imported current 0) as (added & -> & _).
  by apply prefix_app_r.
Qed.

(** A save of another store leaves the session history alone. *)
Lemma failed_write_history (f : store) (d : fdata) (g : files) :
  (∀ h, d ≠ DHistory h) →
  session_history_json (failed_write f d g) = session_history_json g.
Proof.
  intros Hd. unfold failed_write. destruct (truncates g f); [|done].
  destruct d; try done. by destruct (Hd d).
Qed.

Lemma import_outcome_flags (m : mem) (f : files) (s : snapshot) :
  writable (import_outcome m f s).2 = writable f ∧
  truncates (import_outcome m f s).2 = truncates f.
Proof.
  unfold import_outcome.
  repeat (case_match; simpl;
          rewrite ?failed_write_writable, ?failed_write_truncates; try done).
Qed.

Lemma import_outcome_history (m : mem) (f : files) (s : snapshot) :
  history_safe f = true →
  history_on_disk f `prefix_of` history_on_disk (import_outcome m f s).2.
Proof.
  unfold import_outcome, history_safe. intros Hs.
  destruct (writable f PROFILES_FILE); simpl;
    [|by unfold history_on_disk; rewrite failed_write_history].
  destruct (int_keys (default [] (s_logs s)) ∅) as [il|]; simpl; [|done].
  destruct (writable f LOGS_FILE); simpl;
    [|by unfold history_on_disk; rewrite failed_write_history].
  destruct (writable f PROJECTS_FILE); simpl;
    [|by unfold history_on_disk; rewrite failed_write_history].
  destruct (writable f SESSION_HISTORY_FILE); simpl.
  - unfold history_on_disk. simpl. apply import_history_prefix.
  - simpl in Hs. unfold failed_write. simpl.
    by destruct (truncates f SESSION_HISTORY_FILE).
Qed.

Lemma import_history_grows (m : mem) (s : snapshot) :
  keeps history_grows (import_profiles_stage m s).
Proof.
  intros w. unfold keeps_at, history_grows, history_safe.
  rewrite (proj2 (import_profiles_stage_outcome m s w)). simpl.
  destruct (import_outcome_flags m (fs w) s) as [-> ->].
  intros Hs. split; [done|]. by apply import_outcome_history.
Qed.

(** Relations on worlds that the elementary changes respect. *)
Ltac rel_solve :=
  intros;
  unfold input_shrinks, history_grows, history_safe, same_session, same_stores,
    same_collections, stays_guest, history_on_disk, failed_write in *;
  simpl in *;
  repeat case_match; simpl in *;
  first [ done
        | lia
        | match goal with
          | H : stdin _ = _ |- _ => rewrite H; simpl; lia
          | H : read_lines _ = Some _ |- _ => apply read_lines_length in H; lia
          end
        | split_and!; done ].

(** Decomposes a handler along its binds and branches. *)
Ltac keeps_step :=
  lazymatch goal with
  | |- keeps history_grows (record_session_event _ _ _ _) => apply record_history_grows
  | |- keeps history_grows (import_profiles_stage _ _) => apply import_history_grows
  | |- keeps _ (mret _) => apply keeps_ret; tc_solve
  | |- keeps _ (raise _) => apply keeps_raise; tc_solve
  | |- keeps _ (emit _) => apply keeps_emit; tc_solve
  | |- keeps _ (lift_res _) => apply keeps_lift_res; tc_solve
  | |- keeps _ (load_json_file _ _ _) => apply keeps_load_json_file; tc_solve
  | |- keeps _ (get_world ≫= _) => apply keeps_get_world_bind; intros ?
  | |- keeps _ (_ ≫= _) => apply keeps_bind; [tc_solve| |intros ?]
  | |- keeps _ (_ <$> _) => apply keeps_fmap
  | |- keeps _ (try_except _ _) => apply keeps_try_except; [tc_solve| |intros ?]
  | |- keeps _ prompt_input => apply keeps_prompt_input; [tc_solve|rel_solve]
  | |- keeps _ prompt_getpass => apply keeps_prompt_input; [tc_solve|rel_solve]
  | |- keeps _ read_entry_lines => apply keeps_read_entry_lines; rel_solve
  | |- keeps _ now => apply keeps_now; rel_solve
  | |- keeps _ (modify _) => apply keeps_modify; rel_solve
  | |- keeps _ get_world => apply keeps_get_world; tc_solve
  | |- keeps _ (if ?b then _ else _) => destruct b
  | |- keeps _ (match ?x with _ => _ end) => destruct x
  | |- keeps _ (let _ := _ in _) => cbv zeta
  | |- keeps_at _ (_ ≫= _) _ => apply keeps_at_bind; [tc_solve| |intros ?]
  | |- keeps_at _ (put_world _) _ => apply keeps_at_put_world; rel_solve
  | |- keeps_at _ (if ?b then _ else _) _ => destruct b eqn:?
  | |- keeps_at _ (match ?x with _ => _ end) _ => destruct x eqn:?
  | |- keeps_at _ (let _ := _ in _) _ => cbv zeta
  | |- keeps_at _ _ _ => apply keeps_at_of_keeps
  | |- keeps _ (record_session_event _ _ _ _) =>
      unfold record_session_event, load_session_history, save_session_history
  | |- keeps _ (import_profiles_stage _ _) =>
      unfold import_profiles_stage, import_logs_stage, import_projects_stage,
        import_guard, load_session_history, save_session_history
  | |- keeps _ _ =>
      progress unfold pause_print, print, print_error,
        load_profiles, save_profiles, load_logs, save_logs, load_projects,
        save_projects, load_session_history, save_session_history, save_json_file,
        mark_logged_in, get_logged_in_user, clear_session, show_session_history,
        projects_list_command, project_view_command, project_add_command,
        project_edit_command, project_delete_command, task_add_command,
        task_update_command, task_delete_command, export_all_data,
        main_login, main_logout, main_logbook, main_loglist, main_newlog,
        main_editlog, main_deletelog, main_exportlogs, main_profileslist,
        main_profilesview, main_profilesadd, main_profilesedit,
        main_profilesdelete, main_searchprofile, main_taskadd, main_clear,
        who_am_i_command, end_session, continue_with,
        main_importdata, import_all_data, error_exit, startup
  end.

Ltac keeps_tac := repeat keeps_step.

Lemma commands_input_shrinks (name : string) h (arg : string) (m : mem) :
  (name, h) ∈ commands → keeps input_shrinks (h arg m).
Proof.
  unfold commands. intros Hin.
  repeat (apply elem_of_cons in Hin as [[= -> ->]|Hin]; [keeps_tac|]).
  by apply elem_of_nil in Hin.
Qed.


Lemma dispatch_input_shrinks (command_raw : string) (m : mem) :
  keeps input_shrinks (dispatch command_raw m).
Proof.
  unfold dispatch. cbv zeta. apply keeps_get_world_bind. intros w.
  destruct (negb (logged_in w) && _); [keeps_tac|].
  destruct (find_command (base_command command_raw) commands) as [h|] eqn:Hf.
  - apply keeps_at_of_keeps. eapply commands_input_shrinks, find_command_elem, Hf.
  - destruct (String.eqb command_raw "hyprctl dispatch exit"); keeps_tac.
Qed.


(** ** The loop ends *)

(** An iteration that ends normally has read at least its command line. *)
Lemma iteration_consumes (m : mem) (w : world) (c : ctl) :
  result (iteration m) w = Ok c →
  length (stdin (final (iteration m) w)) < length (stdin w).
Proof.
  destruct (stdin w) as [|line rest] eqn:Hin.
  - unfold result, iteration. run_M. by rewrite Hin.
  - intros _. unfold final. rewrite (iteration_unfold _ _ _ _ Hin).
    pose proof (dispatch_input_shrinks (strip line) m (set_stdin rest w)) as H.
    unfold keeps_at, input_shrinks, final in H. simpl in *. lia.
Qed.

Lemma loop_unfold (fuel : nat) (m : mem) (w : world) :
  loop (S fuel) m w =
    match iteration m w with
    | (Ok (Continue m'), w1, t1) =>
        (result (loop fuel m') w1, final (loop fuel m') w1,
         t1 ++ trace (loop fuel m') w1)
    | (Ok Return, w1, t1) => (Ok (Some Exited), w1, t1 ++ [])
    | (Ok Execv, w1, t1) => (Ok (Some Restarted), w1, t1 ++ [])
    | (Raise e, w1, t1) => (Raise e, w1, t1)
    end.
Proof.
  cbn [loop]. unfold mbind, M_bind, result, final, trace.
  destruct (iteration m w) as [[[[m'| |]|e] w1] t1]; try done.
  by destruct (loop fuel m' w1) as [[r w2] t2].
Qed.

Lemma loop_enough (fuel : nat) (m : mem) (w : world) :
  length (stdin w) < fuel →
  result (loop fuel m) w ≠ Ok None ∧
  ∀ fuel', length (stdin w) < fuel' → loop fuel' m w = loop fuel m w.
Proof.
  revert m w. induction fuel as [|fuel IH]; intros m w Hlen; [lia|].
  pose proof (iteration_consumes m w) as Hit.
  assert (Hall : ∀ fuel', length (stdin w) < fuel' → ∃ n, fuel' = S n).
  { intros [|n] ?; [lia|by exists n]. }
  unfold result. rewrite loop_unfold.
  unfold result, final in Hit.
  destruct (iteration m w) as [[[[m'| |]|e] w1] t1] eqn:Hrun; simpl in *.
  - specialize (Hit _ eq_refl).
    destruct (IH m' w1 ltac:(lia)) as [Hne Hfuel]. split; [done|].
    intros fuel' Hlen'. destruct (Hall fuel' Hlen') as [n ->].
    rewrite loop_unfold, Hrun. unfold result, final, trace.
    by rewrite (Hfuel n) by lia.
  - split; [done|]. intros fuel' Hlen'. destruct (Hall fuel' Hlen') as [n ->].
    by rewrite loop_unfold, Hrun.
  - split; [done|]. intros fuel' Hlen'. destruct (Hall fuel' Hlen') as [n ->].
    by rewrite loop_unfold, Hrun.
  - split; [done|]. intros fuel' Hlen'. destruct (Hall fuel' Hlen') as [n ->].
    by rewrite loop_unfold, Hrun.
Qed.

Lemma error_exit_ends (e : exn) (w : world) : result (error_exit e) w ≠ Ok None.
Proof.
  unfold result. rewrite error_exit_run. cbv zeta.
  by destruct (writable (fs w) SESSION_HISTORY_FILE).
Qed.

(** X1. The command loop ends on every input, by [exit], by the restart
    command, or in the [except] clause once the input is used up or a
    command fails: with more fuel than there are input lines the loop of
    the model never runs out of it, and more fuel changes nothing. *)
Theorem main_terminates (fuel : nat) (w : world) :
  length (stdin w) < fuel →
  result (main fuel) w ≠ Ok None ∧
  ∀ fuel', length (stdin w) < fuel' → main fuel' w = main fuel w.
Proof.
  intros Hlen.
  assert (Hstart : keeps input_shrinks startup) by keeps_tac.
  specialize (Hstart w). unfold keeps_at, input_shrinks, final in Hstart.
  unfold result, main, mbind, M_bind.
  destruct (startup w) as [[[m|e] w1] t1]; simpl in *; [|done].
  destruct (loop_enough fuel m w1 ltac:(lia)) as [Hne Hfuel]. split.
  - unfold main_try, try_except. unfold result in Hne.
    destruct (loop fuel m w1) as [[[r|e] w2] t2]; simpl in *; [done|].
    pose proof (error_exit_ends e w2) as He. unfold result in He.
    by destruct (error_exit e w2) as [[r w3] t3].
  - intros fuel' Hlen'. unfold main_try, try_except. by rewrite (Hfuel fuel') by lia.
Qed.

Lemma main_terminates_witness :
  let w := fresh_world ["login"; "demoplate"; "245225"; "exit"; "loglist"] in
  result (main 6) w ≠ Ok None ∧ main 9 w = main 6 w.
Proof.
  intros w. destruct (main_terminates 6 w) as [Hne Hfuel]; [simpl; lia|].
  split; [exact Hne|]. apply Hfuel. simpl. lia.
Defined.



(** ** Guests *)

Lemma break_space_fst (s a b : string) :
  break_space s = Some (a, b) → contains " " a = false.
Proof.
  revert a. induction s as [|c s IH]; intros a; [done|].
  cbn [break_space]. destruct (Ascii.eqb c " ") eqn:Hc.
  - by intros [= <- <-].
  - destruct (break_space s) as [[a' b']|]; [|done].
    intros [= <- <-]. rewrite contains_space_cons, Hc. by apply IH.
Qed.

Lemma break_space_None (s : string) : break_space s = None → contains " " s = false.
Proof.
  induction s as [|c s IH]; [done|].
  cbn [break_space]. destruct (Ascii.eqb c " ") eqn:Hc; [done|].
  destruct (break_space s) as [[a' b']|]; [done|].
  intros _. rewrite contains_space_cons, Hc. by apply IH.
Qed.

(** The command name never holds a space. *)
Lemma base_command_no_space (command_raw : string) :
  contains " " (base_command command_raw) = false.
Proof.
  unfold base_command, command_parts. rewrite split_space_once.
  destruct (break_space (lower command_raw)) as [[a b]|] eqn:Hb; simpl.
  - by eapply break_space_fst.
  - by apply break_space_None.
Qed.

Lemma find_command_None (base : string) table :
  find_command base table = None → base ∉ table.*1.
Proof.
  induction table as [|[name h'] table IH]; [intros _; by apply not_elem_of_nil|].
  unfold find_command; fold find_command. rewrite fmap_cons.
  destruct (String.eqb_spec base name) as [->|Hne]; [done|].
  intros Hf. apply not_elem_of_cons. split; [done|by apply IH].
Qed.

Lemma commands_no_execv (name : string) h (arg : string) (m : mem) (w : world) :
  (name, h) ∈ commands → result (h arg m) w ≠ Ok Execv.
Proof.
  unfold commands. intros Hin.
  repeat (apply elem_of_cons in Hin as [[= -> ->]|Hin];
          [unfold continue_with;
           repeat first [rewrite result_bind | rewrite result_fmap | case_match];
           done|]).
  by apply elem_of_nil in Hin.
Qed.

(** X3. A guest cannot restart the program: the allow-list names the whole
    restart line, the gate compares the command name, and the name never
    holds a space. *)
Theorem guest_cannot_restart (m : mem) (w : world) :
  logged_in w = false → result (iteration m) w ≠ Ok Execv.
Proof.
  intros Hout. destruct (stdin w) as [|line rest] eqn:Hin.
  { unfold result, iteration. run_M. by rewrite Hin. }
  unfold result. rewrite (iteration_unfold _ _ _ _ Hin).
  assert (Hout' : logged_in (set_stdin rest w) = false) by done.
  destruct (decide (base_command (strip line) ∈ allowed_guest_commands)) as [Hcmd|Hcmd].
  2: { rewrite (dispatch_denied _ _ _ Hout' Hcmd). simpl. discriminate. }
  destruct (find_command (base_command (strip line)) commands) as [h|] eqn:Hf.
  - rewrite (dispatch_guest _ _ _ h) by done.
    eapply commands_no_execv, find_command_elem, Hf.
  - unfold dispatch. run_M. rewrite Hout', Hf, (bool_decide_eq_true_2 _ Hcmd). simpl.
    destruct (String.eqb_spec (strip line) "hyprctl dispatch exit") as [Heq|Hne]; [|done].
    exfalso. revert Hcmd. rewrite Heq. compute_done.
Qed.

Lemma guest_cannot_restart_witness :
  result (iteration seed_mem) (fresh_world ["hyprctl dispatch exit"]) ≠ Ok Execv.
Proof. apply guest_cannot_restart. reflexivity. Defined.

Lemma main_login_user (w : world) :
  logged_in w = false →
  logged_in (final main_login w) = true →
  ∃ rest, stdin w = "demoplate" :: "245225" :: rest ∧
          current_platecore_id (final main_login w) = Some "demoplate".
Proof.
  intros Hout. unfold final, main_login, mark_logged_in. run_M. rewrite Hout. simpl.
  unfold logged_in in *.
  destruct (stdin w) as [|id [|pw rest]] eqn:Hin; simpl; try congruence.
  destruct (String.eqb_spec id "demoplate") as [->|Hid]; simpl.
  - destruct (String.eqb_spec pw "245225") as [->|Hpw]; simpl.
    + intros _. exists rest. split; [done|].
      destruct (writable (fs w) SESSION_FILE); simpl; [|done].
      rewrite record_session_event_run. simpl.
      by destruct (writable (fs w) SESSION_HISTORY_FILE).
    + rewrite record_session_event_run. simpl.
      destruct (writable (fs w) SESSION_HISTORY_FILE); simpl; congruence.
  - rewrite record_session_event_run. simpl.
    destruct (writable (fs w) SESSION_HISTORY_FILE); simpl; congruence.
Qed.

Lemma guest_handlers_stay_guest (name : string) h (arg : string) (m : mem) :
  (name, h) ∈ commands → name ∈ ["help"; "clear"; "exit"; "importdata"] →
  keeps stays_guest (h arg m).
Proof.
  unfold commands. intros Hin Hname.
  repeat (apply elem_of_cons in Hin as [[= -> ->]|Hin];
          [first [keeps_tac; fail | exfalso; revert Hname; compute_done]|]).
  by apply elem_of_nil in Hin.
Qed.

(** X4. Only the [login] command with the fixed credentials logs a guest in:
    if the session global is unset before an iteration and set after it,
    the command was [login], the next two input lines were "demoplate"
    and "245225", and the global names that user. *)
Theorem only_login_logs_in (m : mem) (w : world) (line : string) (rest : list string) :
  stdin w = line :: rest →
  logged_in w = false →
  logged_in (final (iteration m) w) = true →
  base_command (strip line) = "login" ∧
  ∃ rest', rest = "demoplate" :: "245225" :: rest' ∧
           current_platecore_id (final (iteration m) w) = Some "demoplate".
Proof.
  intros Hin Hout. unfold final. rewrite (iteration_unfold _ _ _ _ Hin).
  assert (Hout' : logged_in (set_stdin rest w) = false) by done.
  destruct (decide (base_command (strip line) ∈ allowed_guest_commands)) as [Hcmd|Hcmd].
  2: { rewrite (dispatch_denied _ _ _ Hout' Hcmd). simpl. congruence. }
  destruct (decide (base_command (strip line) = "login")) as [Hlogin|Hother].
  - rewrite (dispatch_guest _ _ _ (λ _ m, continue_with m main_login))
      by (done || by rewrite Hlogin).
    pose proof (main_login_user (set_stdin rest w) Hout') as Huser.
    unfold continue_with. fold (final (main_login ≫= λ _, mret (Continue m)) (set_stdin rest w)).
    rewrite final_bind.
    assert (Hfin : match result main_login (set_stdin rest w) with
                   | Ok a => final (mret (Continue m)) (final main_login (set_stdin rest w))
                   | Raise _ => final main_login (set_stdin rest w)
                   end = final main_login (set_stdin rest w)).
    { by destruct (result main_login (set_stdin rest w)). }
    rewrite Hfin. intros Hlogged. destruct (Huser Hlogged) as (rest' & Hrest & Hid).
    split; [done|]. by exists rest'.
  - assert (Hname : base_command (strip line) ∈ ["help"; "clear"; "exit"; "importdata"]).
    { pose proof (base_command_no_space (strip line)) as Hsp.
      unfold allowed_guest_commands in Hcmd.
      repeat (apply elem_of_cons in Hcmd as [Hcmd|Hcmd];
              [first [done | rewrite Hcmd; in_trace | by rewrite Hcmd in Hsp]|]).
      by apply elem_of_nil in Hcmd. }
    destruct (find_command (base_command (strip line)) commands) as [h|] eqn:Hf.
    + rewrite (dispatch_guest _ _ _ h) by done.
      pose proof (guest_handlers_stay_guest _ h (arg (strip line)) m
                    (find_command_elem _ _ _ Hf) Hname (set_stdin rest w) Hout') as Hg.
      unfold final in Hg. congruence.
    + apply find_command_None in Hf. exfalso. apply Hf. revert Hname.
      generalize (base_command (strip line)). intros name Hname.
      repeat (apply elem_of_cons in Hname as [->|Hname]; [compute_done|]).
      by apply elem_of_nil in Hname.
Qed.

Lemma only_login_logs_in_witness :
  let w := fresh_world ["login"; "demoplate"; "245225"; "whoami"] in
  base_command (strip "login") = "login" ∧
  current_platecore_id (final (iteration seed_mem) w) = Some "demoplate".
Proof.
  intros w.
  destruct (only_login_logs_in seed_mem w "login" ["demoplate"; "245225"; "whoami"])
    as (Hcmd & rest' & Hrest & Hid).
  - reflexivity.
  - reflexivity.
  - vm_compute. reflexivity.
  - split; [exact Hcmd|exact Hid].
Defined.
(** ** Commands that only show something *)

Lemma query_handlers (name : string) h (arg : string) (m : mem) :
  (name, h) ∈ commands → name ∈ query_commands →
  keeps same_stores (h arg m) ∧
  ∀ w c, result (h arg m) w = Ok c → c = Continue m.
Proof.
  unfold commands. intros Hin Hname.
  repeat (apply elem_of_cons in Hin as [[= -> ->]|Hin];
          [first [ exfalso; revert Hname; compute_done
                 | split;
                   [keeps_tac
                   |intros w c; unfold continue_with;
                    repeat first [rewrite result_bind | case_match];
                    unfold result, mret, M_ret; simpl; congruence] ]|]).
  by apply elem_of_nil in Hin.
Qed.

(** X5. The commands that list, show, search or export leave the five store
    files and the collections in memory as they are, whatever the input
    and whoever is logged in. *)
Theorem queries_never_write (m : mem) (w : world) (line : string) (rest : list string) :
  stdin w = line :: rest →
  base_command (strip line) ∈ query_commands →
  same_stores w (final (iteration m) w) ∧
  ∀ c, result (iteration m) w = Ok c → c = Continue m.
Proof.
  intros Hin Hname. unfold result, final. rewrite (iteration_unfold _ _ _ _ Hin).
  set (w' := set_stdin rest w).
  assert (Hw' : same_stores w w') by done.
  unfold dispatch. run_M.
  destruct (negb (logged_in w') && _); simpl.
  { split; [done|]. by intros c [= <-]. }
  destruct (find_command (base_command (strip line)) commands) as [h|] eqn:Hf.
  - destruct (query_handlers _ h (arg (strip line)) m (find_command_elem _ _ _ Hf) Hname)
      as [Hk Hr].
    specialize (Hk w'). specialize (Hr w'). unfold keeps_at, result, final in *.
    destruct (h (arg (strip line)) m w') as [[r w2] t2]. simpl in *.
    split; [by etrans|done].
  - apply find_command_None in Hf. exfalso. apply Hf. revert Hname.
    generalize (base_command (strip line)). intros name Hname.
    unfold query_commands in Hname.
    repeat (apply elem_of_cons in Hname as [->|Hname]; [compute_done|]).
    by apply elem_of_nil in Hname.
Qed.

Lemma queries_never_write_witness :
  let w := session_world ["searchprofile z"; "exit"] in
  same_stores w (final (iteration seed_mem) w) ∧
  result (iteration seed_mem) w = Ok (Continue seed_mem).
Proof.
  intros w.
  destruct (queries_never_write seed_mem w "searchprofile z" ["exit"]) as [Hs Hr].
  - reflexivity.
  - compute_done.
  - split; [exact Hs|]. vm_compute. reflexivity.
Defined.
(** ** Integers and their decimal text *)

Lemma digit_char (d : N) :
  (d < 10)%N →
  is_digit (pretty_N_char d) = true ∧ digit_val (pretty_N_char d) = Z.of_N d.
Proof.
  intros Hd.
  assert (d = 0 ∨ d = 1 ∨ d = 2 ∨ d = 3 ∨ d = 4 ∨ d = 5 ∨ d = 6 ∨ d = 7 ∨
          d = 8 ∨ d = 9)%N as Hcases by lia.
  repeat destruct Hcases as [->|Hcases]; try subst d; by vm_compute.
Qed.

(** Reading back the digits that [str] wrote. *)
Lemma parse_pretty_N_go (x : N) (s : string) (b : bool) :
  (0 < x)%N →
  parse_digits 0 b (pretty_N_go x s) = parse_digits (Z.of_N x) true s.
Proof.
  revert s b. induction (N.lt_wf_0 x) as [x _ IH]. intros s b Hx.
  rewrite pretty_N_go_step by done.
  destruct (digit_char (x `mod` 10)) as [Hd Hv]; [by apply N.mod_lt|].
  assert (Hdiv : (x = 10 * (x `div` 10) + x `mod` 10)%N) by (by apply N.div_mod).
  destruct (decide (x `div` 10 = 0)%N) as [H0|H0].
  - rewrite H0, pretty_N_go_0. cbn [parse_digits]. rewrite Hd, Hv.
    by replace (10 * 0 + Z.of_N (x `mod` 10))%Z with (Z.of_N x) by lia.
  - rewrite IH; [|apply N.div_lt; lia|by apply N.neq_0_lt_0].
    cbn [parse_digits]. rewrite Hd, Hv.
    by replace (10 * Z.of_N (x `div` 10) + Z.of_N (x `mod` 10))%Z
      with (Z.of_N x) by lia.
Qed.

Lemma all_digits_pretty_N_go (x : N) (s : string) :
  all_digits (pretty_N_go x s) = all_digits s.
Proof.
  revert s. induction (N.lt_wf_0 x) as [x _ IH]. intros s.
  destruct (decide (x = 0)%N) as [->|Hx]; [by rewrite pretty_N_go_0|].
  rewrite pretty_N_go_step by lia. rewrite IH by (apply N.div_lt; lia).
  cbn [all_digits].
  by destruct (digit_char (x `mod` 10)) as [-> _]; [by apply N.mod_lt|].
Qed.

Lemma pretty_N_go_nonempty (x : N) (s : string) :
  (0 < x)%N → pretty_N_go x s ≠ "".
Proof.
  revert s. induction (N.lt_wf_0 x) as [x _ IH]. intros s Hx.
  rewrite pretty_N_go_step by done.
  destruct (decide (x `div` 10 = 0)%N) as [H0|H0].
  - by rewrite H0, pretty_N_go_0.
  - apply IH; [apply N.div_lt; lia|by apply N.neq_0_lt_0].
Qed.

Lemma digit_not_space (c : ascii) : is_digit c = true → is_space c = false.
Proof. destruct c as [[] [] [] [] [] [] [] []]; by vm_compute. Qed.

Lemma rstrip_digits (s : string) : all_digits s = true → rstrip s = s.
Proof.
  induction s as [|c s IH]; [done|].
  cbn [all_digits rstrip]. intros [Hc Hs]%andb_true_iff. rewrite IH by done.
  destruct s; [|done]. by rewrite digit_not_space.
Qed.

Lemma strip_digits (s : string) : all_digits s = true → strip s = s.
Proof.
  intros Hs. unfold strip. destruct s as [|c s]; [done|].
  cbn [lstrip]. cbn [all_digits] in Hs. apply andb_true_iff in Hs as [Hc Hs].
  rewrite digit_not_space by done. apply rstrip_digits. cbn [all_digits].
  by rewrite Hc, Hs.
Qed.

Lemma strip_minus_digits (s : string) :
  all_digits s = true → strip (String "-" s) = String "-" s.
Proof.
  intros Hs. unfold strip. cbn [lstrip]. change (is_space "-") with false.
  cbn [rstrip]. rewrite rstrip_digits by done. by destruct s.
Qed.

Lemma py_int_digits (s : string) :
  all_digits s = true → py_int s = parse_digits 0 false s.
Proof.
  intros Hs. unfold py_int. rewrite strip_digits by done.
  destruct s as [|c s]; [done|].
  cbn [all_digits] in Hs. apply andb_true_iff in Hs as [Hc _].
  destruct c as [[] [] [] [] [] [] [] []]; try done; by vm_compute in Hc.
Qed.

Lemma py_str_positive (p : positive) : py_str (Z.pos p) = pretty_N_go (N.pos p) "".
Proof. reflexivity. Qed.

Lemma py_str_negative (p : positive) :
  py_str (Z.neg p) = String "-" (pretty_N_go (N.pos p) "").
Proof. reflexivity. Qed.

(** [int(str(n)) == n] *)
Lemma py_int_py_str (n : Z) : py_int (py_str n) = Some n.
Proof.
  destruct n as [|p|p].
  - reflexivity.
  - rewrite py_str_positive, py_int_digits by (by rewrite all_digits_pretty_N_go).
    by rewrite parse_pretty_N_go by lia.
  - rewrite py_str_negative. unfold py_int.
    rewrite strip_minus_digits by (by rewrite all_digits_pretty_N_go).
    by rewrite parse_pretty_N_go by lia.
Qed.

Lemma py_str_inj (n k : Z) : py_str n = py_str k → n = k.
Proof. unfold py_str. apply (inj pretty). Qed.

(** The text of a positive integer is made of digits. *)
Lemma isdigit_py_str (n : Z) : (0 < n)%Z → isdigit (py_str n) = true.
Proof.
  destruct n as [|p|p]; [lia| |lia]. intros _. rewrite py_str_positive.
  unfold isdigit. rewrite all_digits_pretty_N_go.
  pose proof (pretty_N_go_nonempty (N.pos p) "" ltac:(lia)).
  by destruct (pretty_N_go (N.pos p) "").
Qed.

Lemma remove_T_dash_digits (s : string) : all_digits s = true → remove_T_dash s = s.
Proof.
  induction s as [|c s IH]; [done|].
  cbn [all_digits]. intros [Hc Hs]%andb_true_iff.
  assert (Hc' : c ≠ "T"%char) by (intros ->; by vm_compute in Hc).
  assert (remove_T_dash (String c s) = String c (remove_T_dash s)) as ->.
  { by destruct c as [[] [] [] [] [] [] [] []]. }
  by rewrite IH.
Qed.
(** ** Task ids *)

Lemma get_or_present (t : jobj) (key : string) (v dflt : jval) :
  get t key = v → v ≠ JNull → get_or t key dflt = v.
Proof.
  unfold get, get_or. destruct (t !! key) as [x|]; simpl; [done|]. by intros <-.
Qed.

Lemma max_task_id_ge (tasks : list jobj) (max_id r : Z) :
  max_task_id max_id tasks = Ok r → (max_id ≤ r)%Z.
Proof.
  revert max_id. induction tasks as [|t tasks IH]; intros max_id.
  - intros [= <-]. lia.
  - cbn [max_task_id]. destruct (get_or t "TaskID" (JStr "T-0")) as [| |tid]; try done.
    intros Hr%IH. destruct (isdigit (remove_T_dash tid)); lia.
Qed.

Lemma max_task_id_ok (tasks : list jobj) (max_id : Z) :
  (∀ t, t ∈ tasks → ∃ s, get_or t "TaskID" (JStr "T-0") = JStr s) →
  ∃ r, max_task_id max_id tasks = Ok r.
Proof.
  revert max_id. induction tasks as [|t tasks IH]; intros max_id Hstr; [by eexists|].
  cbn [max_task_id]. destruct (Hstr t) as [s ->]; [apply list_elem_of_here|].
  apply IH. intros t' Ht'. by apply Hstr, list_elem_of_further.
Qed.

(** The highest id the loop finds is at least the number of every task
    id of the form T-n. *)
Lemma max_task_id_upper (tasks : list jobj) (max_id r : Z) (t : jobj) (n : Z) :
  max_task_id max_id tasks = Ok r →
  t ∈ tasks → get t "TaskID" = JStr ("T-" +:+ py_str n) → (0 < n)%Z →
  (n ≤ r)%Z.
Proof.
  revert max_id. induction tasks as [|t' tasks IH]; intros max_id Hr Hin Hid Hn.
  { by apply elem_of_nil in Hin. }
  cbn [max_task_id] in Hr. apply elem_of_cons in Hin as [<-|Hin].
  - rewrite (get_or_present _ _ _ _ Hid) in Hr by done.
    change ("T-" +:+ py_str n) with (String "T" (String "-" (py_str n))) in Hr.
    cbn [remove_T_dash] in Hr.
    assert (Hd : all_digits (py_str n) = true).
    { pose proof (isdigit_py_str n Hn) as H. unfold isdigit in H.
      by destruct (py_str n). }
    rewrite remove_T_dash_digits, isdigit_py_str, py_int_py_str in Hr by done.
    apply max_task_id_ge in Hr. simpl in Hr. lia.
  - destruct (get_or t' "TaskID" (JStr "T-0")) as [| |tid]; try done.
    by eapply IH.
Qed.

(** The id [task_add_command] gives a new task is not the id of any
    task of the project. *)
Lemma next_task_id_fresh (tasks : list jobj) (r : Z) :
  max_task_id 0 tasks = Ok r →
  JStr ("T-" +:+ py_str (r + 1)) ∉ task_ids tasks.
Proof.
  intros Hr (t & Hid & Hin)%list_elem_of_fmap.
  pose proof (max_task_id_ge _ _ _ Hr).
  pose proof (max_task_id_upper _ _ _ t (r + 1) Hr Hin (eq_sym Hid)). lia.
Qed.

(** The highest id the loop finds bounds the number of every task and,
    unless it is the number the loop started with, is the number of a
    task. *)
Lemma max_task_id_bound (tasks : list jobj) (max_id r : Z) (t : jobj) (k : Z) :
  max_task_id max_id tasks = Ok r → t ∈ tasks → task_number t k → (k ≤ r)%Z.
Proof.
  revert max_id. induction tasks as [|t' tasks IH]; intros max_id Hr Hin Hk.
  { by apply elem_of_nil in Hin. }
  cbn [max_task_id] in Hr. apply elem_of_cons in Hin as [<-|Hin].
  - destruct Hk as (tid & Htid & Hd & Hint). rewrite Htid, Hd, Hint in Hr.
    apply max_task_id_ge in Hr. simpl in Hr. lia.
  - destruct (get_or t' "TaskID" (JStr "T-0")) as [| |tid]; try done.
    by eapply IH.
Qed.

Lemma max_task_id_attained (tasks : list jobj) (max_id r : Z) :
  (0 ≤ max_id)%Z →
  max_task_id max_id tasks = Ok r →
  r = max_id ∨ ∃ t, t ∈ tasks ∧ task_number t r.
Proof.
  revert max_id. induction tasks as [|t tasks IH]; intros max_id Hpos.
  { intros [= <-]. by left. }
  cbn [max_task_id].
  destruct (get_or t "TaskID" (JStr "T-0")) as [| |tid] eqn:Htid; try done.
  destruct (isdigit (remove_T_dash tid)) eqn:Hd.
  - intros Hr.
    assert (Hpos' : (0 ≤ Z.max max_id (default 0 (py_int (remove_T_dash tid))))%Z)
      by lia.
    destruct (IH _ Hpos' Hr) as [->|(t' & Hin & Hk)].
    + destruct (py_int (remove_T_dash tid)) as [k|] eqn:Hint; simpl.
      * destruct (Z.max_spec max_id k) as [[_ ->]|[_ ->]]; [|by left].
        right. exists t. split; [apply list_elem_of_here|]. by exists tid.
      * left. lia.
    + right. exists t'. split; [by apply list_elem_of_further|done].
  - intros Hr. destruct (IH _ Hpos Hr) as [->|(t' & Hin & Hk)]; [by left|].
    right. exists t'. split; [by apply list_elem_of_further|done].
Qed.

Lemma get_insert_eq (t : jobj) (key : string) (v : jval) : get (<[key := v]> t) key = v.
Proof. unfold get. by rewrite lookup_insert_eq. Qed.

Lemma get_insert_ne (t : jobj) (key key' : string) (v : jval) :
  key ≠ key' → get (<[key := v]> t) key' = get t key'.
Proof. intros Hne. unfold get. by rewrite lookup_insert_ne. Qed.

(** X6. [taskadd] on a project whose task ids are plain strings: the new
    task goes last, pending, under the id T-n, where n is 1 for an empty
    task list and otherwise one more than the highest number among the
    task ids (0 when no id has a number); no task of the project has
    that id, so task ids that are distinct stay distinct; the assignee is
    a profile of the profile store or "Unassigned"; the projects are
    saved. *)
Theorem task_add_fresh_id (projects_data : gmap string project) (project_id : string)
    (proj : project) (tasks : list jobj) (desc assignee : string)
    (rest : list string) (w : world) :
  nonempty project_id = true →
  projects_data !! upper project_id = Some proj →
  p_tasks proj = Some tasks →
  (∀ t, t ∈ tasks →
        ∃ s, get_or t "TaskID" (JStr "T-0") = JStr s ∧ plain s = true) →
  stdin w = desc :: assignee :: rest →
  nonempty (strip desc) = true →
  writable (fs w) PROJECTS_FILE = true →
  ∃ t n,
    let projects_data' :=
      <[upper project_id := set_tasks proj (tasks ++ [t])]> projects_data in
    result (task_add_command projects_data project_id) w = Ok projects_data' ∧
    projects_json (fs (final (task_add_command projects_data project_id) w)) =
      Content projects_data' ∧
    get t "TaskID" = JStr ("T-" +:+ py_str n) ∧
    (tasks = [] → n = 1%Z) ∧
    (∀ t0 k, t0 ∈ tasks → task_number t0 k → (k < n)%Z) ∧
    (tasks ≠ [] → n = 1%Z ∨ ∃ t0, t0 ∈ tasks ∧ task_number t0 (n - 1)) ∧
    (get t "TaskID" ∉ task_ids tasks) ∧
    (NoDup (task_ids tasks) → NoDup (task_ids (tasks ++ [t]))) ∧
    get t "Status" = JStr "Pending" ∧
    get t "Description" = JStr (strip desc) ∧
    (get t "AssignedTo" = JStr "Unassigned" ∨
     (get t "AssignedTo" = JStr (upper (strip assignee)) ∧
      is_Some (contents (profiles_json (fs w)) ∅ !! upper (strip assignee)))).
Proof.
  intros Hid Hproj Htasks Hascii Hin Hdesc Hw.
  assert (Hstr : ∀ t, t ∈ tasks → ∃ s, get_or t "TaskID" (JStr "T-0") = JStr s).
  { intros t Ht. destruct (Hascii t Ht) as (s & Hs & _). by exists s. }
  assert (Hnext : ∃ n,
    (if tasks is [] then mret 1%Z
     else max_id ← lift_res (max_task_id 0 tasks); mret (max_id + 1)%Z)
    = (mret n : M Z) ∧ (JStr ("T-" +:+ py_str n) ∉ task_ids tasks) ∧
    (tasks = [] → n = 1%Z) ∧
    (∀ t0 k, t0 ∈ tasks → task_number t0 k → (k < n)%Z) ∧
    (tasks ≠ [] → n = 1%Z ∨ ∃ t0, t0 ∈ tasks ∧ task_number t0 (n - 1))).
  { destruct tasks as [|t0 tasks'] eqn:Ht.
    - exists 1%Z. split; [done|]. split; [apply not_elem_of_nil|].
      split; [done|]. split; [|done]. by intros t0 k ?%elem_of_nil.
    - rewrite <- Ht in *. destruct (max_task_id_ok tasks 0 Hstr) as [r Hr].
      exists (r + 1)%Z. split; [rewrite Hr; reflexivity|].
      split; [by apply next_task_id_fresh|]. split; [by rewrite Ht|]. split.
      + intros t1 k Ht1 Hk. pose proof (max_task_id_bound _ _ _ _ _ Hr Ht1 Hk). lia.
      + intros _. destruct (max_task_id_attained tasks 0 r ltac:(lia) Hr) as [->|Hatt];
          [by left|right].
        by replace (r + 1 - 1)%Z with r by lia. }
  destruct Hnext as (n & Hnext & Hfresh & Hempty & Hbound & Hatt).
  unfold result, final, task_add_command. rewrite Hid, Hproj. cbv zeta.
  unfold get_tasks. rewrite Htasks. change (default [] (Some tasks)) with tasks.
  rewrite Hnext.
  unfold load_profiles, save_profiles, save_projects. run_M. simpl.
  rewrite Hin. simpl. rewrite Hdesc. simpl.
  set (known := is_Some (contents (profiles_json (fs w)) ∅ !! upper (strip assignee))).
  assert (Hfinish : ∀ a : string,
    let t : jobj := <["TaskID" := JStr ("T-" +:+ py_str n)]>
                    (<["Description" := JStr (strip desc)]>
                    (<["AssignedTo" := JStr a]>
                    (<["Status" := JStr "Pending"]> ∅))) in
    get t "TaskID" = JStr ("T-" +:+ py_str n) ∧
    (get t "TaskID" ∉ task_ids tasks) ∧
    (NoDup (task_ids tasks) → NoDup (task_ids (tasks ++ [t]))) ∧
    get t "Status" = JStr "Pending" ∧
    get t "Description" = JStr (strip desc) ∧
    get t "AssignedTo" = JStr a).
  { intros a t. subst t. rewrite !get_insert_eq.
    split; [done|]. split; [done|]. split; [|by split_and!].
    intros Hnd. unfold task_ids. rewrite fmap_app. simpl. rewrite get_insert_eq.
    apply NoDup_app. split; [done|]. split; [|apply NoDup_singleton].
    intros x Hx ->%list_elem_of_singleton. by apply Hfresh. }
  destruct (nonempty (upper (strip assignee))) eqn:Ha; simpl.
  - rewrite load_json_file_run. simpl.
    case_bool_decide as Hknown; simpl; rewrite save_json_file_run; simpl;
      rewrite Hw; simpl.
    + destruct (Hfinish (upper (strip assignee))) as (H0 & H1 & H2 & H3 & H4 & H5).
      eexists _, n. split; [reflexivity|]. split; [reflexivity|].
      split_and!; try done. by right.
    + destruct (Hfinish "Unassigned") as (H0 & H1 & H2 & H3 & H4 & H5).
      eexists _, n. split; [reflexivity|]. split; [reflexivity|].
      split_and!; try done. by left.
  - rewrite save_json_file_run. simpl. rewrite Hw. simpl.
    destruct (Hfinish "Unassigned") as (H0 & H1 & H2 & H3 & H4 & H5).
    eexists _, n. split; [reflexivity|]. split; [reflexivity|].
    split_and!; try done. by left.
Qed.

Lemma task_add_fresh_id_witness :
  let w := session_world ["Write the tests"; "z-1"; "exit"] in
  ∃ t n, result (task_add_command (projects seed_mem) "PROJ-001") w =
           Ok (<["PROJ-001" := set_tasks seed_project (get_tasks seed_project ++ [t])]>
                 (projects seed_mem)) ∧
         get t "TaskID" = JStr ("T-" +:+ py_str n) ∧
         get t "TaskID" ∉ task_ids (get_tasks seed_project).
Proof.
  intros w.
  destruct (task_add_fresh_id (projects seed_mem) "PROJ-001" seed_project
              (get_tasks seed_project) "Write the tests" "z-1" ["exit"] w)
    as (t & n & Hr & _ & Hid & _ & _ & _ & Hfresh & _).
  - reflexivity.
  - reflexivity.
  - reflexivity.
  - intros t Ht. unfold get_tasks, seed_project in Ht. simpl in Ht.
    repeat (apply elem_of_cons in Ht as [->|Ht];
            [eexists; split; reflexivity|]).
    by apply elem_of_nil in Ht.
  - reflexivity.
  - reflexivity.
  - reflexivity.
  - exists t, n. split; [exact Hr|]. split; [exact Hid|exact Hfresh].
Defined.
(** ** Export and import again *)

Lemma int_keys_py_str (l : list (Z * list string)) (acc : gmap Z (list string)) :
  NoDup l.*1 →
  int_keys ((λ kv, (py_str kv.1, kv.2)) <$> l) acc = Some (list_to_map l ∪ acc).
Proof.
  revert acc. induction l as [|[k v] l IH]; intros acc Hnd.
  - simpl. by rewrite (left_id_L ∅ (∪)).
  - rewrite fmap_cons in Hnd. apply NoDup_cons in Hnd as [Hk Hnd].
    rewrite fmap_cons. cbn [int_keys fst snd]. rewrite py_int_py_str, IH by done.
    f_equal. rewrite list_to_map_cons. simpl fst. simpl snd. apply map_eq. intros j.
    rewrite !lookup_union. destruct (decide (k = j)) as [<-|Hne].
    + rewrite !lookup_insert_eq.
      rewrite (proj1 (not_elem_of_list_to_map _ _) Hk).
      by destruct (acc !! k).
    + by rewrite !lookup_insert_ne.
Qed.

(** The log keys written by the export are read back as they were. *)
Lemma int_keys_exported (logs : gmap Z (list string)) :
  int_keys ((λ kv, (py_str kv.1, kv.2)) <$> map_to_list logs) ∅ = Some logs.
Proof.
  rewrite int_keys_py_str by apply NoDup_fst_map_to_list.
  by rewrite list_to_map_to_list, (right_id_L ∅ (∪)).
Qed.

Lemma import_entries_self {K V : Type} `{Countable K} (local : gmap K V) :
  (import_entries local (map_to_list local)).1.1 = local.
Proof. by rewrite import_entries_map, (idemp_L (∪)). Qed.

Lemma import_projects_self (local : gmap string project) :
  distinct_task_ids local → (import_projects local local).1 = local.
Proof.
  intros Hwf. apply map_eq. intros pid. rewrite import_projects_lookup.
  destruct (local !! pid) as [p|] eqn:Hp; [|done].
  destruct (Hwf pid p Hp) as (tasks & Htasks & Hnd).
  unfold import_one, get_tasks. rewrite Htasks. simpl.
  by rewrite merge_tasks_self, set_tasks_same.
Qed.

(** Importing what was exported from the same collections changes none
    of them, and appends nothing to a history that holds the exported
    entries. *)
Lemma import_outcome_exported (m : mem) (f : files) (h : list jobj) :
  distinct_task_ids (projects m) →
  (∀ e, e ∈ h → e ∈ history_on_disk f) →
  (import_outcome m f (exported m h)).1 = m ∧
  (history_safe f = true →
   history_on_disk (import_outcome m f (exported m h)).2 = history_on_disk f).
Proof.
  intros Hwf Hh. destruct m as [st ps pjs]. unfold import_outcome, exported.
  simpl. unfold set_profiles, set_stories, set_projects. simpl.
  rewrite int_keys_exported, !import_entries_self.
  simpl in Hwf. rewrite import_projects_self by done.
  unfold history_safe.
  destruct (writable f PROFILES_FILE); simpl;
    [|by unfold history_on_disk; rewrite failed_write_history].
  destruct (writable f LOGS_FILE); simpl;
    [|by unfold history_on_disk; rewrite failed_write_history].
  destruct (writable f PROJECTS_FILE); simpl;
    [|by unfold history_on_disk; rewrite failed_write_history].
  destruct (writable f SESSION_HISTORY_FILE); simpl.
  - split; [done|]. intros _. unfold history_on_disk in *. simpl.
    unfold import_history. by rewrite import_history_present.
  - split; [done|]. intros Ht. unfold failed_write. simpl.
    by destruct (truncates f SESSION_HISTORY_FILE).
Qed.

(** X7. Exporting everything to a file that is none of the program's own
    and importing that file gives back the same logs, profiles and
    projects, when every project carries a task list and the task ids
    within it are distinct; the session history is the same as well,
    unless a save of it fails with the file open, which leaves it cut
    short. *)
Theorem export_import_round_trip (m : mem) (w : world) (name name' : string)
    (rest : list string) :
  stdin w = name :: name' :: rest →
  strip name' = strip name →
  nonempty (strip name) = true →
  strip name ∉ store_names →
  other_writable (fs w) (strip name) = true →
  distinct_task_ids (projects m) →
  let h := history_on_disk (fs w) in
  let w1 := final (export_all_data (profiles m) (stories m) (projects m) h) w in
  let again := import_all_data (profiles m) (stories m) (projects m) h in
  other_files (fs w1) !! strip name = Some (ExtSnapshot (exported m h)) ∧
  result again w1 = Ok m ∧
  (history_safe (fs w) = true →
   history_on_disk (fs (final again w1)) = history_on_disk (fs w)).
Proof.
  intros Hin Hsame Hname _ Hw Hwf h w1 again.
  assert (Hw1 : w1 = set_fs (put_other (strip name) (ExtSnapshot (exported m h)) (fs w))
                       (set_stdin (name' :: rest) w)).
  { subst w1. unfold final, export_all_data. run_M. simpl.
    rewrite Hin. simpl. rewrite Hname. simpl. rewrite Hw. reflexivity. }
  assert (Hfile : other_files (fs w1) !! strip name = Some (ExtSnapshot (exported m h))).
  { rewrite Hw1. simpl. apply lookup_insert_eq. }
  split; [done|].
  destruct (import_all_data_outcome (profiles m) (stories m) (projects m) h w1
              name' rest (exported m h)) as [Hr Hf].
  { by rewrite Hw1. }
  { by rewrite Hsame. }
  { by rewrite Hsame. }
  assert (Hm : {| stories := stories m; profiles := profiles m; projects := projects m |} = m)
    by by destruct m.
  rewrite Hm in Hr, Hf.
  destruct (import_outcome_exported m (fs w1) h Hwf) as [Hres Hhist].
  { intros e He. rewrite Hw1. exact He. }
  subst again. rewrite Hr, Hf, Hres. split; [done|].
  intros Hs. simpl. rewrite Hhist by (by rewrite Hw1). by rewrite Hw1.
Qed.

Lemma seed_distinct_task_ids : distinct_task_ids (projects seed_mem).
Proof.
  intros pid p Hp.
  destruct (decide (pid = "PROJ-001")) as [->|Hne].
  - vm_compute in Hp. injection Hp as <-. eexists. split; [reflexivity|].
    compute_done.
  - unfold seed_mem in Hp. simpl in Hp. rewrite lookup_insert_ne in Hp by done.
    by rewrite lookup_empty in Hp.
Qed.

Lemma export_import_round_trip_witness :
  let w := session_world ["backup.json"; " backup.json "] in
  let h := history_on_disk (fs w) in
  let w1 := final (export_all_data (profiles seed_mem) (stories seed_mem)
                     (projects seed_mem) h) w in
  result (import_all_data (profiles seed_mem) (stories seed_mem)
            (projects seed_mem) h) w1 = Ok seed_mem.
Proof.
  intros w h w1.
  destruct (export_import_round_trip seed_mem w "backup.json" " backup.json " [])
    as (_ & Hr & _).
  - reflexivity.
  - reflexivity.
  - reflexivity.
  - compute_done.
  - reflexivity.
  - exact seed_distinct_task_ids.
  - exact Hr.
Defined.
(** ** Memory and disk *)

Lemma synced_same_collections (m : mem) (w w' : world) :
  same_collections w w' → synced m (fs w) → synced m (fs w').
Proof.
  intros (Hp & Hl & Hj) (? & ? & ?). unfold synced. by rewrite Hp, Hl, Hj.
Qed.

Section writes_back.
Context {A : Type} (view : A → option mem).

Lemma wb_raise (e : exn) (m : mem) : writes_back view (raise e) m.
Proof. by intros w a m' _. Qed.

Lemma wb_ret (a : A) (m : mem) :
  (∀ m', view a = Some m' → m' = m) → writes_back view (mret a) m.
Proof. intros Hv w a' m' Hs [= <-] Ha. by rewrite (Hv m' Ha). Qed.

Lemma wb_keeps {B : Type} (c : M B) (k : B → M A) (m : mem) :
  keeps same_collections c → (∀ b, writes_back view (k b) m) →
  writes_back view (c ≫= k) m.
Proof.
  intros Hc Hk w a m' Hs. rewrite result_bind, final_bind.
  destruct (result c w) as [b|e] eqn:Hr; [|done].
  apply Hk. eapply synced_same_collections; [apply Hc|done].
Qed.

Lemma wb_save (f : store) (d : fdata) (k : unit → M A) (m m1 : mem) :
  (∀ g, synced m g → synced m1 (put_data d g)) →
  (∀ u, writes_back view (k u) m1) →
  writes_back view (save_json_file f d ≫= k) m.
Proof.
  intros Hd Hk w a m' Hs. rewrite result_bind, final_bind.
  assert (Hrun : save_json_file f d w =
                 (result (save_json_file f d) w, final (save_json_file f d) w,
                  trace (save_json_file f d) w)) by apply run_eta.
  rewrite save_json_file_run in Hrun.
  destruct (writable (fs w) f); injection Hrun as <- <- _; [|done].
  intros Hr Ha. eapply Hk; [|exact Hr|exact Ha]. simpl. by apply Hd.
Qed.

End writes_back.

Lemma wb_bind_ret {A B : Type} (view : B → option mem) (c : M A) (g : A → B) (m : mem) :
  writes_back (view ∘ g) c m → writes_back view (c ≫= λ a, mret (g a)) m.
Proof.
  intros Hc w b m' Hs. rewrite result_bind, final_bind.
  destruct (result c w) as [a|e] eqn:Hr; [|done].
  intros [= <-] Hv. by eapply Hc.
Qed.

Lemma wb_fmap {A B : Type} (view : B → option mem) (c : M A) (g : A → B) (m : mem) :
  writes_back (view ∘ g) c m → writes_back view (g <$> c) m.
Proof.
  intros Hc w b m' Hs. rewrite result_fmap, final_fmap.
  destruct (result c w) as [a|e] eqn:Hr; [|done].
  intros [= <-] Hv. by eapply Hc.
Qed.

Lemma synced_logs (m : mem) (s : gmap Z (list string)) (g : files) :
  synced m g → synced (set_stories s m) (put_data (DLogs s) g).
Proof. intros (? & ? & ?). split_and!; [apply int_keys_exported|done..]. Qed.

Lemma synced_profiles (m : mem) (p : gmap string jobj) (g : files) :
  synced m g → synced (set_profiles p m) (put_data (DProfiles p) g).
Proof. by intros (? & ? & ?). Qed.

Lemma synced_projects (m : mem) (p : gmap string project) (g : files) :
  synced m g → synced (set_projects p m) (put_data (DProjects p) g).
Proof. by intros (? & ? & ?). Qed.

(** Follows a handler to its saves and its returns. *)
Ltac wb_ret_solve :=
  simpl; intros ? [= <-];
  first [ reflexivity
        | match goal with m : mem |- _ => by destruct m end ].

Ltac wb_step :=
  lazymatch goal with
  | |- writes_back _ (mret _) _ => apply wb_ret; wb_ret_solve
  | |- writes_back _ (raise _) _ => apply wb_raise
  | |- writes_back _ (save_logs ?s ≫= _) ?m =>
      unfold save_logs;
      apply (wb_save _ _ _ _ m (set_stories s m)); [apply synced_logs|intros ?]
  | |- writes_back _ (save_profiles ?s ≫= _) ?m =>
      unfold save_profiles;
      apply (wb_save _ _ _ _ m (set_profiles s m)); [apply synced_profiles|intros ?]
  | |- writes_back _ (save_projects ?s ≫= _) ?m =>
      unfold save_projects;
      apply (wb_save _ _ _ _ m (set_projects s m)); [apply synced_projects|intros ?]
  | |- writes_back _ (_ ≫= _) _ =>
      first [ apply wb_keeps; [solve [keeps_tac]|intros ?]
            | apply wb_bind_ret ]
  | |- writes_back _ (_ <$> _) _ => apply wb_fmap
  | |- writes_back _ (if ?b then _ else _) _ => destruct b
  | |- writes_back _ (match ?x with _ => _ end) _ => destruct x
  | |- writes_back _ (let _ := _ in _) _ => cbv zeta
  | |- writes_back _ _ _ =>
      progress unfold continue_with, main_newlog, main_editlog, main_deletelog,
        main_profilesadd, main_profilesedit, main_profilesdelete, main_taskadd,
        project_add_command, project_edit_command, project_delete_command,
        task_add_command, task_update_command
  end.

Ltac wb_tac := repeat wb_step.

Lemma filter_all {A : Type} (P : A → Prop) `{∀ x, Decision (P x)} (l : list A) :
  ¬ length (filter P l) < length l → filter P l = l.
Proof.
  induction l as [|x l IH]; [done|]. intros Hlen.
  destruct (decide (P x)) as [Hx|Hx].
  - rewrite filter_cons_True in * by done. simpl in Hlen. f_equal. apply IH. lia.
  - destruct Hlen. apply (length_filter_lt _ _ x); [apply list_elem_of_here|done].
Qed.

(** A [taskdelete] that finds nothing puts the task list back as it was. *)
Lemma task_delete_writes_back (m : mem) (args_str : string) :
  has_tasks (projects m) →
  writes_back (λ p, Some (set_projects p m)) (task_delete_command (projects m) args_str) m.
Proof.
  intros Hwf. unfold task_delete_command.
  destruct (split_space 1 args_str) as [|proj_id_raw [|task_id_raw more]]; [wb_tac..|].
  destruct (projects m !! upper proj_id_raw) as [proj|] eqn:Hproj; [|wb_tac].
  cbv zeta. case_bool_decide as Hlen; [wb_tac|].
  apply wb_keeps; [keeps_tac|]. intros _. apply wb_ret. intros m' [= <-].
  rewrite (filter_all _ _ Hlen).
  destruct (Hwf _ _ Hproj) as [tasks Htasks].
  unfold get_tasks. rewrite Htasks. simpl. rewrite (set_tasks_same _ _ Htasks).
  rewrite insert_id by done. by destruct m.
Qed.

(** After [importdata] the collections are read from the files. *)
Lemma main_importdata_writes_back (m m0 : mem) : writes_back Some (main_importdata m) m0.
Proof.
  intros w a m' _. unfold result, final, main_importdata, load_session_history,
    load_profiles, load_logs, load_projects. run_M. simpl.
  rewrite load_json_file_run. simpl.
  destruct (import_all_data _ _ _ _ w) as [[[r|e] w1] t1]; simpl; [|done].
  rewrite !load_json_file_run. simpl.
  destruct (int_keys (contents (logs_json (fs w1)) []) ∅) as [logs|] eqn:Hl;
    simpl; [|done].
  rewrite !load_json_file_run. simpl. by intros [= <-] [= <-].
Qed.

Lemma commands_write_back (name : string) h (arg : string) (m : mem) :
  (name, h) ∈ commands → has_tasks (projects m) → writes_back next_mem (h arg m) m.
Proof.
  unfold commands. intros Hin Hwf.
  repeat (apply elem_of_cons in Hin as [[= -> ->]|Hin];
          [first [ apply wb_fmap, main_importdata_writes_back
                 | apply wb_bind_ret, task_delete_writes_back, Hwf
                 | wb_tac; fail ]|]).
  by apply elem_of_nil in Hin.
Qed.

(** X8. Memory follows the disk: when the store files hold the collections
    in memory and every project has a task list, then after any command
    that lets the loop go on and exports nothing the store files hold
    the collections the next iteration starts with. Every change is
    saved before the command returns, and a failed save leaves as an
    exception. *)
Theorem memory_agrees_with_disk (m m' : mem) (w : world) :
  synced m (fs w) →
  has_tasks (projects m) →
  no_export (trace (iteration m) w) →
  result (iteration m) w = Ok (Continue m') →
  synced m' (fs (final (iteration m) w)).
Proof.
  intros Hs Hwf _. destruct (stdin w) as [|line rest] eqn:Hin.
  { unfold result, iteration. run_M. by rewrite Hin. }
  unfold result, final. rewrite (iteration_unfold _ _ _ _ Hin).
  set (w' := set_stdin rest w).
  assert (Hs' : synced m (fs w')) by done.
  unfold dispatch. run_M.
  destruct (negb (logged_in w') && _); simpl; [by intros [= <-]|].
  destruct (find_command (base_command (strip line)) commands) as [h|] eqn:Hf.
  - pose proof (commands_write_back _ h (arg (strip line)) m
                  (find_command_elem _ _ _ Hf) Hwf w') as Hh.
    unfold result, final in Hh.
    destruct (h (arg (strip line)) m w') as [[r w2] t2]. simpl in *.
    intros ->. by eapply Hh.
  - destruct (String.eqb (strip line) "hyprctl dispatch exit"); simpl.
    + unfold end_session. run_M. simpl.
      destruct (record_session_event _ _ _ _ _) as [[[[]|e] w2] t2]; simpl; [|done].
      by destruct (clear_session w2) as [[[[]|e] w3] t3].
    + by intros [= <-].
Qed.

Lemma seed_has_tasks : has_tasks (projects seed_mem).
Proof.
  intros pid p Hp. unfold seed_mem in Hp. simpl in Hp.
  apply lookup_insert_Some in Hp as [[_ <-]|[_ Hp]]; [by eexists|].
  by rewrite lookup_empty in Hp.
Qed.

Lemma memory_agrees_with_disk_witness :
  let w := set_fs (put_data (DProjects (projects seed_mem))
                  (put_data (DProfiles (profiles seed_mem))
                  (put_data (DLogs (stories seed_mem)) (fs (session_world [])))))
             (session_world ["taskdelete proj-001 t-2"; "exit"]) in
  ∃ m', result (iteration seed_mem) w = Ok (Continue m') ∧
        synced m' (fs (final (iteration seed_mem) w)).
Proof.
  intros w. eexists. split; [vm_compute; reflexivity|].
  apply (memory_agrees_with_disk seed_mem).
  - by split_and!.
  - exact seed_has_tasks.
  - vm_compute. reflexivity.
  - vm_compute. reflexivity.
Defined.
(** ** The start of [main] *)


(** ** What the commands return *)

Section returns.
Context {A : Type} (P : A → Prop).

Lemma returns_ret (a : A) : P a → returns P (mret a).
Proof. by intros Ha w a' [= <-]. Qed.

Lemma returns_raise (e : exn) : returns P (raise e : M A).
Proof. by intros w a. Qed.

Lemma returns_bind {B : Type} (c : M B) (k : B → M A) :
  (∀ b, returns P (k b)) → returns P (c ≫= k).
Proof.
  intros Hk w a. rewrite result_bind. destruct (result c w) as [b|e]; [|done].
  apply Hk.
Qed.

Lemma returns_try_except (body : M A) (handler : exn → M A) :
  returns P body → (∀ e, returns P (handler e)) → returns P (try_except body handler).
Proof.
  intros Hb Hh w a. specialize (Hb w). unfold result, try_except in *.
  destruct (body w) as [[[a'|e] w1] t1]; simpl in *; [apply Hb|].
  specialize (Hh e w1). unfold result in Hh.
  destruct (handler e w1) as [[r w2] t2]. simpl in *. apply Hh.
Qed.

End returns.

Lemma returns_bind_ret {A B : Type} (P : B → Prop) (c : M A) (g : A → B) :
  returns (P ∘ g) c → returns P (c ≫= λ a, mret (g a)).
Proof.
  intros Hc w b. rewrite result_bind. destruct (result c w) as [a|e] eqn:Hr; [|done].
  intros [= <-]. by apply (Hc w).
Qed.

Lemma returns_fmap {A B : Type} (P : B → Prop) (c : M A) (g : A → B) :
  returns (P ∘ g) c → returns P (g <$> c).
Proof.
  intros Hc w b. rewrite result_fmap. destruct (result c w) as [a|e] eqn:Hr; [|done].
  intros [= <-]. by apply (Hc w).
Qed.

(** Follows a handler to the values it returns; [tac] proves the
    property of each. *)
Ltac returns_step tac :=
  lazymatch goal with
  | |- returns _ (mret _) => apply returns_ret; tac
  | |- returns _ (raise _) => apply returns_raise
  | |- returns _ (project_add_command _ ≫= _) => apply returns_bind_ret
  | |- returns _ (project_edit_command _ _ ≫= _) => apply returns_bind_ret
  | |- returns _ (project_delete_command _ _ ≫= _) => apply returns_bind_ret
  | |- returns _ (task_add_command _ _ ≫= _) => apply returns_bind_ret
  | |- returns _ (task_update_command _ _ _ ≫= _) => apply returns_bind_ret
  | |- returns _ (task_delete_command _ _ ≫= _) => apply returns_bind_ret
  | |- returns _ (_ ≫= _) => apply returns_bind; intros ?
  | |- returns _ (_ <$> _) => apply returns_fmap
  | |- returns _ (if ?b then _ else _) => destruct b eqn:?
  | |- returns _ (match ?x with _ => _ end) => destruct x eqn:?
  | |- returns _ (let _ := _ in _) => cbv zeta
  | |- returns _ (main_taskadd _ _) => unfold main_taskadd
  | |- returns _ _ =>
      progress unfold continue_with, main_newlog, main_editlog, main_deletelog,
        main_profilesadd, main_profilesedit, main_profilesdelete,
        project_add_command, project_edit_command, project_delete_command,
        task_add_command, task_update_command, task_delete_command
  end.

Ltac one_key_solve :=
  unfold one_key; simpl;
  first [ match goal with
          | |- context [<[?k := _]> _] =>
              exists k; intros j Hj; by rewrite lookup_insert_ne
          | |- context [delete ?k _] =>
              exists k; intros j Hj; by rewrite lookup_delete_ne
          end
        | exists inhabitant; intros j Hj; reflexivity ].

Ltac one_record_solve :=
  simpl;
  first [ by intros ? ?
        | intros ? [= <-]; unfold one_record; simpl;
          first [ left; split_and!; [one_key_solve|reflexivity|reflexivity]
                | right; left; split_and!; [reflexivity|one_key_solve|reflexivity]
                | right; right; split_and!; [reflexivity|reflexivity|one_key_solve] ] ].

Lemma commands_one_record (name : string) h (arg : string) (m : mem) :
  (name, h) ∈ commands → name ≠ "importdata" →
  returns (λ c, ∀ m', next_mem c = Some m' → one_record m m') (h arg m).
Proof.
  unfold commands. intros Hin Hne.
  repeat (apply elem_of_cons in Hin as [[= -> ->]|Hin];
          [try done; repeat returns_step one_record_solve|]).
  by apply elem_of_nil in Hin.
Qed.

(** X10. Every command but [importdata] changes one log, one profile or one
    project at most: the collections it hands to the next iteration
    agree with the ones it was given on every other key. *)
Theorem one_record_per_command (m m' : mem) (w : world) (line : string)
    (rest : list string) :
  stdin w = line :: rest →
  base_command (strip line) ≠ "importdata" →
  result (iteration m) w = Ok (Continue m') →
  one_record m m'.
Proof.
  intros Hin Hne. unfold result. rewrite (iteration_unfold _ _ _ _ Hin).
  set (w' := set_stdin rest w).
  assert (Hsame : one_record m m).
  { left. split_and!; [|done..]. exists inhabitant. by intros j _. }
  unfold dispatch. run_M.
  destruct (negb (logged_in w') && _); simpl; [by intros [= <-]|].
  destruct (find_command (base_command (strip line)) commands) as [h|] eqn:Hf.
  - pose proof (commands_one_record _ h (arg (strip line)) m
                  (find_command_elem _ _ _ Hf) Hne w' (Continue m')) as Hh.
    unfold result in Hh.
    destruct (h (arg (strip line)) m w') as [[r w2] t2]. simpl in *.
    intros Hr. by apply Hh.
  - destruct (String.eqb (strip line) "hyprctl dispatch exit"); simpl.
    + unfold end_session. run_M. simpl.
      destruct (record_session_event _ _ _ _ _) as [[[[]|e] w2] t2]; simpl; [|done].
      by destruct (clear_session w2) as [[[[]|e] w3] t3].
    + by intros [= <-].
Qed.

Lemma one_record_per_command_witness :
  let w := session_world ["taskdelete proj-001 t-2"; "exit"] in
  ∃ m', result (iteration seed_mem) w = Ok (Continue m') ∧ one_record seed_mem m'.
Proof.
  intros w. eexists. split; [vm_compute; reflexivity|].
  apply (one_record_per_command seed_mem _ w "taskdelete proj-001 t-2" ["exit"]).
  - reflexivity.
  - vm_compute. discriminate.
  - vm_compute. reflexivity.
Defined.
(** ** Adding, editing, deleting *)

Lemma updated_from_refl (profiles_data : gmap string jobj) (t : jobj) :
  updated_from profiles_data t t.
Proof. split_and!; [done|by left|by left]. Qed.

Lemma Forall2_updated_refl (profiles_data : gmap string jobj) (tasks : list jobj) :
  Forall2 (updated_from profiles_data) tasks tasks.
Proof. apply Forall_Forall2_diag, Forall_forall. intros t _. apply updated_from_refl. Qed.

Ltac add_solve :=
  simpl;
  first [ reflexivity
        | apply insert_subseteq;
          first [ match goal with
                  | H : bool_decide (is_Some _) = false |- _ =>
                      apply bool_decide_eq_false in H; by apply eq_None_not_Some
                  end
                | apply eq_None_not_Some; intros ?%next_log_id_fresh; lia ] ].

(** X11. The commands that add a record never overwrite one: a project, a
    profile or a log that is there before [projectadd], [profilesadd] or
    [newlog] is there unchanged after it. *)
Theorem adding_never_overwrites (m : mem) :
  returns (λ projects_data, projects m ⊆ projects_data)
    (project_add_command (projects m)) ∧
  returns (λ m', profiles m ⊆ profiles m') (main_profilesadd m) ∧
  returns (λ m', stories m ⊆ stories m') (main_newlog m).
Proof. split_and!; repeat returns_step add_solve. Qed.

Lemma adding_never_overwrites_witness :
  let w := session_world ["proj-001"; "exit"] in
  let w' := session_world ["proj-002"; "Second phase"; ""; ""; ""; "exit"] in
  result (project_add_command (projects seed_mem)) w = Ok (projects seed_mem) ∧
  ∃ p, result (project_add_command (projects seed_mem)) w' = Ok p ∧
       projects seed_mem ⊆ p.
Proof.
  intros w w'. split; [vm_compute; reflexivity|].
  eexists. split; [vm_compute; reflexivity|].
  apply (proj1 (adding_never_overwrites seed_mem) w'). vm_compute. reflexivity.
Defined.

Ltac delete_solve :=
  simpl; first [ reflexivity | apply delete_subseteq ].

(** X12. The commands that delete a record only remove: every project,
    profile or log left after [projectdelete], [profilesdelete] or
    [deletelog] was there before, unchanged. *)
Theorem deleting_only_removes (m : mem) (arg : string) :
  returns (λ projects_data, projects_data ⊆ projects m)
    (project_delete_command (projects m) arg) ∧
  returns (λ m', profiles m' ⊆ profiles m) (main_profilesdelete arg m) ∧
  returns (λ m', stories m' ⊆ stories m) (main_deletelog arg m).
Proof. split_and!; repeat returns_step delete_solve. Qed.

Lemma deleting_only_removes_witness :
  let w := session_world ["Y"; "exit"] in
  ∃ p, result (project_delete_command (projects seed_mem) "proj-001") w = Ok p ∧
       p ⊆ projects seed_mem.
Proof.
  intros w. eexists. split; [vm_compute; reflexivity|].
  apply (proj1 (deleting_only_removes seed_mem "proj-001") w). vm_compute. reflexivity.
Defined.

Lemma insert_same_keys {K V : Type} `{Countable K} (d : gmap K V) (k : K) (v v' : V) :
  d !! k = Some v → ∀ j, is_Some (<[k := v']> d !! j) ↔ is_Some (d !! j).
Proof.
  intros Hk j. destruct (decide (k = j)) as [<-|Hne].
  - rewrite lookup_insert_eq, Hk. split; eauto.
  - by rewrite lookup_insert_ne.
Qed.

Ltac edit_solve :=
  simpl;
  first [ done
        | by eapply insert_same_keys ].

(** X13. The commands that edit never add or remove a record: after
    [projectedit], [taskadd], [taskupdate], [taskdelete], [profilesedit]
    and [editlog] the ids of the collection are the ones before. *)
Theorem editing_keeps_the_ids (m : mem) (arg : string) :
  returns (λ p, ∀ j, is_Some (p !! j) ↔ is_Some (projects m !! j))
    (project_edit_command (projects m) arg) ∧
  returns (λ p, ∀ j, is_Some (p !! j) ↔ is_Some (projects m !! j))
    (task_add_command (projects m) arg) ∧
  returns (λ p, ∀ j, is_Some (p !! j) ↔ is_Some (projects m !! j))
    (task_update_command (projects m) arg (profiles m)) ∧
  returns (λ p, ∀ j, is_Some (p !! j) ↔ is_Some (projects m !! j))
    (task_delete_command (projects m) arg) ∧
  returns (λ m', ∀ j, is_Some (profiles m' !! j) ↔ is_Some (profiles m !! j))
    (main_profilesedit arg m) ∧
  returns (λ m', ∀ j, is_Some (stories m' !! j) ↔ is_Some (stories m !! j))
    (main_editlog arg m).
Proof. split_and!; repeat returns_step edit_solve. Qed.

Lemma editing_keeps_the_ids_witness :
  let w := session_world ["t-2"; "exit"] in
  ∃ p, result (task_delete_command (projects seed_mem) "proj-001 t-2") w = Ok p ∧
       ∀ j, is_Some (p !! j) ↔ is_Some (projects seed_mem !! j).
Proof.
  intros w. eexists. split; [vm_compute; reflexivity|].
  destruct (editing_keeps_the_ids seed_mem "proj-001 t-2") as (_ & _ & _ & H & _).
  apply (H w). vm_compute. reflexivity.
Defined.

(** *** Task updates *)

Lemma title_char (b : bool) (c : ascii) :
  (if b then lower_ascii (lower_ascii c) else upper_ascii (lower_ascii c)) =
  (if b then lower_ascii c else upper_ascii c) ∧
  is_cased (lower_ascii c) = is_cased c.
Proof. destruct c as [[] [] [] [] [] [] [] []], b; by vm_compute. Qed.

(** [title] does not depend on the case of its argument. *)
Lemma title_from_lower (b : bool) (s : string) :
  title_from b (lower s) = title_from b s.
Proof.
  revert b. induction s as [|c s IH]; intros b; [done|].
  change (lower (String c s)) with (String (lower_ascii c) (lower s)).
  cbn [title_from]. destruct (title_char b c) as [-> ->]. by rewrite IH.
Qed.

(** A status that [taskupdate] accepts is stored as one of the three. *)
Lemma title_allowed (value : string) :
  lower value ∈ allowed_statuses → title value ∈ task_statuses.
Proof.
  unfold title. rewrite <- title_from_lower. unfold allowed_statuses.
  intros Hin.
  repeat (apply elem_of_cons in Hin as [->|Hin]; [compute_done|]).
  by apply elem_of_nil in Hin.
Qed.

Lemma updated_status (profiles_data : gmap string jobj) (task : jobj) (value : string) :
  lower value ∈ allowed_statuses →
  updated_from profiles_data task (<["Status" := JStr (title value)]> task).
Proof.
  intros Hok. split_and!.
  - intros key Hs _. by rewrite lookup_insert_ne.
  - right. exists (title value). split; [by apply title_allowed|].
    by rewrite lookup_insert_eq.
  - left. by rewrite lookup_insert_ne.
Qed.

Lemma updated_assigned (profiles_data : gmap string jobj) (task : jobj) (a : string) :
  a = "Unassigned" ∨ is_Some (profiles_data !! a) →
  updated_from profiles_data task (<["AssignedTo" := JStr a]> task).
Proof.
  intros Ha. split_and!.
  - intros key _ Hs. by rewrite lookup_insert_ne.
  - left. by rewrite lookup_insert_ne.
  - rewrite lookup_insert_eq. destruct Ha as [->|Ha]; [right; by left|].
    right. right. by exists a.
Qed.

(** What the [commit] of [task_update_command] leaves. *)
Lemma committed_valid (profiles_data : gmap string jobj)
    (projects_data : gmap string project) (proj_id task_id : string)
    (proj : project) (i : nat) (task task' : jobj) :
  projects_data !! proj_id = Some proj →
  find_task task_id (get_tasks proj) = Some (i, task) →
  updated_from profiles_data task task' →
  ∀ pid p',
    <[proj_id := set_tasks proj (<[i := task']> (get_tasks proj))]> projects_data
      !! pid = Some p' →
    ∃ p, projects_data !! pid = Some p ∧ p_fields p' = p_fields p ∧
         Forall2 (updated_from profiles_data) (get_tasks p) (get_tasks p').
Proof.
  intros Hproj [Hi _]%list_find_Some Hup pid p'.
  intros [[<- <-]|[Hne Hp']]%lookup_insert_Some.
  - exists proj. split_and!; [done..|].
    rewrite get_tasks_set. rewrite <- (list_insert_id _ _ _ Hi) at 1.
    apply Forall2_insert; [apply Forall2_updated_refl|done].
  - exists p'. split_and!; [done..|]. apply Forall2_updated_refl.
Qed.

Ltac update_solve :=
  simpl;
  first [ intros pid p' Hp'; exists p'; split_and!; [done..|apply Forall2_updated_refl]
        | eapply committed_valid; [eassumption..|];
          first [ apply updated_status;
                  match goal with
                  | H : bool_decide _ = true |- _ => by apply bool_decide_eq_true in H
                  end
                | apply updated_assigned; by left
                | apply updated_assigned; right;
                  match goal with
                  | H : _ && negb (bool_decide _) = false,
                    H' : negb (nonempty _) = false |- _ =>
                      apply negb_false_iff in H'; rewrite H' in H; simpl in H;
                      apply negb_false_iff in H; by apply bool_decide_eq_true in H
                  end ] ].

(** X14. [taskupdate] only touches tasks, and only their status and
    assignee: every project it returns is a project it was given, with
    the same header and as many tasks in the same order; each task
    differs from the one it was at most in its Status, then one of
    "Pending", "In Progress" and "Complete", and in its AssignedTo, then
    the id of a profile or "Unassigned". *)
Theorem task_update_is_valid (projects_data : gmap string project)
    (profiles_data : gmap string jobj) (args_str : string) :
  returns
    (λ projects_data',
       ∀ pid p', projects_data' !! pid = Some p' →
         ∃ p, projects_data !! pid = Some p ∧ p_fields p' = p_fields p ∧
              Forall2 (updated_from profiles_data) (get_tasks p) (get_tasks p'))
    (task_update_command projects_data args_str profiles_data).
Proof. repeat returns_step update_solve. Qed.

Lemma task_update_is_valid_witness :
  let c := task_update_command (projects seed_mem) "proj-001 t-2 assigned z-1"
             (profiles seed_mem) in
  ∃ p', result c (session_world []) = Ok p' ∧
        ∃ p, projects seed_mem !! "PROJ-001" = Some p ∧
             Forall2 (updated_from (profiles seed_mem)) (get_tasks p)
               (get_tasks (set_tasks seed_project
                  (<[1 := <["AssignedTo" := JStr "Z-1"]>
                            (seed_task "T-2" "Design new splash screen"
                               "Unassigned" "Pending")]>
                     (get_tasks seed_project)))).
Proof.
  intros c. eexists. split; [vm_compute; reflexivity|].
  destruct (task_update_is_valid (projects seed_mem) (profiles seed_mem)
              "proj-001 t-2 assigned z-1" (session_world []) _ eq_refl "PROJ-001"
              (set_tasks seed_project
                 (<[1 := <["AssignedTo" := JStr "Z-1"]>
                           (seed_task "T-2" "Design new splash screen"
                              "Unassigned" "Pending")]>
                    (get_tasks seed_project))))
    as (p & Hp & _ & Hall).
  - vm_compute. reflexivity.
  - exists p. split; [exact Hp|exact Hall].
Defined.
(** ** Sessions *)

(** A session file with a name in it is resumed at the start. *)
Lemma startup_session (w : world) (s : string) :
  session_txt (fs w) = Some s →
  nonempty (strip s) = true →
  writable (fs w) SESSION_HISTORY_FILE = true →
  let w1 := final startup w in
  current_platecore_id w1 = Some (strip s) ∧
  current_session_start_time w1 = clock w ∧
  session_txt (fs w1) = Some s ∧
  session_history_json (fs w1) =
    Content (history_on_disk (fs w) ++
             [history_entry (S (clock w)) (strip s) "Session Resumed" (clock w) None]).
Proof.
  intros Hs Hname Hw. unfold startup.
  match goal with
  | |- context [load_logs ≫= ?k] => set (tail := load_logs ≫= k)
  end.
  assert (Htail : keeps same_session tail) by (subst tail; keeps_tac).
  clearbody tail.
  unfold final, get_logged_in_user. run_M. simpl.
  rewrite Hs. simpl. unfold logged_in, user_or_unknown. simpl. rewrite Hname. simpl.
  rewrite record_session_event_run. simpl. rewrite Hw. simpl.
  match goal with
  | |- context [tail ?w8] =>
      specialize (Htail w8); unfold keeps_at, final, same_session in Htail;
      destruct (tail w8) as [[r w9] t9]
  end.
  simpl in *. destruct Htail as (-> & -> & -> & ->). by rewrite Hs.
Qed.

(** X15. A session survives the end of the process: when the session file
    names a user at the start of [main], that user is logged in again
    without a password, the session start is the time of the start, and
    a "Session Resumed" entry with that start and no end is appended to
    the history. *)
Theorem startup_resumes_session (w : world) (s : string) :
  session_txt (fs w) = Some s →
  nonempty (strip s) = true →
  writable (fs w) SESSION_HISTORY_FILE = true →
  let w1 := final startup w in
  logged_in w1 = true ∧
  current_platecore_id w1 = Some (strip s) ∧
  current_session_start_time w1 = clock w ∧
  history_on_disk (fs w1) =
    history_on_disk (fs w) ++
    [history_entry (S (clock w)) (strip s) "Session Resumed" (clock w) None].
Proof.
  intros Hs Hname Hw w1.
  destruct (startup_session w s Hs Hname Hw) as (Hid & Hstart & _ & Hhist).
  fold w1 in Hid, Hstart, Hhist. split_and!; [|done..|].
  - unfold logged_in. by rewrite Hid.
  - unfold history_on_disk at 1. by rewrite Hhist.
Qed.

Lemma startup_resumes_session_witness :
  let w := session_world ["whoami"] in
  logged_in (final startup w) = true ∧
  current_platecore_id (final startup w) = Some "demoplate".
Proof.
  intros w.
  destruct (startup_resumes_session w "demoplate") as (Hin & Hid & _).
  - reflexivity.
  - reflexivity.
  - reflexivity.
  - split; [exact Hin|exact Hid].
Defined.

Lemma login_run (m : mem) (w : world) (line : string) (rest : list string) :
  stdin w = line :: "demoplate" :: "245225" :: rest →
  base_command (strip line) = "login" →
  logged_in w = false →
  writable (fs w) SESSION_FILE = true →
  writable (fs w) SESSION_HISTORY_FILE = true →
  let h := history_on_disk (fs w) ++
           [history_entry (S (clock w)) "demoplate" "Login Success" (clock w) None] in
  result (iteration m) w = Ok (Continue m) ∧
  final (iteration m) w =
    {| stdin := rest; clock := S (S (clock w));
       fs := put_data (DHistory h) (put_session (Some "demoplate") (fs w));
       current_platecore_id := Some "demoplate";
       current_session_start_time := clock w |}.
Proof.
  intros Hin Hcmd Hout Hs Hh. unfold result, final.
  rewrite (iteration_unfold _ _ _ _ Hin).
  rewrite (dispatch_guest _ _ _ (λ _ m, continue_with m main_login))
    by (rewrite Hcmd; (reflexivity || compute_done)).
  unfold main_login, mark_logged_in. run_M. simpl. unfold logged_in in *. simpl.
  rewrite Hout. simpl. change (String.eqb "demoplate" "demoplate") with true.
  change (String.eqb "245225" "245225") with true. simpl. rewrite Hs. simpl.
  rewrite record_session_event_run. simpl. rewrite Hh. simpl. done.
Qed.

(** X16. [login] with the fixed credentials starts a session: the global and
    the session file name the user, the session start is the time of
    the login, a "Login Success" entry with no end is appended to the
    history, and the collections are untouched. The session outlives
    the process: a start of [main] on the files the login left resumes
    it. *)
Theorem login_starts_session (m : mem) (w w2 : world) (line : string)
    (rest : list string) :
  stdin w = line :: "demoplate" :: "245225" :: rest →
  base_command (strip line) = "login" →
  logged_in w = false →
  writable (fs w) SESSION_FILE = true →
  writable (fs w) SESSION_HISTORY_FILE = true →
  fs w2 = fs (final (iteration m) w) →
  let w1 := final (iteration m) w in
  result (iteration m) w = Ok (Continue m) ∧
  current_platecore_id w1 = Some "demoplate" ∧
  session_txt (fs w1) = Some "demoplate" ∧
  current_session_start_time w1 = clock w ∧
  history_on_disk (fs w1) =
    history_on_disk (fs w) ++
    [history_entry (S (clock w)) "demoplate" "Login Success" (clock w) None] ∧
  stdin w1 = rest ∧
  current_platecore_id (final startup w2) = Some "demoplate".
Proof.
  intros Hin Hcmd Hout Hs Hh Hw2 w1.
  destruct (login_run m w line rest Hin Hcmd Hout Hs Hh) as [Hr Hf].
  subst w1. rewrite Hf in *. split_and!; try done.
  destruct (startup_session w2 "demoplate") as (Hid & _); [by rewrite ?Hw2..|].
  exact Hid.
Qed.

Lemma login_starts_session_witness :
  let w := fresh_world ["LOGIN"; "demoplate"; "245225"; "loglist"] in
  result (iteration seed_mem) w = Ok (Continue seed_mem) ∧
  session_txt (fs (final (iteration seed_mem) w)) = Some "demoplate" ∧
  current_platecore_id
    (final startup (set_stdin ["whoami"] (final (iteration seed_mem) w))) =
    Some "demoplate".
Proof.
  intros w.
  destruct (login_starts_session seed_mem w
              (set_stdin ["whoami"] (final (iteration seed_mem) w)) "LOGIN" ["loglist"])
    as (Hr & _ & Hs & _ & _ & _ & Hid).
  - reflexivity.
  - reflexivity.
  - reflexivity.
  - reflexivity.
  - reflexivity.
  - reflexivity.
  - split; [exact Hr|]. split; [exact Hs|exact Hid].
Defined.

(** X17. The three ways to end a session ([logout], [exit] and the restart
    command) do the same for a user who is logged in: an entry with the
    user, the start of the session and the time of its end is appended
    to the history, then the session file is removed and the global is
    unset; [logout] goes on with the loop, [exit] returns, the restart
    command replaces the process. *)
Theorem ending_a_session (m : mem) (w : world) (line : string) (rest : list string)
    (event_type : string) (c : ctl) :
  stdin w = line :: rest →
  logged_in w = true →
  writable (fs w) SESSION_HISTORY_FILE = true →
  (base_command (strip line) = "logout" ∧ event_type = "Logout" ∧ c = Continue m) ∨
  (base_command (strip line) = "exit" ∧ event_type = "Exit" ∧ c = Return) ∨
  (strip line = "hyprctl dispatch exit" ∧ event_type = "Restart" ∧ c = Execv) →
  let w1 := final (iteration m) w in
  result (iteration m) w = Ok c ∧
  session_txt (fs w1) = None ∧
  current_platecore_id w1 = None ∧
  history_on_disk (fs w1) =
    history_on_disk (fs w) ++
    [history_entry (S (clock w)) (user_or_unknown w) event_type
       (current_session_start_time w) (Some (clock w))].
Proof.
  intros Hin Hlogged Hw Hcase. unfold result, final.
  rewrite (iteration_unfold _ _ _ _ Hin).
  assert (Hlogged' : logged_in (set_stdin rest w) = true) by done.
  destruct Hcase as [(Hcmd & -> & ->)|[(Hcmd & -> & ->)|(Hcmd & -> & ->)]].
  - rewrite (dispatch_logged_in _ _ _ (λ _ m, continue_with m main_logout))
      by (done || by rewrite Hcmd).
    unfold main_logout, clear_session. run_M. simpl. rewrite Hlogged'. simpl.
    rewrite record_session_event_run. simpl. rewrite Hw. simpl.
    unfold history_on_disk.
    destruct (session_txt (fs w)) eqn:Hs; simpl; rewrite ?Hs; split_and!; reflexivity.
  - rewrite (dispatch_logged_in _ _ _
               (λ _ m, pause_print "Exiting session...";; end_session "Exit";;
                       mret Return))
      by (done || by rewrite Hcmd).
    unfold end_session, clear_session. run_M. simpl.
    rewrite record_session_event_run. simpl. rewrite Hw. simpl.
    unfold history_on_disk.
    destruct (session_txt (fs w)) eqn:Hs; simpl; rewrite ?Hs; split_and!; reflexivity.
  - rewrite Hcmd. unfold dispatch. run_M. rewrite Hlogged'. simpl.
    change (find_command (base_command "hyprctl dispatch exit") commands) with
      (@None (string → mem → M ctl)).
    change (String.eqb "hyprctl dispatch exit" "hyprctl dispatch exit") with true.
    unfold end_session, clear_session. run_M. simpl.
    rewrite record_session_event_run. simpl. rewrite Hw. simpl.
    unfold history_on_disk.
    destruct (session_txt (fs w)) eqn:Hs; simpl; rewrite ?Hs; split_and!; reflexivity.
Qed.

Lemma ending_a_session_witness :
  let w := session_world ["Logout"; "loglist"] in
  result (iteration seed_mem) w = Ok (Continue seed_mem) ∧
  session_txt (fs (final (iteration seed_mem) w)) = None ∧
  current_platecore_id (final (iteration seed_mem) w) = None.
Proof.
  intros w.
  destruct (ending_a_session seed_mem w "Logout" ["loglist"] "Logout" (Continue seed_mem))
    as (Hr & Hs & Hid & _).
  - reflexivity.
  - reflexivity.
  - reflexivity.
  - left. split; [reflexivity|]. split; reflexivity.
  - split; [exact Hr|]. split; [exact Hs|exact Hid].
Defined.
(** ** Import: what is kept and what is added *)

(** The profiles and the logs after an import. *)
Lemma import_outcome_entries (m : mem) (f : files) (s : snapshot) :
  profiles (import_outcome m f s).1 = profiles m ∪ default ∅ (s_profiles s) ∧
  stories (import_outcome m f s).1 =
    (if writable f PROFILES_FILE then
       match int_keys (default [] (s_logs s)) ∅ with
       | Some imported_logs => stories m ∪ imported_logs
       | None => stories m
       end
     else stories m).
Proof.
  unfold import_outcome. rewrite import_entries_map. simpl.
  destruct (writable f PROFILES_FILE); simpl; [|done].
  destruct (int_keys (default [] (s_logs s)) ∅) as [il|]; simpl; [|done].
  rewrite import_entries_map.
  destruct (writable f LOGS_FILE); simpl; [|done].
  destruct (writable f PROJECTS_FILE); simpl; [|done].
  by destruct (writable f SESSION_HISTORY_FILE).
Qed.

(** X18. The import never overwrites or drops a local profile or log: the
    profiles after it are the local ones and, under the ids that were
    free, the imported ones; so are the logs once the profiles are
    saved and the log keys of the file are integers, and otherwise the
    logs are left as they were. *)
Theorem import_local_wins (ps : gmap string jobj) (logs : gmap Z (list string))
    (pjs : gmap string project) (hist : list jobj) (w : world)
    (line : string) (rest : list string) (s : snapshot) :
  stdin w = line :: rest →
  other_files (fs w) !! strip line = Some (ExtSnapshot s) →
  nonempty (strip line) = true →
  ∃ m', result (import_all_data ps logs pjs hist) w = Ok m' ∧
        ps ⊆ profiles m' ∧
        logs ⊆ stories m' ∧
        profiles m' = ps ∪ default ∅ (s_profiles s) ∧
        stories m' =
          (if writable (fs w) PROFILES_FILE then
             match int_keys (default [] (s_logs s)) ∅ with
             | Some imported_logs => logs ∪ imported_logs
             | None => logs
             end
           else logs).
Proof.
  intros Hin Hfile Hname.
  destruct (import_all_data_outcome ps logs pjs hist w line rest s Hin Hfile Hname)
    as [Hr _].
  eexists. split; [exact Hr|].
  destruct (import_outcome_entries
              {| stories := logs; profiles := ps; projects := pjs |} (fs w) s)
    as [Hp Hl].
  simpl in Hp, Hl. rewrite Hp, Hl. split_and!; [| |done..].
  - apply map_union_subseteq_l.
  - destruct (writable (fs w) PROFILES_FILE); [|done].
    destruct (int_keys (default [] (s_logs s)) ∅); [|done].
    apply map_union_subseteq_l.
Qed.

Lemma import_local_wins_witness :
  ∃ m', result (import_all_data (profiles seed_mem) (stories seed_mem)
                  (projects seed_mem) []) (import_world example_snapshot) = Ok m' ∧
        profiles seed_mem ⊆ profiles m' ∧ stories seed_mem ⊆ stories m'.
Proof.
  destruct (import_local_wins (profiles seed_mem) (stories seed_mem)
              (projects seed_mem) [] (import_world example_snapshot)
              "snap.json" [] example_snapshot)
    as (m' & Hr & Hp & Hl & _).
  - reflexivity.
  - reflexivity.
  - reflexivity.
  - exists m'. split; [exact Hr|]. split; [exact Hp|exact Hl].
Defined.




(** ** The date of a log entry *)

Lemma before_nil (sep : string) : before sep "" = "".
Proof. by destruct sep. Qed.

Lemma before_cons (sep : string) (c : ascii) (r : string) :
  before sep (String c r) =
    if String.prefix sep (String c r) then "" else String c (before sep r).
Proof. reflexivity. Qed.

Lemma contains_cons (sub : string) (c : ascii) (r : string) :
  contains sub (String c r) = String.prefix sub (String c r) || contains sub r.
Proof. reflexivity. Qed.

Lemma contains_nil (sub : string) : contains sub "" = String.prefix sub "".
Proof. by rewrite <- (orb_false_r (String.prefix sub "")). Qed.

Lemma prefix_app (sep a b : string) :
  String.prefix sep a = true → String.prefix sep (a +:+ b) = true.
Proof.
  revert a. induction sep as [|c sep IH]; intros a; [intros _; by destruct (a +:+ b)|].
  destruct a as [|c' a]; [by cbn|].
  change (String c' a +:+ b) with (String c' (a +:+ b)). cbn [String.prefix].
  destruct (ascii_dec c c'); [apply IH|done].
Qed.

Lemma prefix_self_app (sep b : string) : String.prefix sep (sep +:+ b) = true.
Proof.
  induction sep as [|c sep IH]; [by destruct b|].
  change (String c sep +:+ b) with (String c (sep +:+ b)). cbn [String.prefix].
  by destruct (ascii_dec c c).
Qed.

Lemma contains_of_prefix (sep s : string) :
  String.prefix sep s = true → contains sep s = true.
Proof. destruct s; [by rewrite contains_nil|]. rewrite contains_cons. by intros ->. Qed.

Lemma contains_app_l (sep a b : string) :
  contains sep a = true → contains sep (a +:+ b) = true.
Proof.
  induction a as [|c a IH].
  - rewrite contains_nil. intros H. by apply contains_of_prefix, (prefix_app sep "" b).
  - rewrite contains_cons. change (String c a +:+ b) with (String c (a +:+ b)).
    rewrite contains_cons. intros [H|H]%orb_true_iff.
    + pose proof (prefix_app sep (String c a) b H) as H'.
      change (String c a +:+ b) with (String c (a +:+ b)) in H'. by rewrite H'.
    + rewrite IH by done. apply orb_true_r.
Qed.

Lemma contains_app_r (sep a b : string) :
  contains sep b = true → contains sep (a +:+ b) = true.
Proof.
  intros Hb. induction a as [|c a IH]; [done|].
  change (String c a +:+ b) with (String c (a +:+ b)).
  rewrite contains_cons, IH. apply orb_true_r.
Qed.

(** A dated line holds the separator. *)
Lemma contains_dated (date line : string) : contains EM_DASH (dated date line) = true.
Proof.
  unfold dated. apply contains_app_r, contains_app_r, contains_of_prefix, prefix_self_app.
Qed.

Lemma before_is_prefix (sep s : string) : ∃ t, s = before sep s +:+ t.
Proof.
  induction s as [|c s [t IH]]; [exists ""; by rewrite before_nil|].
  rewrite before_cons. destruct (String.prefix sep (String c s)); [by exists (String c s)|].
  exists t. change (String c (before sep s) +:+ t) with (String c (before sep s +:+ t)).
  by rewrite <- IH.
Qed.

(** The text before the first separator holds no separator. *)
Lemma contains_before (sep s : string) :
  sep ≠ "" → contains sep (before sep s) = false.
Proof.
  intros Hsep.
  assert (Hnil : contains sep "" = false) by (by destruct sep).
  induction s as [|c s IH]; [by rewrite before_nil|].
  rewrite before_cons. destruct (String.prefix sep (String c s)) eqn:Hp; [done|].
  rewrite contains_cons, IH, orb_false_r.
  destruct (String.prefix sep (String c (before sep s))) eqn:Hp'; [|done].
  destruct (before_is_prefix sep s) as [t Ht].
  apply (prefix_app _ _ t) in Hp'.
  change (String c (before sep s) +:+ t) with (String c (before sep s +:+ t)) in Hp'.
  rewrite <- Ht in Hp'. congruence.
Qed.

Lemma contains_lstrip (sep s : string) :
  contains sep s = false → contains sep (lstrip s) = false.
Proof.
  induction s as [|c s IH]; [done|]. cbn [lstrip].
  destruct (is_space c); [|done].
  rewrite contains_cons. intros [_ H]%orb_false_iff. by apply IH.
Qed.

Lemma rstrip_is_prefix (s : string) : ∃ t, s = rstrip s +:+ t.
Proof.
  induction s as [|c s [t IH]]; [by exists ""|]. cbn [rstrip].
  destruct (rstrip s) as [|c' r'] eqn:Hr.
  - destruct (is_space c); [by exists (String c s)|]. exists s. reflexivity.
  - exists t. change (String c (String c' r') +:+ t) with (String c (String c' r' +:+ t)).
    by rewrite <- IH.
Qed.

Lemma contains_rstrip (sep s : string) :
  contains sep s = false → contains sep (rstrip s) = false.
Proof.
  intros Hs. destruct (contains sep (rstrip s)) eqn:Hr; [|done].
  destruct (rstrip_is_prefix s) as [t Ht].
  apply (contains_app_l _ _ t) in Hr. rewrite <- Ht in Hr. congruence.
Qed.

Lemma contains_strip (sep s : string) :
  contains sep s = false → contains sep (strip s) = false.
Proof. intros Hs. unfold strip. by apply contains_rstrip, contains_lstrip. Qed.

(** The text before the separator of a dated line is the date and the
    space that follows it. *)
Lemma before_dated (date line : string) :
  contains EM_DASH date = false →
  before EM_DASH (dated date line) = date +:+ " ".
Proof.
  unfold dated. induction date as [|c d IH]; intros Hd; [reflexivity|].
  change (String c d +:+ " " +:+ EM_DASH +:+ " " +:+ line)
    with (String c (d +:+ " " +:+ EM_DASH +:+ " " +:+ line)).
  rewrite contains_cons in Hd. apply orb_false_iff in Hd as [Hp Hd].
  rewrite before_cons, IH by done.
  assert (String.prefix EM_DASH (String c (d +:+ " " +:+ EM_DASH +:+ " " +:+ line))
          = false) as ->; [|done].
  destruct d as [|c' [|c'' d]].
  - unfold EM_DASH. change ("" +:+ " " +:+ ?x) with (String " " x).
    cbn [String.prefix]. destruct (ascii_dec _ c); [|done].
    by destruct (ascii_dec _ " ").
  - unfold EM_DASH.
    change (String c' "" +:+ " " +:+ ?x) with (String c' (String " " x)).
    cbn [String.prefix]. destruct (ascii_dec _ c); [|done].
    destruct (ascii_dec _ c'); [|done]. by destruct (ascii_dec _ " ").
  - unfold EM_DASH in *.
    change (String c' (String c'' d) +:+ ?x) with (String c' (String c'' (d +:+ x))).
    cbn [String.prefix] in *. destruct (ascii_dec _ c); [|done].
    destruct (ascii_dec _ c'); [|done]. destruct (ascii_dec _ c''); [|done].
    by destruct d.
Qed.

Lemma lstrip_head (s : string) :
  lstrip s = "" ∨ ∃ c r, lstrip s = String c r ∧ is_space c = false.
Proof.
  induction s as [|c s IH]; [by left|]. cbn [lstrip].
  destruct (is_space c) eqn:Hc; [done|]. right. by exists c, s.
Qed.

Lemma rstrip_head (c : ascii) (r : string) :
  is_space c = false → ∃ r', rstrip (String c r) = String c r'.
Proof. intros Hc. cbn [rstrip]. rewrite Hc. destruct (rstrip r); eauto. Qed.

Lemma strip_head (s : string) :
  strip s = "" ∨ ∃ c r, strip s = String c r ∧ is_space c = false.
Proof.
  unfold strip. destruct (lstrip_head s) as [->|(c & r & -> & Hc)]; [by left|].
  right. destruct (rstrip_head c r Hc) as [r' ->]. by exists c, r'.
Qed.

Lemma rstrip_app_space (s : string) : rstrip (s +:+ " ") = rstrip s.
Proof.
  induction s as [|c s IH]; [reflexivity|].
  change (String c s +:+ " ") with (String c (s +:+ " ")). cbn [rstrip]. by rewrite IH.
Qed.

Lemma rstrip_idemp (s : string) : rstrip (rstrip s) = rstrip s.
Proof.
  induction s as [|c s IH]; [done|]. cbn [rstrip].
  destruct (rstrip s) as [|c' r'] eqn:Hr.
  - destruct (is_space c) eqn:Hc; [done|]. cbn [rstrip]. by rewrite Hc.
  - cbn [rstrip] in *. rewrite IH. done.
Qed.

(** A space after a stripped text is stripped again. *)
Lemma strip_strip_space (s : string) : strip (strip s +:+ " ") = strip s.
Proof.
  destruct (strip_head s) as [->|(c & r & Hs & Hc)]; [reflexivity|].
  rewrite Hs. unfold strip at 1.
  change (String c r +:+ " ") with (String c (r +:+ " ")). cbn [lstrip]. rewrite Hc.
  change (String c (r +:+ " ")) with (String c r +:+ " ").
  rewrite rstrip_app_space, <- Hs. unfold strip. apply rstrip_idemp.
Qed.

(** The date of a line dated with the date of another line is that date. *)
Lemma log_date_dated (original line : string) :
  log_date (dated (log_date original) line) = log_date original.
Proof.
  unfold log_date at 1. rewrite before_dated.
  - unfold log_date. apply strip_strip_space.
  - unfold log_date. apply contains_strip, contains_before. by vm_compute.
Qed.

(** X20. [editlog] keeps the date of the entry: when the first line of the
    entry holds the separator and the new first line holds no month
    abbreviation and no separator, the new first line is stored behind
    the date of the old one, so the date the program reads off the
    entry is the same before and after the edit. *)
Theorem editlog_keeps_the_date (m : mem) (arg : string) (k : Z)
    (original_first : string) (original_rest : list string) (w : world)
    (first : string) (others rest : list string) :
  nonempty arg = true →
  py_int arg = Some k →
  stories m !! k = Some (original_first :: original_rest) →
  contains EM_DASH original_first = true →
  read_lines (stdin w) = Some (first :: others, rest) →
  existsb (λ keyword, contains keyword first) date_keywords = false →
  writable (fs w) LOGS_FILE = true →
  let first' := dated (log_date original_first) first in
  result (main_editlog arg m) w =
    Ok (set_stories (<[k := first' :: others]> (stories m)) m) ∧
  contains EM_DASH first' = true ∧
  log_date first' = log_date original_first.
Proof.
  intros Harg Hk Hentry Hdash Hread Hkw Hw first'. split_and!.
  - unfold result, main_editlog, read_entry_lines, save_logs.
    rewrite Harg, Hk, Hentry. run_M. simpl. rewrite Hread. simpl.
    simpl in Hkw. rewrite Hdash, Hkw. simpl. rewrite save_json_file_run. simpl. rewrite Hw. done.
  - apply contains_dated.
  - apply log_date_dated.
Qed.

Lemma editlog_keeps_the_date_witness :
  let w := session_world ["  Mia waved back.  "; "A good day."; "end"; "loglist"] in
  let original := dated "March 12, 2025" "Mia smiled at me during the group work." in
  result (main_editlog "1" seed_mem) w =
    Ok (set_stories
          (<[1%Z := [dated (log_date original) "Mia waved back."; "A good day."]]>
             (stories seed_mem)) seed_mem) ∧
  log_date (dated (log_date original) "Mia waved back.") = log_date original.
Proof.
  intros w original.
  destruct (editlog_keeps_the_date seed_mem "1" 1 original ["She looked shy but happy."]
              w "Mia waved back." ["A good day."] ["loglist"])
    as (Hr & _ & Hd).
  - reflexivity.
  - reflexivity.
  - reflexivity.
  - reflexivity.
  - reflexivity.
  - reflexivity.
  - reflexivity.
  - split; [exact Hr|exact Hd].
Defined.

(** X21. [newlog] stores the lines that were typed as a new entry under
    the next id, which no entry has, so every other entry is left as it
    was; the first line is stored as it was typed when it holds the
    separator and behind the date of the day otherwise, so the first
    line of the new entry always holds the separator. *)
Theorem newlog_entry_is_dated (m : mem) (w : world) (first : string)
    (others rest : list string) :
  read_lines (stdin w) = Some (first :: others, rest) →
  writable (fs w) LOGS_FILE = true →
  let k := next_log_id (stories m) in
  let first' := if contains EM_DASH first then first
                else dated (strftime_date (clock w)) first in
  let stories' := <[k := first' :: others]> (stories m) in
  result (main_newlog m) w = Ok (set_stories stories' m) ∧
  stories m !! k = None ∧
  stories m ⊆ stories' ∧
  contains EM_DASH first' = true.
Proof.
  intros Hread Hw k first' stories'.
  assert (Hnew : stories m !! k = None).
  { destruct (stories m !! k) as [entry|] eqn:Hk; [|done].
    pose proof (next_log_id_fresh (stories m) k ltac:(by eexists)). subst k. lia. }
  split_and!; [|done|by apply insert_subseteq|].
  - unfold result, main_newlog, read_entry_lines, save_logs. run_M. simpl.
    rewrite Hread. simpl. rewrite save_json_file_run. simpl. rewrite Hw. simpl.
    subst stories' first' k. by destruct (contains EM_DASH first).
  - subst first'. destruct (contains EM_DASH first) eqn:Hd; [done|apply contains_dated].
Qed.

Lemma newlog_entry_is_dated_witness :
  let w := session_world ["Sat in the library."; "END"; "exit"] in
  result (main_newlog seed_mem) w =
    Ok (set_stories
          (<[4%Z := [dated (strftime_date 7) "Sat in the library."]]> (stories seed_mem))
          seed_mem) ∧
  stories seed_mem !! 4%Z = None.
Proof.
  intros w.
  destruct (newlog_entry_is_dated seed_mem w "Sat in the library." [] ["exit"])
    as (Hr & Hnew & _).
  - reflexivity.
  - reflexivity.
  - split; [exact Hr|exact Hnew].
Defined.
(** ** Import: the projects *)

Lemma fold_keys_kept (tasks : list jobj) (d : odict) (k : jval) :
  k ∈ d.*1 → k ∈ (foldl import_task_map d tasks).*1.
Proof.
  revert d. induction tasks as [|t tasks IH]; intros d Hk; [done|].
  cbn [foldl]. apply IH. rewrite import_task_map_set.
  destruct (decide (get t "TaskID" ∈ d.*1)) as [Hin|Hout].
  - by rewrite od_set_keys_old.
  - rewrite od_set_new, fmap_app, elem_of_app by done. by left.
Qed.

Lemma keyed_task_ids (d : odict) : keyed d → task_ids (od_values d) = d.*1.
Proof.
  induction d as [|[k v] d IH]; intros Hd; [done|].
  unfold task_ids, od_values in *. rewrite !fmap_cons. simpl. f_equal.
  - apply Hd, list_elem_of_here.
  - apply IH. intros k' v' Hin. by apply Hd, list_elem_of_further.
Qed.

(** The reconciliation of a task list loses no task id. *)
Lemma merge_tasks_keeps_ids (local imported : list jobj) (t : jobj) :
  t ∈ local → get t "TaskID" ∈ task_ids (merge_tasks local imported).
Proof.
  intros Ht. rewrite merge_tasks_fold, keyed_task_ids.
  - apply fold_keys_kept, tasks_map_keys.
    apply (list_elem_of_fmap_2 (λ t, get t "TaskID")), Ht.
  - apply fold_keyed, tasks_map_keyed.
Qed.

(** The keys of the dictionary keep their places; new keys go behind. *)
Lemma fold_keys_prefix (tasks : list jobj) (d : odict) :
  d.*1 `prefix_of` (foldl import_task_map d tasks).*1.
Proof.
  revert d. induction tasks as [|t tasks IH]; intros d; [done|].
  cbn [foldl]. etrans; [|apply IH]. rewrite import_task_map_set.
  destruct (decide (get t "TaskID" ∈ d.*1)) as [Hin|Hout].
  - by rewrite od_set_keys_old.
  - rewrite od_set_new, fmap_app by done. by apply prefix_app_r.
Qed.

Lemma entry_of_keys (tasks : list jobj) : (entry_of <$> tasks).*1 = task_ids tasks.
Proof. unfold task_ids. by rewrite <- list_fmap_compose. Qed.

(** Local task ids that are distinct keep their places. *)
Lemma merge_tasks_ids_prefix (local imported : list jobj) :
  NoDup (task_ids local) →
  task_ids local `prefix_of` task_ids (merge_tasks local imported).
Proof.
  intros Hnd. rewrite merge_tasks_fold, keyed_task_ids
    by apply fold_keyed, tasks_map_keyed.
  rewrite <- (entry_of_keys local), <- tasks_map_distinct by done.
  apply fold_keys_prefix.
Qed.

(** A local task whose id the file does not carry is left as it was. *)
Lemma merge_tasks_untouched (local imported : list jobj) (t : jobj) :
  NoDup (task_ids local) → t ∈ local →
  get t "TaskID" ∉ task_ids imported →
  t ∈ merge_tasks local imported.
Proof.
  intros Hnd Ht Hout. rewrite merge_tasks_fold, tasks_map_distinct by done.
  pose proof (fold_preserves_get _ imported (entry_of <$> local) Hout) as Hget.
  rewrite od_get_entries in Hget by done.
  apply od_get_Some_elem, (list_elem_of_fmap_2 snd) in Hget. exact Hget.
Qed.

Lemma project_kept_refl (imported : gmap string project) (pid : string)
    (pl : project) :
  project_kept imported pid pl pl.
Proof.
  split_and!; [done| |done].
  intros t Ht. by apply (list_elem_of_fmap_2 (λ t, get t "TaskID")).
Qed.

Lemma import_projects_keep_local (local imported : gmap string project)
    (pid : string) (pl : project) :
  local !! pid = Some pl →
  ∃ p', (import_projects local imported).1 !! pid = Some p' ∧
        project_kept imported pid pl p'.
Proof.
  intros Hpl. rewrite import_projects_lookup, Hpl.
  destruct (imported !! pid) as [pi|] eqn:Hpi; simpl.
  - eexists. split; [reflexivity|]. unfold project_kept. rewrite get_tasks_set.
    split_and!; [done| |].
    + intros t Ht. by apply merge_tasks_keeps_ids.
    + intros Hnd. split; [by apply merge_tasks_ids_prefix|].
      intros t Ht Hout. apply merge_tasks_untouched; [done..|]. by apply Hout.
  - exists pl. split; [done|]. apply project_kept_refl.
Qed.

Lemma import_outcome_projects_cases (m : mem) (f : files) (s : snapshot) :
  projects (import_outcome m f s).1 = projects m ∨
  projects (import_outcome m f s).1 =
    (import_projects (projects m) (default ∅ (s_projects s))).1.
Proof.
  unfold import_outcome.
  destruct (writable f PROFILES_FILE); simpl; [|by left].
  destruct (int_keys (default [] (s_logs s)) ∅) as [il|]; simpl; [|by left].
  destruct (writable f LOGS_FILE); simpl; [|by left].
  destruct (writable f PROJECTS_FILE); simpl; [|by right].
  destruct (writable f SESSION_HISTORY_FILE); simpl; by right.
Qed.

(** X22. The import loses no project and no task id: every local project
    is still there after it with its header fields as they were and
    with every task id it had; when the task ids of the project are
    distinct they keep their order, new ones coming behind, and every
    task whose id the file does not carry for that project is left as
    it was. When the import gets to the projects (the profiles and the
    logs were saved, the log keys are integers), a project of the file
    with a new id is added as it is, a local project that the file does
    not name is left as it was, and no other project appears. *)
Theorem import_keeps_projects (ps : gmap string jobj) (logs : gmap Z (list string))
    (pjs : gmap string project) (hist : list jobj) (w : world)
    (line : string) (rest : list string) (s : snapshot) :
  stdin w = line :: rest →
  other_files (fs w) !! strip line = Some (ExtSnapshot s) →
  nonempty (strip line) = true →
  let imported := default ∅ (s_projects s) in
  ∃ m', result (import_all_data ps logs pjs hist) w = Ok m' ∧
    (∀ pid pl, pjs !! pid = Some pl →
       ∃ p', projects m' !! pid = Some p' ∧ p_fields p' = p_fields pl ∧
             (∀ t, t ∈ get_tasks pl → get t "TaskID" ∈ task_ids (get_tasks p')) ∧
             (NoDup (task_ids (get_tasks pl)) →
              task_ids (get_tasks pl) `prefix_of` task_ids (get_tasks p') ∧
              ∀ t, t ∈ get_tasks pl →
                   (∀ pi, imported !! pid = Some pi →
                          get t "TaskID" ∉ task_ids (get_tasks pi)) →
                   t ∈ get_tasks p')) ∧
    (writable (fs w) PROFILES_FILE = true →
     writable (fs w) LOGS_FILE = true →
     is_Some (int_keys (default [] (s_logs s)) ∅) →
     (∀ pid pi, imported !! pid = Some pi → pjs !! pid = None →
                projects m' !! pid = Some pi) ∧
     (∀ pid, imported !! pid = None → projects m' !! pid = pjs !! pid) ∧
     (∀ pid, is_Some (projects m' !! pid) →
             is_Some (pjs !! pid) ∨ is_Some (imported !! pid))).
Proof.
  intros Hin Hfile Hname imported.
  destruct (import_all_data_outcome ps logs pjs hist w line rest s Hin Hfile Hname)
    as [Hr _].
  set (m := {| stories := logs; profiles := ps; projects := pjs |}) in *.
  eexists. split; [exact Hr|]. split.
  - intros pid pl Hpl.
    destruct (import_outcome_projects_cases m (fs w) s) as [-> | ->].
    + exists pl. split; [done|]. apply project_kept_refl.
    + destruct (import_projects_keep_local pjs imported pid pl Hpl) as (p' & Hp' & Hk).
      exists p'. split; [exact Hp'|exact Hk].
  - intros Hp Hl Hil.
    destruct (import_outcome_projects m (fs w) s Hp Hl Hil) as [-> _].
    fold imported. simpl. split_and!.
    + intros pid pi Hpi Hnew. rewrite import_projects_lookup, Hpi, Hnew. done.
    + intros pid Hout. by rewrite import_projects_lookup, Hout.
    + intros pid. rewrite import_projects_lookup.
      destruct (imported !! pid) as [pi|]; [right; by eexists|by left].
Qed.

Lemma import_keeps_projects_witness :
  ∃ m', result (import_all_data (profiles seed_mem) (stories seed_mem)
                  (projects seed_mem) []) (import_world example_snapshot) = Ok m' ∧
        is_Some (projects m' !! "PROJ-001") ∧
        projects m' !! "P" =
          Some (named "imported" (Some [task "T-1" "Complete"; task "T-2" "Pending"])).
Proof.
  destruct (import_keeps_projects (profiles seed_mem) (stories seed_mem)
              (projects seed_mem) [] (import_world example_snapshot)
              "snap.json" [] example_snapshot)
    as (m' & Hr & Hkept & Hstage).
  - reflexivity.
  - reflexivity.
  - reflexivity.
  - exists m'. split; [exact Hr|]. split.
    + destruct (Hkept "PROJ-001" seed_project) as (p' & Hp' & _); [reflexivity|].
      by exists p'.
    + destruct Hstage as (Hnew & _); [reflexivity|reflexivity| |].
      * eexists. vm_compute. reflexivity.
      * apply Hnew; reflexivity.
Defined.

(** ** Deletions are confirmed *)

(** X23. Nothing is deleted without the confirmation: [projectdelete] and
    [profilesdelete] change the collection only when the answer is "y"
    up to case, and [deletelog] only when the answer, stripped, is the
    decimal text of the log id, which then reads back as that id. *)
Theorem deletions_are_confirmed (m : mem) (arg answer : string) (rest : list string)
    (w : world) :
  stdin w = answer :: rest →
  (∀ p, result (project_delete_command (projects m) arg) w = Ok p →
        p ≠ projects m → lower answer = "y") ∧
  (∀ m', result (main_profilesdelete arg m) w = Ok m' →
         profiles m' ≠ profiles m → lower answer = "y") ∧
  (∀ m', result (main_deletelog arg m) w = Ok m' →
         stories m' ≠ stories m →
         ∃ k, py_int arg = Some k ∧ strip answer = py_str k ∧
              py_int (strip answer) = Some k).
Proof.
  intros Hin. split_and!.
  - intros p. unfold result, project_delete_command, save_projects. run_M.
    destruct (negb (nonempty arg)); simpl; [by intros [= <-]|].
    destruct (projects m !! upper arg); simpl; [|by intros [= <-]].
    rewrite Hin. simpl.
    destruct (String.eqb_spec (lower answer) "y") as [->|Hne]; [done|].
    simpl. by intros [= <-].
  - intros m'. unfold result, main_profilesdelete, save_profiles. run_M.
    destruct (nonempty (upper (strip arg))); simpl; [|by intros [= <-]].
    destruct (profiles m !! upper (strip arg)); simpl; [|by intros [= <-]].
    rewrite Hin. simpl.
    destruct (String.eqb_spec (lower answer) "y") as [->|Hne]; [done|].
    simpl. by intros [= <-].
  - intros m'. unfold result, main_deletelog, save_logs. run_M.
    destruct (negb (nonempty arg)); simpl; [by intros [= <-]|].
    destruct (py_int arg) as [k|]; simpl; [|by intros [= <-]].
    destruct (stories m !! k); simpl; [|by intros [= <-]].
    rewrite Hin. simpl.
    destruct (String.eqb_spec (strip answer) (py_str k)) as [Heq|Hne].
    + intros _ _. exists k. split_and!; [done..|]. rewrite Heq. apply py_int_py_str.
    + simpl. by intros [= <-].
Qed.

Lemma deletions_are_confirmed_witness :
  let w := session_world ["2"; "exit"] in
  ∃ m', result (main_deletelog "002" seed_mem) w = Ok m' ∧
        strip "2" = py_str 2.
Proof.
  intros w.
  destruct (deletions_are_confirmed seed_mem "002" "2" ["exit"] w) as (_ & _ & H).
  - reflexivity.
  - eexists. split; [vm_compute; reflexivity|].
    destruct (H (set_stories (delete 2%Z (stories seed_mem)) seed_mem))
      as (k & Hk & Hans & _).
    + vm_compute. reflexivity.
    + vm_compute. discriminate.
    + vm_compute in Hk. injection Hk as <-. exact Hans.
Defined.

(** ** Deleting tasks *)

Ltac drop_solve :=
  simpl; intros pid p' Hp';
  first [ exists p'; split_and!; [done|done|by left]
        | apply lookup_insert_Some in Hp' as [[<- <-]|[Hne Hp']];
          [ eexists; split_and!; [eassumption|done|right; eexists; reflexivity]
          | exists p'; split_and!; [done|done|by left] ] ].

(** X24. [taskdelete] only drops tasks: every project it returns is a
    project it was given with the same header fields, and its task list
    is the one before, or the one before without the tasks of one id
    (all of them, when several tasks share the id), the others in their
    order. *)
Theorem task_delete_only_drops (projects_data : gmap string project)
    (args_str : string) :
  returns
    (λ projects_data',
       ∀ pid p', projects_data' !! pid = Some p' →
         ∃ p, projects_data !! pid = Some p ∧ p_fields p' = p_fields p ∧
              (get_tasks p' = get_tasks p ∨
               ∃ task_id,
                 get_tasks p' =
                   filter (λ t, get t "TaskID" ≠ JStr task_id) (get_tasks p)))
    (task_delete_command projects_data args_str).
Proof. repeat returns_step drop_solve. Qed.

Lemma task_delete_only_drops_witness :
  let c := task_delete_command (projects seed_mem) "proj-001 t-2" in
  ∃ p', result c (session_world []) = Ok p' ∧
        ∃ p, projects seed_mem !! "PROJ-001" = Some p ∧
             (get_tasks (set_tasks seed_project
                           [seed_task "T-1" "Implement Project Management Module"
                              "Z-1" "In Progress";
                            seed_task "T-3" "Integrate user roles and permissions"
                              "Z-1" "Pending"]) = get_tasks p ∨
              ∃ task_id,
                get_tasks (set_tasks seed_project
                             [seed_task "T-1" "Implement Project Management Module"
                                "Z-1" "In Progress";
                              seed_task "T-3" "Integrate user roles and permissions"
                                "Z-1" "Pending"]) =
                  filter (λ t, get t "TaskID" ≠ JStr task_id) (get_tasks p)).
Proof.
  intros c. eexists. split; [vm_compute; reflexivity|].
  destruct (task_delete_only_drops (projects seed_mem) "proj-001 t-2"
              (session_world []) _ eq_refl "PROJ-001"
              (set_tasks seed_project
                 [seed_task "T-1" "Implement Project Management Module"
                    "Z-1" "In Progress";
                  seed_task "T-3" "Integrate user roles and permissions"
                    "Z-1" "Pending"]))
    as (p & Hp & _ & Hall).
  - vm_compute. reflexivity.
  - exists p. split; [exact Hp|exact Hall].
Defined.
